(** * Power Functions Transmitter (pf-transmitter, main.ts)

    A shallow embedding of the infrared transmitter of [src/main.ts]:
    the pulse emitter and datagram encoder ([InfraredLed]), the toggle
    state, the packet scheduler with its cooperative background worker,
    the auto-repeat manager and the three public command functions.

    Integers are modelled as [Z]; the 32-bit behaviour of the bitwise
    operators of the language is written out ([toInt32], [toUint32]).
    The one fractional number of the program, the value of
    [Math.random()], is a double: its product with an integer is
    rounded as the double-precision multiplication rounds it
    ([roundDouble]). *)

From Stdlib Require Import ZArith Lia Bool Ascii String QArith Qround Qpower Lqa.
From stdpp Require Import base tactics option list sorting.

Local Open Scope Z_scope.

(** ** Bitwise operators of the source language

    [&], [|], [^] and [<<] convert their operands to signed 32-bit
    integers and give a signed 32-bit result; [>>>] converts its left
    operand to an unsigned 32-bit integer.  Shift counts are taken
    modulo 32. *)

Module JS.

Definition toUint32 (x : Z) : Z := x mod 2 ^ 32.

Definition toInt32 (x : Z) : Z :=
  let u := toUint32 x in
  if u <? 2 ^ 31 then u else u - 2 ^ 32.

Definition and (a b : Z) : Z := toInt32 (Z.land (toInt32 a) (toInt32 b)).
Definition or (a b : Z) : Z := toInt32 (Z.lor (toInt32 a) (toInt32 b)).
Definition xor (a b : Z) : Z := toInt32 (Z.lxor (toInt32 a) (toInt32 b)).
Definition shl (a n : Z) : Z := toInt32 (Z.shiftl (toInt32 a) (toUint32 n mod 32)).
Definition ushr (a n : Z) : Z := Z.shiftr (toUint32 a) (toUint32 n mod 32).

(** [Math.idiv]: signed 32-bit integer division, truncating toward zero. *)
Definition idiv (x y : Z) : Z := toInt32 (Z.quot (toInt32 x) (toInt32 y)).

End JS.

Infix ".&" := JS.and (at level 40, left associativity).
Infix ".|" := JS.or (at level 50, left associativity).
Infix ".^" := JS.xor (at level 50, left associativity).
Infix ".<<" := JS.shl (at level 30, right associativity).
Infix ".>>>" := JS.ushr (at level 30, right associativity).

(** Binary literals of the source ([0b1100100]) are written [bin "1100100"]. *)

Fixpoint bin_acc (s : string) (acc : Z) : Z :=
  match s with
  | EmptyString => acc
  | String c s' => bin_acc s' (2 * acc + (if Ascii.eqb c "1"%char then 1 else 0))
  end.

Definition bin (s : string) : Z := bin_acc s 0.
Arguments bin s%_string : simpl never.

(** ** The enumerations *)

Inductive PfChannel := Channel1 | Channel2 | Channel3 | Channel4.

Definition PfChannel_val (c : PfChannel) : Z :=
  match c with Channel1 => 0 | Channel2 => 1 | Channel3 => 2 | Channel4 => 3 end.

Inductive PfOutput := Red | Blue.

Definition PfOutput_val (o : PfOutput) : Z :=
  match o with Red => 0 | Blue => 1 end.

Module PfSingleOutput.
Inductive t :=
| Float | Forward1 | Forward2 | Forward3 | Forward4 | Forward5 | Forward6
| Forward7 | BrakeThenFloat | Backward7 | Backward6 | Backward5 | Backward4
| Backward3 | Backward2 | Backward1
| IncrementPWM | DecrementPWM | FullForward | FullBackward
| ToggleFullForwardBackward | ToggleFullForward | ToggleFullBackward
| ToggleDirection | IncrementNumericalPWM | DecrementNumericalPWM
| ClearC1 | SetC1 | ToggleC1 | ClearC2 | SetC2 | ToggleC2.

Definition val (c : t) : Z :=
  match c with
  | Float => bin "1000000"
  | Forward1 => bin "1000001"
  | Forward2 => bin "1000010"
  | Forward3 => bin "1000011"
  | Forward4 => bin "1000100"
  | Forward5 => bin "1000101"
  | Forward6 => bin "1000110"
  | Forward7 => bin "1000111"
  | BrakeThenFloat => bin "1001000"
  | Backward7 => bin "1001001"
  | Backward6 => bin "1001010"
  | Backward5 => bin "1001011"
  | Backward4 => bin "1001100"
  | Backward3 => bin "1001101"
  | Backward2 => bin "1001110"
  | Backward1 => bin "1001111"
  | IncrementPWM => bin "1100100"
  | DecrementPWM => bin "1100101"
  | FullForward => bin "1100110"
  | FullBackward => bin "1100111"
  | ToggleFullForwardBackward => bin "1101000"
  | ToggleFullForward => bin "1100000"
  | ToggleFullBackward => bin "1101111"
  | ToggleDirection => bin "1100001"
  | IncrementNumericalPWM => bin "1100010"
  | DecrementNumericalPWM => bin "1100011"
  | ClearC1 => bin "1101001"
  | SetC1 => bin "1101010"
  | ToggleC1 => bin "1101011"
  | ClearC2 => bin "1101100"
  | SetC2 => bin "1101101"
  | ToggleC2 => bin "1101110"
  end.
End PfSingleOutput.

Module PfComboDirect.
Inductive t := Float | Forward | Backward | BrakeThenFloat.

Definition val (c : t) : Z :=
  match c with
  | Float => bin "00"
  | Forward => bin "01"
  | Backward => bin "10"
  | BrakeThenFloat => bin "11"
  end.
End PfComboDirect.

Module PfComboPWM.
Inductive t :=
| Float | Forward1 | Forward2 | Forward3 | Forward4 | Forward5 | Forward6
| Forward7 | BrakeThenFloat | Backward7 | Backward6 | Backward5 | Backward4
| Backward3 | Backward2 | Backward1.

Definition val (c : t) : Z :=
  match c with
  | Float => bin "0000"
  | Forward1 => bin "0001"
  | Forward2 => bin "0010"
  | Forward3 => bin "0011"
  | Forward4 => bin "0100"
  | Forward5 => bin "0101"
  | Forward6 => bin "0110"
  | Forward7 => bin "0111"
  | BrakeThenFloat => bin "1000"
  | Backward7 => bin "1001"
  | Backward6 => bin "1010"
  | Backward5 => bin "1011"
  | Backward4 => bin "1100"
  | Backward3 => bin "1101"
  | Backward2 => bin "1110"
  | Backward1 => bin "1111"
  end.
End PfComboPWM.

(** ** Pulse emitter and datagram encoder: class [InfraredLed]

    The hardware primitives ([pins.analogWritePin], [pins.analogSetPeriod],
    [control.waitMicros], [serial.writeString]) are recorded as events; a
    method returns the events it performs, in order. *)

Inductive HwEvent :=
| AnalogWritePin (pin value : Z)
| AnalogSetPeriod (pin micros : Z)
| WaitMicros (micros : Z)
| SerialWriteString (s : string).

Record InfraredLed := mkInfraredLed {
  pin : Z;
  waitCorrection : Z;
  debug : bool
}.

Definition transmitBit (p : Z) (highMicros lowMicros : Z) : list HwEvent :=
  [AnalogWritePin p 511; WaitMicros highMicros;
   AnalogWritePin p 1; WaitMicros lowMicros].

(** The calibration loop [for (let i = 0; i < runs; i++) transmitBit(1, 1)]. *)
Fixpoint calibrationRuns (p : Z) (runs : nat) : list HwEvent :=
  match runs with
  | O => []
  | S n => transmitBit p 1 1 ++ calibrationRuns p n
  end.

(** The constructor.  [start] and [end_] are the two readings of
    [input.runningTimeMicros()], before and after the calibration loop. *)
Definition InfraredLed_new (p : Z) (start end_ : Z) : InfraredLed * list HwEvent :=
  let runs := 32 in
  let wc := JS.idiv (end_ - start - runs * 2) (runs * 2) in
  (mkInfraredLed p wc false,
   [AnalogWritePin p 0; AnalogSetPeriod p 26]
     ++ calibrationRuns p (Z.to_nat runs)
     ++ [WaitMicros 2000]).

Definition PF_MARK_BIT : Z := 158.
Definition PF_LOW_BIT (led : InfraredLed) : Z := 421 - PF_MARK_BIT - waitCorrection led.
Definition PF_HIGH_BIT (led : InfraredLed) : Z := 711 - PF_MARK_BIT - waitCorrection led.
Definition PF_START_BIT (led : InfraredLed) : Z := 1184 - PF_MARK_BIT - waitCorrection led.

Definition bitString (bit : Z) : string :=
  if bit =? 0 then "0"%string else "1"%string.

(** The loop [for (let i = 15; i >= 0; i--)] of [sendDatagram]: [n] is
    the number of iterations left, the loop variable is [i = n - 1].
    It returns the events of the remaining iterations and the final
    value of [bits]. *)
Fixpoint sendDatagram_loop (led : InfraredLed) (datagram : Z) (n : nat)
    (bits : string) : list HwEvent * string :=
  match n with
  | O => ([], bits)
  | S n' =>
      let i := Z.of_nat n' in
      let bit := if (datagram .& (1 .<< i)) =? 0 then 0 else 1 in
      let group := (0 <? i) && (i mod 4 =? 0) in
      let bits :=
        (bits ++ (if group then bitString bit ++ "-" else bitString bit))%string in
      let ev :=
        if bit =? 0 then transmitBit (pin led) PF_MARK_BIT (PF_LOW_BIT led)
        else if bit =? 1 then transmitBit (pin led) PF_MARK_BIT (PF_HIGH_BIT led)
        else [] in
      let '(rest, bits) := sendDatagram_loop led datagram n' bits in
      (ev ++ rest, bits)
  end.

Definition newline : string := String (ascii_of_nat 10) EmptyString.

Definition sendDatagram (led : InfraredLed) (datagram : Z) : list HwEvent :=
  let '(data, bits) := sendDatagram_loop led datagram 16 EmptyString in
  transmitBit (pin led) PF_MARK_BIT (PF_START_BIT led)
    ++ data
    ++ transmitBit (pin led) PF_MARK_BIT (PF_START_BIT led)
    ++ (if debug led then [SerialWriteString (bits ++ newline)%string] else []).

(** [sendCommand]: 12 bits of datagram. *)
Definition sendCommand (led : InfraredLed) (command : Z) : list HwEvent :=
  let nibble1 := command .>>> 8 in
  let nibble2 := (command .& bin "000011110000") .>>> 4 in
  let nibble3 := command .& bin "000000001111" in
  let lrc := ((15 .^ nibble1) .^ nibble2) .^ nibble3 in
  sendDatagram led ((command .<< 4) .| lrc).

(** The pulses of a trace: every [transmitBit] is the four events
    write-high, wait, write-low, wait; [pulsesOf] reads them back as
    (mark, space) pairs and skips anything else. *)
Fixpoint pulsesOf (evs : list HwEvent) : list (Z * Z) :=
  match evs with
  | AnalogWritePin _ 511 :: WaitMicros h :: AnalogWritePin _ 1 :: WaitMicros l :: rest =>
      (h, l) :: pulsesOf rest
  | _ :: rest => pulsesOf rest
  | [] => []
  end.

(** ** Namespace [pfTransmitter]: the module state

    The six module-level variables, followed by the part of the run
    time's state that the module acts on: the fibers started with
    [control.inBackground], the recurring timers registered with
    [control.setInterval], and the events sent to the hardware. *)

Record Settings := mkSettings {
  repeatCommandAfter : Z;
  afterSignalPause : Z;
  signalRepeatNumber : Z
}.

(** A task.  The only handler the module ever creates is the closure
    [() => { irLed.sendCommand(command) }]; it is represented by the
    value of [command] it has captured. *)
Record task := mkTask {
  handler : Z;
  type : Z
}.

(** A recurring timer of [control.setInterval]: its handle, the
    [datagram] captured by its callback [() => { sendPacket(datagram) }]
    and its period. *)
Record Interval := mkInterval {
  iv_id : Z;
  iv_datagram : Z;
  iv_delay : Z
}.

Record State := mkState {
  irLed : option InfraredLed;
  toggleByChannel : list Z;
  schedulerIsWorking : bool;
  tasks : list task;
  intervalId : list (option Z);
  settings : Settings;
  (* run time *)
  background : list bool;   (* worker fibers, each with the [mixDatagrams] it captured *)
  intervals : list Interval;  (* the running timers, in the order they were started *)
  emitted : list HwEvent
}.

Definition initialState : State :=
  {| irLed := None;
     toggleByChannel := [1; 1; 1; 1];
     schedulerIsWorking := false;
     tasks := [];
     intervalId := [None; None; None; None];
     settings := mkSettings 500 0 5;
     background := [];
     intervals := [];
     emitted := [] |}.

Definition set_irLed (v : option InfraredLed) (st : State) : State :=
  mkState v (toggleByChannel st) (schedulerIsWorking st) (tasks st) (intervalId st)
    (settings st) (background st) (intervals st) (emitted st).
Definition set_toggleByChannel (v : list Z) (st : State) : State :=
  mkState (irLed st) v (schedulerIsWorking st) (tasks st) (intervalId st)
    (settings st) (background st) (intervals st) (emitted st).
Definition set_schedulerIsWorking (v : bool) (st : State) : State :=
  mkState (irLed st) (toggleByChannel st) v (tasks st) (intervalId st)
    (settings st) (background st) (intervals st) (emitted st).
Definition set_tasks (v : list task) (st : State) : State :=
  mkState (irLed st) (toggleByChannel st) (schedulerIsWorking st) v (intervalId st)
    (settings st) (background st) (intervals st) (emitted st).
Definition set_intervalId (v : list (option Z)) (st : State) : State :=
  mkState (irLed st) (toggleByChannel st) (schedulerIsWorking st) (tasks st) v
    (settings st) (background st) (intervals st) (emitted st).
Definition set_settings (v : Settings) (st : State) : State :=
  mkState (irLed st) (toggleByChannel st) (schedulerIsWorking st) (tasks st) (intervalId st)
    v (background st) (intervals st) (emitted st).
Definition set_background (v : list bool) (st : State) : State :=
  mkState (irLed st) (toggleByChannel st) (schedulerIsWorking st) (tasks st) (intervalId st)
    (settings st) v (intervals st) (emitted st).
Definition set_intervals (v : list Interval) (st : State) : State :=
  mkState (irLed st) (toggleByChannel st) (schedulerIsWorking st) (tasks st) (intervalId st)
    (settings st) (background st) v (emitted st).
Definition set_emitted (v : list HwEvent) (st : State) : State :=
  mkState (irLed st) (toggleByChannel st) (schedulerIsWorking st) (tasks st) (intervalId st)
    (settings st) (background st) (intervals st) v.

(** ** Command sender *)

(** *** Double-precision numbers

    A [number] of the language is an IEEE 754 double.  The integers of
    the program are small and exact; the value of [Math.random()] is
    not, so a double is represented by the rational it denotes and the
    multiplication of [getRandomInt] by that of the doubles: the exact
    product rounded to the nearest double, to the one with an even
    significand when two are equally near. *)

(** [q] denotes a finite double: a multiple of 2^-1074 whose significand
    has at most 53 bits and whose magnitude is below 2^1024. *)
Definition isDouble (q : Q) : bool :=
  let n := Z.abs (Qnum q) * 2 ^ 1074 in
  let d := Z.pos (Qden q) in
  (n mod d =? 0)
  && (let m := n / d in
      (m <? 2 ^ 53) || ((m mod 2 ^ (Z.log2 m - 52) =? 0) && (m <? 2 ^ 2098))).

(** The exponent [e] of a positive rational: [2^e <= x < 2^(e+1)]. *)
Definition log2Q (x : Q) : Z :=
  let k := Z.log2 (Z.pos (Qden x)) + 1 in
  Z.log2 (Qnum x * 2 ^ k / Z.pos (Qden x)) - k.

(** The integer nearest to [s], the even one of two that are equally
    near. *)
Definition roundHalfEven (s : Q) : Z :=
  let f := Qfloor s in
  match (2 * (s - inject_Z f) ?= 1)%Q with
  | Lt => f
  | Gt => f + 1
  | Eq => if Z.even f then f else f + 1
  end.

(** The distance between neighbouring doubles at a positive [x]: 52
    binary places below its exponent, and 2^-1074 for the smallest
    numbers. *)
Definition ulp (x : Q) : Q := (2 ^ Z.max (log2Q x - 52) (-1074))%Q.

(** A rational rounded to a double.  The results in this program stay
    far below 2^1024, where a double overflows. *)
Definition roundDouble (x : Q) : Q :=
  match (x ?= 0)%Q with
  | Eq => 0%Q
  | Gt => (inject_Z (roundHalfEven (x / ulp x)) * ulp x)%Q
  | Lt => (- (inject_Z (roundHalfEven (- x / ulp (- x))) * ulp (- x)))%Q
  end.

(** [getRandomInt]: [random] is the double returned by [Math.random()].
    [min] and [max] are integers at the only call site (0 and the
    length of an array less 1), so [Math.ceil] and [Math.floor] leave
    them as they are and [max - min + 1] and the final sum are exact;
    the product with [random] is rounded. *)
Definition getRandomInt (min max : Z) (random : Q) : Z :=
  let min := Qceiling (inject_Z min) in
  let max := Qfloor (inject_Z max) in
  Qfloor (roundDouble (random * inject_Z (max - min + 1))) + min.

(** Reading [toggleByChannel[channel]].  The index is always 0..3 (it is
    masked with [0b11]) and the array always has four entries
    ([reachable_wellFormed]), so the default is never used. *)
Definition readToggle (l : list Z) (channel : nat) : Z := default 0 (l !! channel).

Definition addToggle (command : Z) (st : State) : Z * State :=
  let channel := Z.to_nat ((bin "001100000000" .& command) .>>> 8) in
  let st :=
    set_toggleByChannel
      (<[channel := 1 - readToggle (toggleByChannel st) channel]> (toggleByChannel st)) st in
  ((readToggle (toggleByChannel st) channel .<< 11) .| command, st).

(** [sendPacket] pauses inside its [while] loop, where other fibers run.
    It is therefore split where it can be suspended: [sendPacket_begin]
    is the code before the loop, [sendPacket_wait] one test of the loop
    condition (entered again after every [basic.pause(20)]) and
    [sendPacket_enqueue] the code after the loop.  [Pending] is the
    frame of a suspended call: its parameter and its two locals. *)
Record Pending := mkPending {
  p_mixDatagrams : bool;
  p_taskType : Z;
  p_command : Z
}.

Inductive Outcome :=
| Returned (st : State)
| Paused (ms : Z) (p : Pending) (st : State).

Definition sendPacket_begin (command : Z) (mixDatagrams : bool) (st : State)
    : Pending * State :=
  let taskType := bin "001100110000" .& command in
  let '(command, st) := addToggle command st in
  (mkPending mixDatagrams taskType command, st).

(** [tasks.filter(x => { return x.type == taskType }).length > 0] *)
Definition sameTypeQueued (taskType : Z) (st : State) : bool :=
  0 <? Z.of_nat (length (filter (λ x, type x = taskType) (tasks st))).

(** The loop [for (let i = 0; i < settings.signalRepeatNumber; i++)
    tasks.push(...)], for [n] iterations. *)
Fixpoint pushTasks (n : nat) (t : task) (queue : list task) : list task :=
  match n with
  | O => queue
  | S n' => pushTasks n' t (queue ++ [t])
  end.

Definition sendPacket_enqueue (p : Pending) (st : State) : State :=
  let st :=
    set_tasks
      (pushTasks (Z.to_nat (signalRepeatNumber (settings st)))
         (mkTask (p_command p) (p_taskType p)) (tasks st)) st in
  if negb (schedulerIsWorking st) then
    let st := set_schedulerIsWorking true st in
    set_background (background st ++ [p_mixDatagrams p]) st
  else st.

Definition sendPacket_wait (p : Pending) (st : State) : Outcome :=
  if p_mixDatagrams p && sameTypeQueued (p_taskType p) st then Paused 20 p st
  else Returned (sendPacket_enqueue p st).

Definition sendPacket (command : Z) (mixDatagrams : bool) (st : State) : Outcome :=
  let '(p, st) := sendPacket_begin command mixDatagrams st in
  sendPacket_wait p st.

(** The state a call leaves behind at the point where it returns or
    pauses.  A call without mixing never pauses ([sendPacket_fifo]). *)
Definition stateOf (o : Outcome) : State :=
  match o with Returned st => st | Paused _ _ st => st end.

(** *** The background worker

    One iteration of the loop of the function given to
    [control.inBackground], up to its [basic.pause]; [mixDatagrams] is
    the variable of the call of [sendPacket] that started the fiber.
    [None] is a run-time failure: [irLed] not yet connected, or no task
    at the index. *)
Inductive WorkerOutcome :=
| WorkerPaused (ms : Z) (st : State)
| WorkerFinished (st : State).

Definition worker_index (mixDatagrams : bool) (random : Q) (st : State) : Z :=
  if mixDatagrams then getRandomInt 0 (Z.of_nat (length (tasks st)) - 1) random
  else 0.

Definition taskAt (queue : list task) (i : Z) : option task :=
  if i <? 0 then None else queue !! Z.to_nat i.

Definition worker_iteration (mixDatagrams : bool) (random : Q) (st : State)
    : option WorkerOutcome :=
  if 0 <? Z.of_nat (length (tasks st)) then
    let i := worker_index mixDatagrams random st in
    t ← taskAt (tasks st) i;
    led ← irLed st;
    let st := set_emitted (emitted st ++ sendCommand led (handler t)) st in
    let st := set_tasks (delete (Z.to_nat i) (tasks st)) st in
    Some (WorkerPaused (afterSignalPause (settings st)) st)
  else
    Some (WorkerFinished (set_schedulerIsWorking false st)).

(** *** Auto repeat

    [control.setInterval] and [control.clearInterval] belong to the run
    time.  The run time keeps its timers in a list, in the order they
    were started.  [control.setInterval(f, delay, Interval)] returns 0
    and starts nothing when [delay] is negative; otherwise it gives the
    new timer the handle of the last timer of the list plus one, 1 when
    the list is empty, and returns that handle.  The timer calls [f]
    after every [delay] milliseconds while [delay] is positive; with
    [delay] 0 it ends before its first call, so it never fires and is
    not kept here.  [control.clearInterval(id, Interval)] cancels the
    timer with this handle: it does not fire again and is taken off
    the list (here at once; the run time drops it when its current
    pause is over, and until then counts it when it numbers a new
    timer, so that a handle can be larger there than it is here). *)

(** The handle the next timer gets. *)
Definition nextInterval (st : State) : Z :=
  match last (intervals st) with
  | Some iv => iv_id iv + 1
  | None => 1
  end.

Definition setInterval (datagram delay : Z) (st : State) : Z * State :=
  if delay <? 0 then (0, st)
  else
    let id := nextInterval st in
    if delay =? 0 then (id, st)
    else (id, set_intervals (intervals st ++ [mkInterval id datagram delay]) st).

Definition clearInterval (id : Z) (st : State) : State :=
  set_intervals (filter (λ iv, iv_id iv ≠ id) (intervals st)) st.

(** Truthiness of [intervalId[channel]]: [null], a missing entry and 0
    are false. *)
Definition truthy (v : option (option Z)) : option Z :=
  match v with
  | Some (Some id) => if id =? 0 then None else Some id
  | _ => None
  end.

Definition repeatCommand (channel command datagram : Z) (excluded : list Z)
    (st : State) : State :=
  let ch := Z.to_nat channel in
  let st :=
    match truthy (intervalId st !! ch) with
    | Some id =>
        let st := clearInterval id st in
        set_intervalId (<[ch := None]> (intervalId st)) st
    | None => st
    end in
  let st := stateOf (sendPacket datagram false st) in
  if negb (existsb (λ x, x =? command) excluded) then
    let '(id, st) := setInterval datagram (repeatCommandAfter (settings st)) st in
    set_intervalId (<[ch := Some id]> (intervalId st)) st
  else st.

(** The callback of a recurring timer. *)
Definition intervalCallback (iv : Interval) (st : State) : State :=
  stateOf (sendPacket (iv_datagram iv) false st).

(** ** Public functions *)

(** [start] and [end_] are the clock readings of the constructor. *)
Definition connectIrSenderLed (p : Z) (debug : bool) (start end_ : Z) (st : State)
    : State :=
  let '(led, evs) := InfraredLed_new p start end_ in
  let st := set_emitted (emitted st ++ evs) st in
  set_irLed (Some (mkInfraredLed (pin led) (waitCorrection led) debug)) st.

(** The value of the local [mixDatagrams] of [singleOutputMode] when it
    calls [sendPacket]. *)
Definition singleOutputMode_mixDatagrams (command : Z) : bool :=
  let mixDatagrams := true in
  if existsb (λ x, x =? command) [bin "1100100"; bin "1100101"] then false
  else mixDatagrams.

Definition singleOutputMode (channel : PfChannel) (output : PfOutput)
    (command : PfSingleOutput.t) (st : State) : Outcome :=
  let channel := PfChannel_val channel in
  let output := PfOutput_val output in
  let command := PfSingleOutput.val command in
  let mixDatagrams := singleOutputMode_mixDatagrams command in
  sendPacket (((channel .<< 8) .| command) .| (output .<< 4)) mixDatagrams st.

Definition comboDirectMode (channel : PfChannel) (red blue : PfComboDirect.t)
    (st : State) : State :=
  let channel := PfChannel_val channel in
  let red := PfComboDirect.val red in
  let blue := PfComboDirect.val blue in
  let command := (blue .<< 2) .| red in
  let datagram := ((channel .<< 8) .| bin "00010000") .| command in
  repeatCommand channel command datagram [0; 15] st.

Definition comboPWMMode (channel : PfChannel) (red blue : PfComboPWM.t)
    (st : State) : State :=
  let channel := PfChannel_val channel in
  let red := PfComboPWM.val red in
  let blue := PfComboPWM.val blue in
  let command := (blue .<< 4) .| red in
  let datagram := ((bin "0100" .| channel) .<< 8) .| command in
  repeatCommand channel command datagram [0; 136] st.

Definition advancedSettings (repeatCommandAfter afterSignalPause signalRepeatNumber : Z)
    (st : State) : State :=
  set_settings (mkSettings repeatCommandAfter afterSignalPause signalRepeatNumber) st.

(** ** The cooperative system

    Fibers run one at a time and give up control only in [basic.pause]:
    [control.waitMicros] is a busy wait, so a handler transmits its
    whole datagram without interruption, and a fiber started with
    [control.inBackground] runs once the fiber that started it pauses or
    ends.  A configuration holds the module state and the calls of
    [sendPacket] that are paused in the [while] loop.  An action is what
    one fiber does between two pauses: a call of a public function (up
    to its first pause, if it has one), a paused call testing its loop
    condition again, one iteration of a background worker, or a
    recurring timer firing.  Actions may follow each other in any order.

    Two history variables, read by no action, record which call of
    [sendPacket] pushed each queued task: [calls] numbers the calls and
    [history] is the queue with, next to each task, the number and the
    [mixDatagrams] of the call that pushed it. *)

Record Origin := mkOrigin {
  o_call : nat;
  o_mixDatagrams : bool
}.

Record System := mkSystem {
  globals : State;
  waiting : list (Origin * Pending);
  history : list (task * Origin);
  calls : nat
}.

Definition initialSystem : System := mkSystem initialState [] [] 0.

Inductive Action :=
| AConnectIrSenderLed (p : Z) (debug : bool) (start end_ : Z)
| ASingleOutputMode (channel : PfChannel) (output : PfOutput) (command : PfSingleOutput.t)
| AComboDirectMode (channel : PfChannel) (red blue : PfComboDirect.t)
| AComboPWMMode (channel : PfChannel) (red blue : PfComboPWM.t)
| AAdvancedSettings (repeatCommandAfter afterSignalPause signalRepeatNumber : Z)
| AResume (k : nat)
| AWorker (k : nat) (random : Q)
| ATimer (k : nat).

(** The tasks pushed between [before] and [after], marked with [o]. *)
Definition pushedBy (o : Origin) (before after : State) : list (task * Origin) :=
  (λ t, (t, o)) <$> drop (length (tasks before)) (tasks after).

(** A value [Math.random()] can return: a double from 0 (included) to
    1 (excluded). *)
Definition isRandom (random : Q) : bool :=
  isDouble random && Qle_bool 0 random && negb (Qle_bool 1 random).

Definition perform (a : Action) (sys : System) : option System :=
  let st := globals sys in
  match a with
  | AConnectIrSenderLed p debug start end_ =>
      Some (mkSystem (connectIrSenderLed p debug start end_ st)
              (waiting sys) (history sys) (calls sys))
  | ASingleOutputMode channel output command =>
      let o := mkOrigin (calls sys)
                 (singleOutputMode_mixDatagrams (PfSingleOutput.val command)) in
      match singleOutputMode channel output command st with
      | Returned st' =>
          Some (mkSystem st' (waiting sys) (history sys ++ pushedBy o st st')
                  (S (calls sys)))
      | Paused _ p st' =>
          Some (mkSystem st' (waiting sys ++ [(o, p)]) (history sys) (S (calls sys)))
      end
  | AComboDirectMode channel red blue =>
      let st' := comboDirectMode channel red blue st in
      Some (mkSystem st' (waiting sys)
              (history sys ++ pushedBy (mkOrigin (calls sys) false) st st')
              (S (calls sys)))
  | AComboPWMMode channel red blue =>
      let st' := comboPWMMode channel red blue st in
      Some (mkSystem st' (waiting sys)
              (history sys ++ pushedBy (mkOrigin (calls sys) false) st st')
              (S (calls sys)))
  | AAdvancedSettings a b c =>
      Some (mkSystem (advancedSettings a b c st) (waiting sys) (history sys) (calls sys))
  | AResume k =>
      '(o, p) ← waiting sys !! k;
      match sendPacket_wait p st with
      | Returned st' =>
          Some (mkSystem st' (delete k (waiting sys)) (history sys ++ pushedBy o st st')
                  (calls sys))
      | Paused _ _ st' =>
          Some (mkSystem st' (waiting sys) (history sys) (calls sys))
      end
  | AWorker k random =>
      mixDatagrams ← background st !! k;
      if isRandom random then
        out ← worker_iteration mixDatagrams random st;
        match out with
        | WorkerPaused _ st' =>
            Some (mkSystem st' (waiting sys)
                    (delete (Z.to_nat (worker_index mixDatagrams random st)) (history sys))
                    (calls sys))
        | WorkerFinished st' =>
            Some (mkSystem (set_background (delete k (background st')) st')
                    (waiting sys) (history sys) (calls sys))
        end
      else None
  | ATimer k =>
      iv ← intervals st !! k;
      let st' := intervalCallback iv st in
      Some (mkSystem st' (waiting sys)
              (history sys ++ pushedBy (mkOrigin (calls sys) false) st st')
              (S (calls sys)))
  end.

Fixpoint run (acts : list Action) (sys : System) : option System :=
  match acts with
  | [] => Some sys
  | a :: acts => sys' ← perform a sys; run acts sys'
  end.

(** The configuration a sequence of actions leads to from power-on
    (the initial one if an action fails). *)
Definition afterRun (acts : list Action) : System :=
  default initialSystem (run acts initialSystem).

Inductive Reachable : System → Prop :=
| reach_init : Reachable initialSystem
| reach_step sys a sys' :
    Reachable sys → perform a sys = Some sys' → Reachable sys'.

(** ** Notions used in the statements *)

(** The [k]-th 4-bit group of [v], counted from the least significant. *)
Definition nibble (k : Z) (v : Z) : Z := Z.shiftr v (4 * k) mod 16.

(** The checksum and the datagram of a 12-bit command, as the protocol
    defines them: bits 11..8 are [nibble 2], bits 7..4 [nibble 1] and
    bits 3..0 [nibble 0]. *)
Definition lrcOf (v : Z) : Z :=
  Z.lxor (Z.lxor (Z.lxor 15 (nibble 2 v)) (nibble 1 v)) (nibble 0 v).

Definition datagramOf (v : Z) : Z := Z.lor (Z.shiftl v 4) (lrcOf v).

(** The 16 bits of a datagram, most significant first. *)
Definition dataBits (datagram : Z) : list bool :=
  (λ i, Z.testbit datagram (Z.of_nat i)) <$> rev (seq 0 16).

(** A frame as the protocol defines it, as (mark, space) pairs, for the
    given space widths. *)
Definition frame (mark startSpace lowSpace highSpace : Z) (datagram : Z)
    : list (Z * Z) :=
  [(mark, startSpace)]
    ++ ((λ b : bool, (mark, if b then highSpace else lowSpace)) <$> dataBits datagram)
    ++ [(mark, startSpace)].

(** The pulse [sendDatagram] sends for a data bit. *)
Definition bitPulse (led : InfraredLed) (b : bool) : Z * Z :=
  (PF_MARK_BIT, if b then PF_HIGH_BIT led else PF_LOW_BIT led).

(** The events of a list of pulses sent with [transmitBit]. *)
Definition transmitAll (p : Z) (pulses : list (Z * Z)) : list HwEvent :=
  pulses ≫= (λ hl, transmitBit p hl.1 hl.2).

(** The channel a 12-bit command value addresses (bits 9..8) and its
    toggle bit (bit 11). *)
Definition channelOf (command : Z) : Z := Z.shiftr command 8 mod 4.
Definition toggleOf (command : Z) : Z := Z.shiftr command 11 mod 2.

(** [addToggle] applied to a sequence of commands, one after the other. *)
Fixpoint addToggles (commands : list Z) (st : State) : list Z :=
  match commands with
  | [] => []
  | c :: cs => let '(c', st') := addToggle c st in c' :: addToggles cs st'
  end.

(** 0, 1, 0, 1, ... or 1, 0, 1, 0, ...: [n] values starting with [b]. *)
Fixpoint alternating (b : Z) (n : nat) : list Z :=
  match n with
  | O => []
  | S n' => b :: alternating (1 - b) n'
  end.

(** The recurring timers left once the timer held for a channel, if any,
    has been cancelled. *)
Definition cancelled (ch : nat) (st : State) : list Interval :=
  match truthy (intervalId st !! ch) with
  | Some id => filter (λ iv, iv_id iv ≠ id) (intervals st)
  | None => intervals st
  end.

(** The combinations for which the combo modes start no recurring
    timer: both outputs floating or both braking. *)
Definition comboDirectNeutral (red blue : PfComboDirect.t) : bool :=
  match red, blue with
  | PfComboDirect.Float, PfComboDirect.Float
  | PfComboDirect.BrakeThenFloat, PfComboDirect.BrakeThenFloat => true
  | _, _ => false
  end.

Definition comboPWMNeutral (red blue : PfComboPWM.t) : bool :=
  match red, blue with
  | PfComboPWM.Float, PfComboPWM.Float
  | PfComboPWM.BrakeThenFloat, PfComboPWM.BrakeThenFloat => true
  | _, _ => false
  end.

(** Two packets carry the same command [d] with opposite toggles: all
    tasks of the first hold one value and all tasks of the second
    another, the two values agree with [d] on bits 10..0 and differ in
    bit 11, and so do the 16-bit datagrams sent for them, in bit 15. *)
Definition sameCommandOppositeToggle (d : Z) (first second : list task) : Prop :=
  ∃ c1 c2,
    first = replicate (length first) (mkTask c1 (bin "001100110000" .& d))
    ∧ second = replicate (length second) (mkTask c2 (bin "001100110000" .& d))
    ∧ c1 mod 2048 = d ∧ c2 mod 2048 = d
    ∧ toggleOf c2 = 1 - toggleOf c1
    ∧ Z.testbit c1 11 = negb (Z.testbit c2 11)
    ∧ Z.testbit (datagramOf c1) 15 = negb (Z.testbit (datagramOf c2) 15)
    ∧ ∀ led, pulsesOf (sendCommand led c1) ≠ pulsesOf (sendCommand led c2).

(** The tasks a step has appended to the queue. *)
Definition pushed (before after : State) : list task :=
  drop (length (tasks before)) (tasks after).



(** The module state is well formed when the two per-channel arrays
    have their four entries and every toggle is 0 or 1; every reachable
    state is ([reachable_wellFormed]). *)
Definition wellFormed (st : State) : Prop :=
  length (toggleByChannel st) = 4%nat ∧
  length (intervalId st) = 4%nat ∧
  Forall (λ b, b = 0 ∨ b = 1) (toggleByChannel st).

(** Every recurring timer resubmits an 11-bit value (no toggle yet). *)
Definition timersInRange (st : State) : Prop :=
  Forall (λ iv, 0 ≤ iv_datagram iv < 2048) (intervals st).

(** At most one worker fiber exists, [schedulerIsWorking] tells whether
    one does, and one does whenever the queue is not empty. *)
Definition singleWorker (st : State) : Prop :=
  (length (background st) ≤ 1)%nat
  ∧ (schedulerIsWorking st = true ↔ background st ≠ [])
  ∧ (tasks st ≠ [] → schedulerIsWorking st = true).

(** ** Example runs *)

(** A worker started by a packet without mixing (a combo command) is
    still draining when a packet with mixing is pushed for another
    channel; five iterations later the queue holds that packet only. *)
Definition fifoWorkerRun : list Action :=
  [AConnectIrSenderLed 0 false 100 5000;
   AComboDirectMode Channel1 PfComboDirect.Forward PfComboDirect.Float;
   ASingleOutputMode Channel2 Red PfSingleOutput.Forward7;
   AWorker 0 0; AWorker 0 0; AWorker 0 0; AWorker 0 0; AWorker 0 0].



(** ** Further notions: the receiving side of a frame *)

(** What a receiver reads from one data pulse of the diode [led]: the
    bit, if the space is one of the two data spaces. *)
Definition decodePulse (led : InfraredLed) (pulse : Z * Z) : option bool :=
  if negb (pulse.1 =? PF_MARK_BIT) then None
  else if pulse.2 =? PF_HIGH_BIT led then Some true
  else if pulse.2 =? PF_LOW_BIT led then Some false
  else None.

(** The number spelled by a list of bits, most significant first. *)
Definition bitsToZ (bits : list bool) : Z :=
  foldl (λ acc (b : bool), 2 * acc + (if b then 1 else 0)) 0 bits.

(** Reading a frame back: 18 pulses, the first and the last a start
    pulse, the 16 in between data pulses. *)
Definition decodeFrame (led : InfraredLed) (pulses : list (Z * Z)) : option Z :=
  let start := (PF_MARK_BIT, PF_START_BIT led) in
  if decide (length pulses = 18%nat
             ∧ pulses !! 0%nat = Some start ∧ pulses !! 17%nat = Some start)
  then bitsToZ <$> mapM (decodePulse led) (take 16 (drop 1 pulses))
  else None.

(** The check a receiver applies to a datagram: its four nibbles xor to
    15. *)
Definition lrcValid (datagram : Z) : bool :=
  Z.lxor (Z.lxor (Z.lxor (nibble 3 datagram) (nibble 2 datagram)) (nibble 1 datagram))
    (nibble 0 datagram) =? 15.

(** The time the events of a trace wait, in microseconds. *)
Definition waitOf (ev : HwEvent) : Z :=
  match ev with WaitMicros us => us | _ => 0 end.

Definition totalWait (evs : list HwEvent) : Z :=
  foldr (λ ev acc, waitOf ev + acc) 0 evs.

(** The number of 1 bits among the 16 bits of a datagram. *)
Definition onesOf (datagram : Z) : Z :=
  Z.of_nat (length (filter (λ b : bool, b = true) (dataBits datagram))).

(** The line [sendDatagram] writes when [debug] is set, as it should
    read: the 16 bits, most significant first, in four groups separated
    by a dash, and a line feed. *)
Definition bitChars (bits : list bool) : string :=
  foldr (λ (b : bool) s, ((if b then "1" else "0") ++ s)%string) EmptyString bits.

Definition traceLine (datagram : Z) : string :=
  let bs := dataBits datagram in
  (bitChars (take 4 bs) ++ "-" ++ bitChars (take 4 (drop 4 bs)) ++ "-"
   ++ bitChars (take 4 (drop 8 bs)) ++ "-" ++ bitChars (drop 12 bs) ++ newline)%string.

Definition isSerial (ev : HwEvent) : bool :=
  match ev with SerialWriteString _ => true | _ => false end.

(** ** Further notions: the commands of the public functions *)

(** A call of one of the three command functions. *)
Inductive Command :=
| SingleOutput (channel : PfChannel) (output : PfOutput) (command : PfSingleOutput.t)
| ComboDirect (channel : PfChannel) (red blue : PfComboDirect.t)
| ComboPWM (channel : PfChannel) (red blue : PfComboPWM.t).

(** The value the function builds for it: the argument of [sendPacket]
    in [singleOutputMode], the local [datagram] in the two combo modes. *)
Definition commandValue (c : Command) : Z :=
  match c with
  | SingleOutput channel output command =>
      ((PfChannel_val channel .<< 8) .| PfSingleOutput.val command)
        .| (PfOutput_val output .<< 4)
  | ComboDirect channel red blue =>
      ((PfChannel_val channel .<< 8) .| bin "00010000")
        .| ((PfComboDirect.val blue .<< 2) .| PfComboDirect.val red)
  | ComboPWM channel red blue =>
      ((bin "0100" .| PfChannel_val channel) .<< 8)
        .| ((PfComboPWM.val blue .<< 4) .| PfComboPWM.val red)
  end.

Definition commandChannel (c : Command) : PfChannel :=
  match c with
  | SingleOutput channel _ _ | ComboDirect channel _ _ | ComboPWM channel _ _ => channel
  end.

(** The call itself. *)
Definition issue (c : Command) (st : State) : Outcome :=
  match c with
  | SingleOutput channel output command => singleOutputMode channel output command st
  | ComboDirect channel red blue => Returned (comboDirectMode channel red blue st)
  | ComboPWM channel red blue => Returned (comboPWMMode channel red blue st)
  end.

(** [taskType] of [sendPacket], as a function of its argument. *)
Definition taskTypeOf (command : Z) : Z := bin "001100110000" .& command.

(** Reading a command value back, field by field, as a receiver does:
    bit 10 (escape) set is combo PWM, otherwise bit 6 set is single
    output, otherwise a second nibble 0001 is combo direct. *)
Definition allChannels : list PfChannel := [Channel1; Channel2; Channel3; Channel4].
Definition allOutputs : list PfOutput := [Red; Blue].
Definition allSingleOutput : list PfSingleOutput.t :=
  [PfSingleOutput.Float; PfSingleOutput.Forward1; PfSingleOutput.Forward2;
   PfSingleOutput.Forward3; PfSingleOutput.Forward4; PfSingleOutput.Forward5;
   PfSingleOutput.Forward6; PfSingleOutput.Forward7; PfSingleOutput.BrakeThenFloat;
   PfSingleOutput.Backward7; PfSingleOutput.Backward6; PfSingleOutput.Backward5;
   PfSingleOutput.Backward4; PfSingleOutput.Backward3; PfSingleOutput.Backward2;
   PfSingleOutput.Backward1; PfSingleOutput.IncrementPWM; PfSingleOutput.DecrementPWM;
   PfSingleOutput.FullForward; PfSingleOutput.FullBackward;
   PfSingleOutput.ToggleFullForwardBackward; PfSingleOutput.ToggleFullForward;
   PfSingleOutput.ToggleFullBackward; PfSingleOutput.ToggleDirection;
   PfSingleOutput.IncrementNumericalPWM; PfSingleOutput.DecrementNumericalPWM;
   PfSingleOutput.ClearC1; PfSingleOutput.SetC1; PfSingleOutput.ToggleC1;
   PfSingleOutput.ClearC2; PfSingleOutput.SetC2; PfSingleOutput.ToggleC2].
Definition allComboDirect : list PfComboDirect.t :=
  [PfComboDirect.Float; PfComboDirect.Forward; PfComboDirect.Backward;
   PfComboDirect.BrakeThenFloat].
Definition allComboPWM : list PfComboPWM.t :=
  [PfComboPWM.Float; PfComboPWM.Forward1; PfComboPWM.Forward2; PfComboPWM.Forward3;
   PfComboPWM.Forward4; PfComboPWM.Forward5; PfComboPWM.Forward6; PfComboPWM.Forward7;
   PfComboPWM.BrakeThenFloat; PfComboPWM.Backward7; PfComboPWM.Backward6;
   PfComboPWM.Backward5; PfComboPWM.Backward4; PfComboPWM.Backward3;
   PfComboPWM.Backward2; PfComboPWM.Backward1].

Definition withValue {A} (val : A → Z) (all : list A) (z : Z) : option A :=
  find (λ a, val a =? z) all.

Definition decodeCommand (raw : Z) : option Command :=
  channel ← withValue PfChannel_val allChannels (Z.land (Z.shiftr raw 8) 3);
  if Z.testbit raw 10 then
    blue ← withValue PfComboPWM.val allComboPWM (Z.land (Z.shiftr raw 4) 15);
    red ← withValue PfComboPWM.val allComboPWM (Z.land raw 15);
    Some (ComboPWM channel red blue)
  else if Z.testbit raw 6 then
    output ← withValue PfOutput_val allOutputs (Z.land (Z.shiftr raw 4) 1);
    command ← withValue PfSingleOutput.val allSingleOutput (Z.land raw (bin "1101111"));
    Some (SingleOutput channel output command)
  else if Z.land (Z.shiftr raw 4) 15 =? 1 then
    blue ← withValue PfComboDirect.val allComboDirect (Z.land (Z.shiftr raw 2) 3);
    red ← withValue PfComboDirect.val allComboDirect (Z.land raw 3);
    Some (ComboDirect channel red blue)
  else None.

(** The two groups of single-output opcodes: bit 5 is clear for the
    speed steps ([0b100....]) and set for the others ([0b110....]). *)
Definition opcodeGroup (command : PfSingleOutput.t) : bool :=
  Z.testbit (PfSingleOutput.val command) 5.

(** ** Further notions: the worker on its own and the timers *)

(** The loop of the worker when no other fiber changes the module state
    during its pauses.  [randoms] holds one value of [Math.random()] for
    each test of the loop condition and bounds their number: the result
    is [None] when the values run out before the queue is empty, or when
    an iteration fails. *)
Fixpoint workerLoop (mixDatagrams : bool) (randoms : list Q) (st : State)
    : option State :=
  match randoms with
  | [] => None
  | random :: randoms =>
      match worker_iteration mixDatagrams random st with
      | Some (WorkerPaused _ st') => workerLoop mixDatagrams randoms st'
      | Some (WorkerFinished st') => Some st'
      | None => None
      end
  end.

(** The events of transmitting the given tasks one after the other. *)
Definition transmissions (led : InfraredLed) (queue : list task) : list HwEvent :=
  queue ≫= (λ t, sendCommand led (handler t)).

(** The channel a timer resubmits its command to. *)
Definition timerChannel (iv : Interval) : nat := Z.to_nat (channelOf (iv_datagram iv)).

(** The running timers and the handles kept in [intervalId] agree: the
    timers have positive periods and positive handles that grow along
    the list, so that no two are equal, and each timer is registered
    under the channel its command value addresses, whose entry of
    [intervalId] holds its handle. *)
Definition consistent (ivs : list Interval) (ids : list (option Z)) : Prop :=
  StronglySorted (λ a b, iv_id a < iv_id b) ivs
  ∧ Forall (λ iv, 0 < iv_id iv ∧ 0 < iv_delay iv) ivs
  ∧ (∀ iv, iv ∈ ivs → ids !! timerChannel iv = Some (Some (iv_id iv))).

Definition timersConsistent (st : State) : Prop :=
  consistent (intervals st) (intervalId st).

(** No entry of [intervalId] is left over from a timer that is gone: a
    handle other than 0 kept for a channel is the handle of a running
    timer of that channel. *)
Definition handlesLive (st : State) : Prop :=
  ∀ ch id, intervalId st !! ch = Some (Some id) → id ≠ 0 →
    ∃ iv, iv ∈ intervals st ∧ iv_id iv = id ∧ timerChannel iv = ch.

(** [intervalId] once the handle of a channel, if any, has been cleared. *)
Definition clearedIds (ch : nat) (st : State) : list (option Z) :=
  match truthy (intervalId st !! ch) with
  | Some _ => <[ch := None]> (intervalId st)
  | None => intervalId st
  end.

(** The timers of a channel. *)
Definition timersOf (ch : nat) (st : State) : list Interval :=
  filter (λ iv, timerChannel iv = ch) (intervals st).

(** The actions that are calls of a combo mode. *)
Definition isComboCall (a : Action) : bool :=
  match a with
  | AComboDirectMode _ _ _ | AComboPWMMode _ _ _ => true
  | _ => false
  end.

(** The calls that start a recurring timer: the combo modes, unless both
    outputs float or both brake. *)
Definition startsTimer (c : Command) : bool :=
  match c with
  | SingleOutput _ _ _ => false
  | ComboDirect _ red blue => negb (comboDirectNeutral red blue)
  | ComboPWM _ red blue => negb (comboPWMNeutral red blue)
  end.

(** Two combo commands start the timers of two channels, the first
    timer fires once, and a floating combo then stops it. *)
Definition comboRun : list Action :=
  [AConnectIrSenderLed 0 false 100 5000;
   AComboDirectMode Channel1 PfComboDirect.Forward PfComboDirect.Float;
   AComboPWMMode Channel2 PfComboPWM.Forward7 PfComboPWM.Float;
   ATimer 0;
   AComboDirectMode Channel1 PfComboDirect.Float PfComboDirect.Float].

(** A combo command is held on channel 1 while a single output command
    for the same channel, the timer, the worker and a change of the
    settings follow. *)
Definition heldRun : list Action :=
  [AConnectIrSenderLed 0 false 100 5000;
   AComboDirectMode Channel1 PfComboDirect.Forward PfComboDirect.Float].

Definition afterHeldRun : list Action :=
  [ASingleOutputMode Channel1 Red PfSingleOutput.Float;
   ATimer 0;
   AWorker 0 (1 # 2);
   AAdvancedSettings 100 10 3;
   AConnectIrSenderLed 1 true 0 4000].

(** A combo command issued while [repeatCommandAfter] is negative. *)
Definition negativePeriodRun : list Action :=
  [AAdvancedSettings (-1) 0 5;
   AComboDirectMode Channel1 PfComboDirect.Forward PfComboDirect.Float].

(** * Properties

    ** 32-bit operators on small operands *)

Lemma toUint32_small x : 0 ≤ x < 2 ^ 32 → JS.toUint32 x = x.
Proof. intros H. unfold JS.toUint32. apply Z.mod_small. exact H. Qed.

Lemma toInt32_small x : - 2 ^ 31 ≤ x < 2 ^ 31 → JS.toInt32 x = x.
Proof.
  intros H. unfold JS.toInt32, JS.toUint32.
  destruct (Z.ltb_spec (x mod 2 ^ 32) (2 ^ 31)) as [Hlt | Hge];
    Z.div_mod_to_equations; lia.
Qed.

Lemma testbit_toInt32 x i : 0 ≤ i < 32 → Z.testbit (JS.toInt32 x) i = Z.testbit x i.
Proof.
  intros Hi.
  rewrite <- (Z.mod_pow2_bits_low (JS.toInt32 x) 32 i) by lia.
  rewrite <- (Z.mod_pow2_bits_low x 32 i) by lia.
  f_equal. unfold JS.toInt32, JS.toUint32.
  destruct (Z.ltb_spec (x mod 2 ^ 32) (2 ^ 31)).
  - apply Z.mod_mod. lia.
  - rewrite <- (Z.mod_add _ 1) by lia.
    replace (x mod 2 ^ 32 - 2 ^ 32 + 1 * 2 ^ 32) with (x mod 2 ^ 32) by lia.
    apply Z.mod_mod. lia.
Qed.

Lemma land_pow2 a i : 0 ≤ i → Z.land a (2 ^ i) = if Z.testbit a i then 2 ^ i else 0.
Proof.
  intros Hi. apply Z.bits_inj'. intros n Hn.
  rewrite Z.land_spec, Z.pow2_bits_eqb by lia.
  destruct (Z.eqb_spec i n) as [-> | Hne].
  - rewrite andb_true_r. destruct (Z.testbit a n) eqn:E.
    + rewrite Z.pow2_bits_true; auto.
    + now rewrite Z.bits_0.
  - rewrite andb_false_r. destruct (Z.testbit a i).
    + rewrite Z.pow2_bits_false; auto.
    + now rewrite Z.bits_0.
Qed.

(** The bit test of [sendDatagram]. *)
Lemma bit_test datagram i :
  0 ≤ i < 31 →
  (datagram .& (1 .<< i) =? 0) = negb (Z.testbit datagram i).
Proof.
  intros Hi.
  assert (Hp : 0 < 2 ^ i < 2 ^ 31).
  { split; [apply Z.pow_pos_nonneg; lia | apply Z.pow_lt_mono_r; lia]. }
  assert (Hshl : 1 .<< i = 2 ^ i).
  { unfold JS.shl. rewrite (toInt32_small 1) by lia.
    rewrite toUint32_small by lia. rewrite Z.mod_small by lia.
    rewrite Z.shiftl_1_l. apply toInt32_small. lia. }
  rewrite Hshl. unfold JS.and.
  rewrite (toInt32_small (2 ^ i)) by lia.
  rewrite land_pow2 by lia. rewrite testbit_toInt32 by lia.
  destruct (Z.testbit datagram i); simpl.
  - rewrite toInt32_small by lia. apply Z.eqb_neq. lia.
  - reflexivity.
Qed.


(** ** The pulses of a frame *)

Section Emitter.

Variable led : InfraredLed.

Lemma pulsesOf_transmitBit p h l rest :
  pulsesOf (transmitBit p h l ++ rest) = (h, l) :: pulsesOf rest.
Proof. reflexivity. Qed.

Lemma pulsesOf_transmitAll p pulses rest :
  pulsesOf (transmitAll p pulses ++ rest) = pulses ++ pulsesOf rest.
Proof.
  unfold transmitAll. induction pulses as [| [h l] pulses IH]; [reflexivity |].
  rewrite bind_cons, <- app_assoc, pulsesOf_transmitBit, IH. reflexivity.
Qed.

Lemma sendDatagram_loop_pulses datagram n bits :
  (n ≤ 31)%nat →
  (sendDatagram_loop led datagram n bits).1 =
    transmitAll (pin led)
      (bitPulse led <$> ((λ i, Z.testbit datagram (Z.of_nat i)) <$> rev (seq 0 n))).
Proof.
  revert bits. induction n as [| n IH]; intros bits Hn; [reflexivity |].
  rewrite seq_S, rev_unit. cbn [sendDatagram_loop].
  rewrite bit_test by lia.
  destruct (sendDatagram_loop led datagram n _) as [rest bits'] eqn:E.
  match type of E with sendDatagram_loop _ _ _ ?b = _ =>
    specialize (IH b ltac:(lia)) end.
  rewrite E in IH. cbn [fst] in IH |- *.
  rewrite IH. rewrite !fmap_cons. unfold transmitAll at 2. rewrite bind_cons.
  f_equal. unfold bitPulse. cbn [Nat.add fst snd].
  destruct (Z.testbit datagram (Z.of_nat n)); reflexivity.
Qed.

(** The events of [sendDatagram]: the 18 pulses of the frame, then the
    trace line when [debug] is set. *)
Lemma sendDatagram_frame datagram :
  ∃ line,
    sendDatagram led datagram =
      transmitAll (pin led)
        (frame PF_MARK_BIT (PF_START_BIT led) (PF_LOW_BIT led) (PF_HIGH_BIT led) datagram)
      ++ (if debug led then [SerialWriteString line] else []).
Proof.
  unfold sendDatagram.
  pose proof (sendDatagram_loop_pulses datagram 16 EmptyString ltac:(lia)) as H.
  destruct (sendDatagram_loop led datagram 16 EmptyString) as [data bits].
  cbn [fst] in H. subst data. exists (bits ++ newline)%string.
  unfold frame, transmitAll. rewrite !bind_app, !bind_singleton.
  rewrite <- !app_assoc. reflexivity.
Qed.

Lemma sendDatagram_pulses datagram :
  pulsesOf (sendDatagram led datagram) =
    frame PF_MARK_BIT (PF_START_BIT led) (PF_LOW_BIT led) (PF_HIGH_BIT led) datagram.
Proof.
  destruct (sendDatagram_frame datagram) as [line ->].
  rewrite pulsesOf_transmitAll.
  destruct (debug led); cbn [pulsesOf]; apply app_nil_r.
Qed.

End Emitter.

(** ** The datagram encoder *)

Lemma forallb_below (P : Z → bool) (n : nat) :
  forallb P (Z.of_nat <$> seq 0 n) = true →
  ∀ v, 0 ≤ v < Z.of_nat n → P v = true.
Proof.
  intros H v Hv. rewrite forallb_forall in H. apply H.
  replace v with (Z.of_nat (Z.to_nat v)) by lia.
  apply in_map, in_seq. lia.
Qed.

(** The value [sendCommand] hands to [sendDatagram] is the protocol's
    datagram, a 16-bit number whose upper 12 bits are the command and
    whose low 4 bits are the checksum. *)
Lemma sendCommand_encodes v :
  0 ≤ v < 4096 →
  (v .<< 4) .| (((15 .^ (v .>>> 8)) .^ ((v .& bin "000011110000") .>>> 4))
                  .^ (v .& bin "000000001111")) = datagramOf v
  ∧ 0 ≤ datagramOf v < 2 ^ 16
  ∧ datagramOf v mod 16 = lrcOf v
  ∧ Z.shiftr (datagramOf v) 4 = v.
Proof.
  intros Hv.
  pose (chk := λ v,
    ((v .<< 4) .| (((15 .^ (v .>>> 8)) .^ ((v .& bin "000011110000") .>>> 4))
                     .^ (v .& bin "000000001111")) =? datagramOf v)
    && (0 <=? datagramOf v) && (datagramOf v <? 2 ^ 16)
    && (datagramOf v mod 16 =? lrcOf v)
    && (Z.shiftr (datagramOf v) 4 =? v)).
  assert (H : chk v = true).
  { apply (forallb_below chk 4096); [vm_compute; reflexivity | lia]. }
  unfold chk in H. rewrite !andb_true_iff in H.
  destruct H as [[[[H1 H2] H3] H4] H5].
  repeat split; try apply Z.eqb_eq; try apply Z.leb_le; try apply Z.ltb_lt; assumption.
Qed.

(** C1.  For every 12-bit command value [v], [sendCommand] transmits the
    datagram [(v << 4) | lrc] with [lrc = 15 xor n1 xor n2 xor n3], the
    three nibbles of [v]: it performs exactly the events of
    [sendDatagram] on that value, whose pulses are the frame of that
    value; the datagram has 16 bits, its upper 12 bits are [v] and its
    low 4 bits are [lrc]. *)
Theorem sendCommand_transmits_datagram (led : InfraredLed) (v : Z) :
  0 ≤ v < 4096 →
  let n1 := Z.shiftr v 8 mod 16 in
  let n2 := Z.shiftr v 4 mod 16 in
  let n3 := v mod 16 in
  let lrc := Z.lxor (Z.lxor (Z.lxor 15 n1) n2) n3 in
  let datagram := Z.lor (Z.shiftl v 4) lrc in
  sendCommand led v = sendDatagram led datagram
  ∧ pulsesOf (sendCommand led v) =
      frame PF_MARK_BIT (PF_START_BIT led) (PF_LOW_BIT led) (PF_HIGH_BIT led) datagram
  ∧ 0 ≤ datagram < 2 ^ 16
  ∧ Z.shiftr datagram 4 = v
  ∧ datagram mod 16 = lrc.
Proof.
  intros Hv n1 n2 n3 lrc datagram.
  assert (Hd : datagram = datagramOf v) by reflexivity.
  assert (Hl : lrc = lrcOf v) by reflexivity.
  destruct (sendCommand_encodes v Hv) as (Henc & Hrange & Hlow & Hhigh).
  assert (Hsend : sendCommand led v = sendDatagram led datagram).
  { unfold sendCommand. cbv zeta. rewrite Henc, Hd. reflexivity. }
  split; [exact Hsend |]. split.
  - rewrite Hsend. apply sendDatagram_pulses.
  - rewrite Hd, Hl. auto.
Qed.

Lemma sendCommand_transmits_datagram_witness :
  sendCommand (mkInfraredLed 0 75 false) (bin "100001000111") =
    sendDatagram (mkInfraredLed 0 75 false) (bin "1000010001110100").
Proof.
  assert (H : 0 ≤ bin "100001000111" < 4096) by (change (0 ≤ 2119 < 4096); lia).
  exact (proj1 (sendCommand_transmits_datagram
                  (mkInfraredLed 0 75 false) (bin "100001000111") H)).
Defined.

(** C2.  [sendDatagram] emits exactly 18 pulses: a start pulse (mark and
    start space), the 16 data bits most significant first, a 0 as mark
    and low space and a 1 as mark and high space, and a stop pulse equal
    to the start pulse.  Besides these pulses it performs nothing but
    the trace line written when [debug] is set. *)
Theorem sendDatagram_emits_frame (led : InfraredLed) (datagram : Z) :
  let start := (PF_MARK_BIT, PF_START_BIT led) in
  let data := (λ b : bool, (PF_MARK_BIT, if b then PF_HIGH_BIT led else PF_LOW_BIT led))
                <$> dataBits datagram in
  pulsesOf (sendDatagram led datagram) = [start] ++ data ++ [start]
  ∧ length (pulsesOf (sendDatagram led datagram)) = 18%nat
  ∧ length data = 16%nat
  ∧ ∃ line,
      sendDatagram led datagram =
        transmitAll (pin led) ([start] ++ data ++ [start])
        ++ (if debug led then [SerialWriteString line] else []).
Proof.
  intros start data.
  destruct (sendDatagram_frame led datagram) as [line Hline].
  assert (Hp : pulsesOf (sendDatagram led datagram) = [start] ++ data ++ [start]).
  { apply sendDatagram_pulses. }
  split; [exact Hp |]. split; [rewrite Hp; reflexivity |].
  split; [reflexivity |]. exists line. exact Hline.
Qed.

(** C8.  The constructor runs 32 warm-up calls [transmitBit(1, 1)] and
    sets [waitCorrection] to [(elapsed - 32*2*1) / (32*2)] rounded toward
    zero, [elapsed] being the difference of the two clock readings;
    afterwards every pulse of [sendDatagram] has a mark of 158 and a
    space of [T - 158 - waitCorrection], with [T] = 1184 for the start
    and stop pulses, 421 for a 0 bit and 711 for a 1 bit. *)
Theorem calibration_and_timings (p : Z) (dbg : bool) (start end_ : Z) (st : State)
    (datagram : Z) :
  let elapsed := end_ - start in
  - 2 ^ 31 ≤ elapsed - 32 * 2 * 1 < 2 ^ 31 →
  let correction := (elapsed - 32 * 2 * 1) ÷ (32 * 2) in
  let st' := connectIrSenderLed p dbg start end_ st in
  ∃ led evs,
    irLed st' = Some led
    ∧ emitted st' = emitted st ++ evs
    ∧ pulsesOf evs = replicate 32 (1, 1)
    ∧ waitCorrection led = correction
    ∧ pulsesOf (sendDatagram led datagram) =
        frame 158 (1184 - 158 - correction) (421 - 158 - correction)
          (711 - 158 - correction) datagram.
Proof.
  intros elapsed Hrange correction st'.
  assert (Hwc : JS.idiv (end_ - start - 32 * 2) (32 * 2) = correction).
  { unfold elapsed in Hrange. unfold JS.idiv.
    rewrite (toInt32_small (32 * 2)) by lia.
    rewrite (toInt32_small (end_ - start - 32 * 2)) by lia.
    unfold correction, elapsed.
    replace (end_ - start - 32 * 2 * 1) with (end_ - start - 32 * 2) by lia.
    apply toInt32_small.
    Z.to_euclidean_division_equations. lia. }
  exists (mkInfraredLed p correction dbg), (snd (InfraredLed_new p start end_)).
  unfold st', connectIrSenderLed, InfraredLed_new. cbv zeta. rewrite Hwc.
  split; [reflexivity |]. split; [reflexivity |]. split; [reflexivity |].
  split; [reflexivity |].
  apply (sendDatagram_pulses (mkInfraredLed p correction dbg)).
Qed.

Lemma calibration_and_timings_witness :
  ∃ led evs,
    irLed (connectIrSenderLed 0 false 100 5000 initialState) = Some led
    ∧ emitted (connectIrSenderLed 0 false 100 5000 initialState) = emitted initialState ++ evs
    ∧ pulsesOf evs = replicate 32 (1, 1)
    ∧ waitCorrection led = 75
    ∧ pulsesOf (sendDatagram led (bin "1000010001110100")) =
        frame 158 (1184 - 158 - 75) (421 - 158 - 75) (711 - 158 - 75)
          (bin "1000010001110100").
Proof.
  apply (calibration_and_timings 0 false 100 5000 initialState (bin "1000010001110100")).
  lia.
Defined.

(** ** Toggle state *)

(** Bit-level facts about [addToggle] on an 11-bit command (bit 11
    clear, as the three command builders produce it) and a toggle [t]. *)
Lemma toggle_bits c :
  0 ≤ c < 2048 →
  (bin "001100000000" .& c) .>>> 8 = channelOf c
  ∧ 0 ≤ channelOf c < 4
  ∧ ∀ t, t = 0 ∨ t = 1 →
      (t .<< 11) .| c = t * 2048 + c
      ∧ toggleOf (t * 2048 + c) = t
      ∧ channelOf (t * 2048 + c) = channelOf c
      ∧ (t * 2048 + c) mod 2048 = c
      ∧ Z.testbit (t * 2048 + c) 11 = (t =? 1).
Proof.
  intros Hc.
  pose (chk := λ c,
    ((bin "001100000000" .& c) .>>> 8 =? channelOf c)
    && (0 <=? channelOf c) && (channelOf c <? 4)
    && forallb (λ t,
         ((t .<< 11) .| c =? t * 2048 + c)
         && (toggleOf (t * 2048 + c) =? t)
         && (channelOf (t * 2048 + c) =? channelOf c)
         && ((t * 2048 + c) mod 2048 =? c)
         && Bool.eqb (Z.testbit (t * 2048 + c) 11) (t =? 1)) [0; 1]).
  assert (H : chk c = true).
  { apply (forallb_below chk 2048); [vm_compute; reflexivity | lia]. }
  unfold chk in H. cbn [forallb] in H. rewrite !andb_true_iff in H.
  destruct H as [[[H1 H2] H3] [[[[[A1 A2] A3] A4] A5] [[[[[B1 B2] B3] B4] B5] _]]].
  split; [apply Z.eqb_eq; exact H1 |].
  split; [split; [apply Z.leb_le | apply Z.ltb_lt]; assumption |].
  intros t [-> | ->]; repeat split;
    solve [apply Z.eqb_eq; assumption | apply eqb_prop; assumption].
Qed.

Lemma readToggle_bit l ch :
  Forall (λ b, b = 0 ∨ b = 1) l → (ch < length l)%nat →
  readToggle l ch = 0 ∨ readToggle l ch = 1.
Proof.
  intros Hall Hlt. unfold readToggle.
  destruct (lookup_lt_is_Some_2 l ch Hlt) as [b Hb]. rewrite Hb. simpl.
  rewrite Forall_forall in Hall. apply Hall.
  eapply list_elem_of_lookup_2; eassumption.
Qed.

(** What [addToggle] computes: the toggle of the command's channel is
    flipped and the flipped value becomes bit 11 of the command. *)
Lemma addToggle_spec c st :
  0 ≤ c < 2048 →
  length (toggleByChannel st) = 4%nat →
  Forall (λ b, b = 0 ∨ b = 1) (toggleByChannel st) →
  let ch := Z.to_nat (channelOf c) in
  let t := readToggle (toggleByChannel st) ch in
  addToggle c st =
    ((1 - t) * 2048 + c,
     set_toggleByChannel (<[ch := 1 - t]> (toggleByChannel st)) st).
Proof.
  intros Hc Hlen Hall ch t.
  destruct (toggle_bits c Hc) as (Hch & Hrange & Hbits).
  unfold addToggle. rewrite Hch. fold ch. fold t. cbn [toggleByChannel set_toggleByChannel].
  assert (Hlt : (ch < length (toggleByChannel st))%nat) by (unfold ch; lia).
  assert (Hread : readToggle (<[ch := 1 - t]> (toggleByChannel st)) ch = 1 - t).
  { unfold readToggle. rewrite list_lookup_insert_eq by exact Hlt. reflexivity. }
  rewrite Hread.
  assert (Ht : 1 - t = 0 ∨ 1 - t = 1).
  { destruct (readToggle_bit _ ch Hall Hlt) as [E | E]; fold t in E; lia. }
  destruct (Hbits (1 - t) Ht) as (-> & _). reflexivity.
Qed.

Lemma addToggle_wellFormed c st :
  0 ≤ c < 2048 → wellFormed st → wellFormed (addToggle c st).2.
Proof.
  intros Hc (Hlen & Hids & Hall).
  rewrite (addToggle_spec c st Hc Hlen Hall). cbn [snd].
  unfold wellFormed. cbn [toggleByChannel intervalId set_toggleByChannel].
  rewrite length_insert. repeat split; try assumption.
  assert (Hlt : (Z.to_nat (channelOf c) < length (toggleByChannel st))%nat).
  { destruct (toggle_bits c Hc) as (_ & Hr & _). lia. }
  apply Forall_insert; [exact Hall |].
  destruct (readToggle_bit _ _ Hall Hlt) as [E | E]; rewrite E; lia.
Qed.

Lemma PfChannel_val_range channel : 0 ≤ PfChannel_val channel < 4.
Proof. destruct channel; simpl; lia. Qed.

(** The toggles a sequence of commands receives, seen from one channel:
    they alternate, beginning with the opposite of the stored bit. *)
Lemma addToggles_alternate (channel : PfChannel) commands : ∀ st,
  Forall (λ c, 0 ≤ c < 2048) commands →
  wellFormed st →
  toggleOf <$> filter (λ c, channelOf c = PfChannel_val channel)
                 (addToggles commands st)
  = alternating
      (1 - readToggle (toggleByChannel st) (Z.to_nat (PfChannel_val channel)))
      (length (filter (λ c, channelOf c = PfChannel_val channel) commands)).
Proof.
  induction commands as [| c cs IH]; intros st Hcs Hwf; [reflexivity |].
  inversion Hcs as [| ? ? Hc Hcs']; subst.
  pose proof (addToggle_wellFormed c st Hc Hwf) as Hwf'.
  destruct Hwf as (Hlen & Hids & Hall).
  cbn [addToggles]. rewrite (addToggle_spec c st Hc Hlen Hall) in *.
  cbn [snd] in Hwf'.
  destruct (toggle_bits c Hc) as (_ & Hr & Hbits).
  set (t := readToggle (toggleByChannel st) (Z.to_nat (channelOf c))) in *.
  assert (Ht : 1 - t = 0 ∨ 1 - t = 1).
  { assert (Hlt : (Z.to_nat (channelOf c) < length (toggleByChannel st))%nat) by lia.
    destruct (readToggle_bit _ _ Hall Hlt) as [E | E]; fold t in E; lia. }
  destruct (Hbits (1 - t) Ht) as (_ & Htog & Hchan & _ & _).
  rewrite !filter_cons. rewrite Hchan.
  specialize (IH _ Hcs' Hwf'). cbn [toggleByChannel set_toggleByChannel] in IH.
  destruct (decide (channelOf c = PfChannel_val channel)) as [Heq | Hne].
  - rewrite fmap_cons, Htog. cbn [length alternating].
    rewrite IH. unfold readToggle at 1.
    rewrite <- Heq, list_lookup_insert_eq by lia.
    cbn [default]. unfold t. rewrite Heq. reflexivity.
  - rewrite IH. unfold readToggle at 1.
    rewrite list_lookup_insert_ne; [reflexivity |].
    pose proof (PfChannel_val_range channel). lia.
Qed.

Lemma initialState_wellFormed : wellFormed initialState.
Proof.
  unfold wellFormed. cbn [initialState toggleByChannel intervalId].
  split; [reflexivity |]. split; [reflexivity |].
  repeat (apply Forall_cons; split; [right; reflexivity |]). apply Forall_nil. exact I.
Qed.

(** C3, as the code has it.  For every channel, the toggle bits that
    [addToggle] places into bit 11 of the successive commands of that
    channel, whatever commands of other channels come in between,
    alternate strictly between 0 and 1 and start from 0: the stored bit
    starts at 1 and is flipped before it is used, so the first command
    of a channel after power-on carries toggle 0. *)
Theorem toggle_alternates_from_zero (channel : PfChannel) (commands : list Z) :
  Forall (λ c, 0 ≤ c < 2048) commands →
  toggleOf <$> filter (λ c, channelOf c = PfChannel_val channel)
                 (addToggles commands initialState)
  = alternating 0
      (length (filter (λ c, channelOf c = PfChannel_val channel) commands)).
Proof.
  intros Hcs.
  rewrite (addToggles_alternate channel commands initialState Hcs initialState_wellFormed).
  destruct channel; reflexivity.
Qed.

Lemma toggle_alternates_from_zero_witness :
  toggleOf <$> filter (λ c, channelOf c = PfChannel_val Channel2)
                 (addToggles [bin "100010001"; bin "1000111"; bin "100010000"; bin "100011111"]
                    initialState)
  = [0; 1; 0].
Proof.
  apply (toggle_alternates_from_zero Channel2
           [bin "100010001"; bin "1000111"; bin "100010000"; bin "100011111"]).
  repeat constructor; vm_compute; discriminate.
Defined.

(** The claim as written fails: the first command of a channel carries
    toggle 0 and the second 1, not 1 and then 0. *)
Lemma first_toggle_is_zero :
  toggleOf <$> addToggles [bin "1000111"; bin "1000111"] initialState = [0; 1]
  ∧ toggleOf <$> addToggles [bin "1000111"; bin "1000111"] initialState
      ≠ alternating 1 2.
Proof. split; [reflexivity | discriminate]. Qed.

(** ** Single output mode *)

Lemma singleOutputMode_as_sendPacket channel output command st :
  singleOutputMode channel output command st =
    sendPacket
      (PfChannel_val channel * 256 + PfSingleOutput.val command
       + PfOutput_val output * 16)
      (singleOutputMode_mixDatagrams (PfSingleOutput.val command)) st.
Proof. unfold singleOutputMode. destruct channel, output, command; reflexivity. Qed.

(** C4, as the code has it.  [singleOutputMode] submits the packet
    [(channel << 8) | command | (output << 4)] without mixing exactly for
    the two opcodes [IncrementPWM = 0b1100100] and
    [DecrementPWM = 0b1100101], and with mixing for every other opcode,
    the two numerical ones included. *)
Theorem singleOutputMode_mixing (channel : PfChannel) (output : PfOutput)
    (command : PfSingleOutput.t) (st : State) :
  let fifo :=
    match command with
    | PfSingleOutput.IncrementPWM | PfSingleOutput.DecrementPWM => true
    | _ => false
    end in
  let raw :=
    PfChannel_val channel * 256 + PfSingleOutput.val command
      + PfOutput_val output * 16 in
  singleOutputMode channel output command st = sendPacket raw (negb fifo) st
  ∧ (fifo = true ↔
       PfSingleOutput.val command = bin "1100100"
       ∨ PfSingleOutput.val command = bin "1100101")
  ∧ ∀ c : Z,
      singleOutputMode_mixDatagrams c = false ↔ c = bin "1100100" ∨ c = bin "1100101".
Proof.
  intros fifo raw. split; [| split].
  - rewrite singleOutputMode_as_sendPacket. unfold raw, fifo.
    destruct command; reflexivity.
  - unfold fifo. destruct command; vm_compute; split;
      solve [ intros; discriminate | intros [H | H]; discriminate
            | intros _; left; reflexivity | intros _; right; reflexivity
            | reflexivity ].
  - intros c. unfold singleOutputMode_mixDatagrams. cbn [existsb].
    change (bin "1100100") with 100. change (bin "1100101") with 101.
    destruct (Z.eqb_spec 100 c), (Z.eqb_spec 101 c); simpl; split; intros H;
      try discriminate; try reflexivity; try lia.
Qed.

(** The claim as written fails: [IncrementNumericalPWM] is submitted
    with mixing (the worker it starts has captured [true]) and
    [IncrementPWM] without. *)
Lemma numerical_increment_is_mixed :
  singleOutputMode Channel1 Red PfSingleOutput.IncrementNumericalPWM initialState
    = sendPacket (bin "1100010") true initialState
  ∧ singleOutputMode Channel1 Red PfSingleOutput.IncrementNumericalPWM initialState
    ≠ sendPacket (bin "1100010") false initialState
  ∧ background
      (stateOf (singleOutputMode Channel1 Red PfSingleOutput.IncrementNumericalPWM
                  initialState)) = [true]
  ∧ singleOutputMode Channel1 Red PfSingleOutput.IncrementPWM initialState
    = sendPacket (bin "1100100") false initialState
  ∧ background
      (stateOf (singleOutputMode Channel1 Red PfSingleOutput.IncrementPWM
                  initialState)) = [false].
Proof.
  repeat split; try reflexivity.
  vm_compute. intros H. discriminate H.
Qed.

(** ** Submitting a packet *)

Lemma pushTasks_replicate n t : ∀ queue, pushTasks n t queue = queue ++ replicate n t.
Proof.
  induction n as [| n IH]; intros queue; cbn [pushTasks replicate].
  - symmetry. apply app_nil_r.
  - rewrite IH, <- app_assoc. reflexivity.
Qed.

Lemma sendPacket_enqueue_tasks p st :
  tasks (sendPacket_enqueue p st) =
    tasks st ++ replicate (Z.to_nat (signalRepeatNumber (settings st)))
                  (mkTask (p_command p) (p_taskType p)).
Proof.
  unfold sendPacket_enqueue. cbn [schedulerIsWorking set_tasks settings tasks].
  destruct (schedulerIsWorking st); cbn; apply pushTasks_replicate.
Qed.

(** Apart from the queue, [sendPacket_enqueue] touches only the worker:
    it starts one, with the [mixDatagrams] of this call, when none is
    marked as working, and none otherwise. *)
Lemma sendPacket_enqueue_worker p st :
  schedulerIsWorking (sendPacket_enqueue p st) = true
  ∧ background (sendPacket_enqueue p st) =
      (if schedulerIsWorking st then background st
       else background st ++ [p_mixDatagrams p]).
Proof. unfold sendPacket_enqueue. destruct st as [? ? [] ? ? ? ? ? ?]; split; reflexivity. Qed.

Lemma sendPacket_enqueue_frame p st :
  irLed (sendPacket_enqueue p st) = irLed st
  ∧ toggleByChannel (sendPacket_enqueue p st) = toggleByChannel st
  ∧ intervalId (sendPacket_enqueue p st) = intervalId st
  ∧ settings (sendPacket_enqueue p st) = settings st
  ∧ intervals (sendPacket_enqueue p st) = intervals st
  ∧ nextInterval (sendPacket_enqueue p st) = nextInterval st
  ∧ emitted (sendPacket_enqueue p st) = emitted st.
Proof. unfold sendPacket_enqueue. destruct st as [? ? [] ? ? ? ? ? ?]; repeat split. Qed.

Lemma sendPacket_begin_pending command mixDatagrams st :
  (sendPacket_begin command mixDatagrams st).1 =
    mkPending mixDatagrams (bin "001100110000" .& command) (addToggle command st).1.
Proof. reflexivity. Qed.

(** Without mixing [sendPacket] has no loop to wait in. *)
Lemma sendPacket_fifo command st :
  sendPacket command false st =
    Returned (sendPacket_enqueue (sendPacket_begin command false st).1
                (sendPacket_begin command false st).2).
Proof. reflexivity. Qed.

Lemma sendPacket_wait_cases p st :
  (p_mixDatagrams p = true ∧ sameTypeQueued (p_taskType p) st = true
   ∧ sendPacket_wait p st = Paused 20 p st)
  ∨ ((p_mixDatagrams p = false ∨ sameTypeQueued (p_taskType p) st = false)
     ∧ sendPacket_wait p st = Returned (sendPacket_enqueue p st)).
Proof.
  unfold sendPacket_wait.
  destruct (p_mixDatagrams p), (sameTypeQueued (p_taskType p) st); cbn; auto.
Qed.

Lemma sameTypeQueued_false taskType st :
  sameTypeQueued taskType st = false ↔
  ∀ t, t ∈ tasks st → type t ≠ taskType.
Proof.
  unfold sameTypeQueued. rewrite Z.ltb_ge. split.
  - intros Hlen t Ht Heq.
    assert (Hin : t ∈ filter (λ x, type x = taskType) (tasks st)).
    { apply list_elem_of_filter. auto. }
    destruct (filter (λ x, type x = taskType) (tasks st)); [inversion Hin | cbn in Hlen; lia].
  - intros Hnone.
    destruct (filter (λ x, type x = taskType) (tasks st)) as [| t l] eqn:E; [cbn; lia |].
    exfalso. assert (Hin : t ∈ filter (λ x, type x = taskType) (tasks st)).
    { rewrite E. left. }
    apply list_elem_of_filter in Hin as [Ht Hin]. exact (Hnone t Hin Ht).
Qed.

(** ** Auto repeat *)

Lemma truthy_None_insert (ids : list (option Z)) ch :
  truthy (<[ch := None]> ids !! ch) = None.
Proof.
  destruct (decide (ch < length ids)%nat) as [Hlt | Hge].
  - rewrite list_lookup_insert_eq by exact Hlt. reflexivity.
  - rewrite list_insert_ge by lia. rewrite lookup_ge_None_2 by lia. reflexivity.
Qed.

(** [addToggle] reads and writes the toggles only. *)
Lemma addToggle_toggles command st1 st2 :
  toggleByChannel st1 = toggleByChannel st2 →
  (addToggle command st1).1 = (addToggle command st2).1
  ∧ toggleByChannel (addToggle command st1).2 = toggleByChannel (addToggle command st2).2.
Proof.
  intros E. unfold addToggle. cbv zeta.
  cbn [fst snd toggleByChannel set_toggleByChannel]. rewrite E. split; reflexivity.
Qed.

(** What [repeatCommand] does, field by field: it cancels the timer
    held for the channel, submits one packet without mixing and, unless
    [command] is in [excluded], asks for a new timer for [datagram] and
    keeps the handle it is given: that of a new timer when the period
    is positive, 0 without a timer when it is negative. *)
Lemma repeatCommand_fields channel command datagram excluded st :
  let ch := Z.to_nat channel in
  let st' := repeatCommand channel command datagram excluded st in
  let period := repeatCommandAfter (settings st) in
  let next := match last (cancelled ch st) with
              | Some iv => iv_id iv + 1
              | None => 1
              end in
  tasks st' =
    tasks st ++ replicate (Z.to_nat (signalRepeatNumber (settings st)))
                  (mkTask (addToggle datagram st).1 (bin "001100110000" .& datagram))
  ∧ toggleByChannel st' = toggleByChannel (addToggle datagram st).2
  ∧ irLed st' = irLed st
  ∧ settings st' = settings st
  ∧ emitted st' = emitted st
  ∧ schedulerIsWorking st' = true
  ∧ background st' =
      (if schedulerIsWorking st then background st else background st ++ [false])
  ∧ intervals st' =
      (if existsb (λ x, x =? command) excluded then cancelled ch st
       else if period <=? 0 then cancelled ch st
       else cancelled ch st ++ [mkInterval next datagram period])
  ∧ intervalId st' =
      (if existsb (λ x, x =? command) excluded then clearedIds ch st
       else <[ch := Some (if period <? 0 then 0 else next)]> (clearedIds ch st)).
Proof.
  intros ch st' period next. unfold st', repeatCommand. cbv zeta. fold ch.
  set (st0 := match truthy (intervalId st !! ch) with
              | Some id => _ | None => st end).
  assert (H0 : tasks st0 = tasks st ∧ toggleByChannel st0 = toggleByChannel st
               ∧ irLed st0 = irLed st ∧ settings st0 = settings st
               ∧ emitted st0 = emitted st
               ∧ schedulerIsWorking st0 = schedulerIsWorking st
               ∧ background st0 = background st
               ∧ intervals st0 = cancelled ch st
               ∧ intervalId st0 = clearedIds ch st).
  { unfold st0, cancelled, clearedIds.
    destruct (truthy (intervalId st !! ch));
      repeat (split; [reflexivity |]); reflexivity. }
  destruct H0 as (A1 & A2 & A3 & A4 & A5 & A6 & A7 & A8 & A9).
  destruct (addToggle_toggles datagram st0 st A2) as (T1 & T2).
  rewrite sendPacket_fifo. cbn [stateOf].
  set (p := (sendPacket_begin datagram false st0).1).
  set (st1 := (sendPacket_begin datagram false st0).2).
  assert (H1 : tasks st1 = tasks st0 ∧ settings st1 = settings st0
               ∧ irLed st1 = irLed st0 ∧ emitted st1 = emitted st0
               ∧ schedulerIsWorking st1 = schedulerIsWorking st0
               ∧ background st1 = background st0
               ∧ intervals st1 = intervals st0 ∧ intervalId st1 = intervalId st0
               ∧ toggleByChannel st1 = toggleByChannel (addToggle datagram st0).2
               ∧ p_command p = (addToggle datagram st0).1
               ∧ p_taskType p = bin "001100110000" .& datagram
               ∧ p_mixDatagrams p = false).
  { repeat (split; [reflexivity |]). reflexivity. }
  destruct H1 as (B1 & B2 & B3 & B4 & B5 & B6 & B7 & B8 & B9 & B10 & B11 & B12).
  pose proof (sendPacket_enqueue_tasks p st1) as E1.
  destruct (sendPacket_enqueue_frame p st1) as (E2 & E3 & E4 & E5 & E6 & _ & E7).
  destruct (sendPacket_enqueue_worker p st1) as (E8 & E9).
  set (st2 := sendPacket_enqueue p st1) in *.
  assert (H2 : tasks st2 =
                 tasks st ++ replicate (Z.to_nat (signalRepeatNumber (settings st)))
                               (mkTask (addToggle datagram st).1
                                  (bin "001100110000" .& datagram))
               ∧ toggleByChannel st2 = toggleByChannel (addToggle datagram st).2
               ∧ irLed st2 = irLed st ∧ settings st2 = settings st
               ∧ emitted st2 = emitted st ∧ schedulerIsWorking st2 = true
               ∧ background st2 =
                   (if schedulerIsWorking st then background st
                    else background st ++ [false])
               ∧ intervals st2 = cancelled ch st
               ∧ intervalId st2 = clearedIds ch st).
  { rewrite E1, E2, E3, E4, E5, E6, E7, E8, E9.
    rewrite B1, B2, B3, B4, B5, B6, B7, B8, B9, B10, B11, B12.
    rewrite A1, A3, A4, A5, A6, A7, A8, A9, T1, T2.
    repeat (split; [reflexivity |]). reflexivity. }
  clearbody st2. clear - H2.
  destruct H2 as (C1 & C2 & C3 & C4 & C5 & C6 & C7 & C8 & C9).
  destruct (existsb (λ x, x =? command) excluded); cbn [negb].
  - repeat (split; [assumption |]). assumption.
  - unfold setInterval, nextInterval. rewrite C4, C8. fold period. fold next.
    destruct (Z.ltb_spec period 0) as [Hneg | Hnonneg].
    + destruct (Z.leb_spec period 0); [| lia].
      cbn [tasks toggleByChannel irLed settings emitted schedulerIsWorking background
             intervals intervalId set_intervalId].
      rewrite C9. repeat (split; [assumption || reflexivity |]). reflexivity.
    + cbv zeta. destruct (Z.eqb_spec period 0) as [Hzero | Hpos].
      * destruct (Z.leb_spec period 0); [| lia].
        cbn [tasks toggleByChannel irLed settings emitted schedulerIsWorking background
               intervals intervalId set_intervalId].
        rewrite C9. repeat (split; [assumption || reflexivity |]). reflexivity.
      * destruct (Z.leb_spec period 0); [lia |].
        cbn [tasks toggleByChannel irLed settings emitted schedulerIsWorking background
               intervals intervalId set_intervalId set_intervals].
        rewrite C9. repeat (split; [assumption || reflexivity |]). reflexivity.
Qed.

Lemma clearedIds_lookup ch st :
  (ch < length (intervalId st))%nat →
  truthy (clearedIds ch st !! ch) = None
  ∧ length (clearedIds ch st) = length (intervalId st).
Proof.
  intros Hlt. unfold clearedIds.
  destruct (truthy (intervalId st !! ch)) eqn:E.
  - split; [apply truthy_None_insert | apply length_insert].
  - split; [exact E | reflexivity].
Qed.

Lemma repeatCommand_spec channel command datagram excluded st :
  let ch := Z.to_nat channel in
  (ch < length (intervalId st))%nat →
  let st' := repeatCommand channel command datagram excluded st in
  let period := repeatCommandAfter (settings st) in
  tasks st' =
    tasks st ++ replicate (Z.to_nat (signalRepeatNumber (settings st)))
                  (mkTask (addToggle datagram st).1 (bin "001100110000" .& datagram))
  ∧ toggleByChannel st' = toggleByChannel (addToggle datagram st).2
  ∧ if existsb (λ x, x =? command) excluded
    then intervals st' = cancelled ch st ∧ truthy (intervalId st' !! ch) = None
    else (0 < period →
            ∃ id, intervals st' = cancelled ch st ++ [mkInterval id datagram period]
                  ∧ intervalId st' !! ch = Some (Some id))
         ∧ (period < 0 →
            intervals st' = cancelled ch st ∧ intervalId st' !! ch = Some (Some 0)).
Proof.
  intros ch Hlt st' period.
  destruct (repeatCommand_fields channel command datagram excluded st)
    as (Htasks & Htog & _ & _ & _ & _ & _ & Hivs & Hids).
  fold ch st' period in Htasks, Htog, Hivs, Hids.
  destruct (clearedIds_lookup ch st Hlt) as (Hnone & Hlen).
  split; [exact Htasks |]. split; [exact Htog |].
  destruct (existsb (λ x, x =? command) excluded).
  - rewrite Hivs, Hids. auto.
  - split.
    + intros Hpos.
      destruct (Z.leb_spec period 0); [lia |]. destruct (Z.ltb_spec period 0); [lia |].
      eexists. split; [exact Hivs |]. rewrite Hids.
      apply list_lookup_insert_eq. lia.
    + intros Hneg.
      destruct (Z.leb_spec period 0); [| lia]. destruct (Z.ltb_spec period 0); [| lia].
      split; [exact Hivs |]. rewrite Hids. apply list_lookup_insert_eq. lia.
Qed.

Lemma comboDirect_excluded red blue :
  existsb (λ x, x =? (PfComboDirect.val blue .<< 2) .| PfComboDirect.val red) [0; 15]
  = comboDirectNeutral red blue.
Proof. destruct red, blue; reflexivity. Qed.

Lemma comboPWM_excluded red blue :
  existsb (λ x, x =? (PfComboPWM.val blue .<< 4) .| PfComboPWM.val red) [0; 136]
  = comboPWMNeutral red blue.
Proof. destruct red, blue; reflexivity. Qed.

Lemma comboDirect_datagram channel red blue :
  ((PfChannel_val channel .<< 8) .| bin "00010000")
    .| ((PfComboDirect.val blue .<< 2) .| PfComboDirect.val red)
  = PfChannel_val channel * 256 + 16
    + (PfComboDirect.val blue * 4 + PfComboDirect.val red).
Proof. destruct channel, red, blue; reflexivity. Qed.

Lemma comboPWM_datagram channel red blue :
  ((bin "0100" .| PfChannel_val channel) .<< 8)
    .| ((PfComboPWM.val blue .<< 4) .| PfComboPWM.val red)
  = (4 + PfChannel_val channel) * 256
    + (PfComboPWM.val blue * 16 + PfComboPWM.val red).
Proof. destruct channel, red, blue; reflexivity. Qed.

(** C5, as the code has it.  Every call of a combo mode cancels the
    timer held for the channel and submits one packet at once.  It
    starts no recurring timer when both outputs are [Float] or both are
    [BrakeThenFloat] (the excluded values 0 and 15, respectively 0 and
    136).  For every other pair of red and blue it asks the run time
    for one: with a positive [repeatCommandAfter] a timer is started
    that resubmits the same 12-bit value and its handle is kept for the
    channel; with a negative one [control.setInterval] starts none and
    the handle kept is 0. *)
Theorem neutral_combos_start_no_timer (channel : PfChannel) (st : State) :
  length (intervalId st) = 4%nat →
  let ch := Z.to_nat (PfChannel_val channel) in
  let n := Z.to_nat (signalRepeatNumber (settings st)) in
  let period := repeatCommandAfter (settings st) in
  (∀ red blue,
     let st' := comboDirectMode channel red blue st in
     let datagram :=
       PfChannel_val channel * 256 + 16
       + (PfComboDirect.val blue * 4 + PfComboDirect.val red) in
     tasks st' =
       tasks st ++ replicate n (mkTask (addToggle datagram st).1
                                  (bin "001100110000" .& datagram))
     ∧ if comboDirectNeutral red blue
       then intervals st' = cancelled ch st ∧ truthy (intervalId st' !! ch) = None
       else (0 < period →
               ∃ id, intervals st' = cancelled ch st ++ [mkInterval id datagram period]
                     ∧ intervalId st' !! ch = Some (Some id))
            ∧ (period < 0 →
               intervals st' = cancelled ch st
               ∧ intervalId st' !! ch = Some (Some 0)))
  ∧ (∀ red blue,
     let st' := comboPWMMode channel red blue st in
     let datagram :=
       (4 + PfChannel_val channel) * 256
       + (PfComboPWM.val blue * 16 + PfComboPWM.val red) in
     tasks st' =
       tasks st ++ replicate n (mkTask (addToggle datagram st).1
                                  (bin "001100110000" .& datagram))
     ∧ if comboPWMNeutral red blue
       then intervals st' = cancelled ch st ∧ truthy (intervalId st' !! ch) = None
       else (0 < period →
               ∃ id, intervals st' = cancelled ch st ++ [mkInterval id datagram period]
                     ∧ intervalId st' !! ch = Some (Some id))
            ∧ (period < 0 →
               intervals st' = cancelled ch st
               ∧ intervalId st' !! ch = Some (Some 0))).
Proof.
  intros Hlen ch n period.
  assert (Hlt : (ch < length (intervalId st))%nat).
  { unfold ch. pose proof (PfChannel_val_range channel). lia. }
  split; intros red blue st' datagram.
  - pose proof (repeatCommand_spec (PfChannel_val channel)
                  ((PfComboDirect.val blue .<< 2) .| PfComboDirect.val red)
                  datagram [0; 15] st Hlt) as (Htasks & _ & Hivs).
    rewrite comboDirect_excluded in Hivs.
    unfold st', comboDirectMode. cbv zeta. rewrite comboDirect_datagram.
    fold datagram. split; [exact Htasks | exact Hivs].
  - pose proof (repeatCommand_spec (PfChannel_val channel)
                  ((PfComboPWM.val blue .<< 4) .| PfComboPWM.val red)
                  datagram [0; 136] st Hlt) as (Htasks & _ & Hivs).
    rewrite comboPWM_excluded in Hivs.
    unfold st', comboPWMMode. cbv zeta. rewrite comboPWM_datagram.
    fold datagram. split; [exact Htasks | exact Hivs].
Qed.

Lemma neutral_combos_start_no_timer_witness :
  (∃ id, intervals (comboDirectMode Channel2 PfComboDirect.Forward PfComboDirect.Float
                      initialState)
         = [mkInterval id (bin "100010001") 500])
  ∧ intervals (comboPWMMode Channel2 PfComboPWM.Float PfComboPWM.Float
                 (comboDirectMode Channel2 PfComboDirect.Forward PfComboDirect.Float
                    initialState))
    = []
  ∧ intervals (comboDirectMode Channel2 PfComboDirect.Forward PfComboDirect.Float
                 (advancedSettings (-1) 0 5 initialState))
    = [].
Proof.
  split; [| split].
  - destruct (proj1 (proj2 (proj1 (neutral_combos_start_no_timer Channel2 initialState
                                     eq_refl)
                              PfComboDirect.Forward PfComboDirect.Float))
                eq_refl) as (id & Hivs & _).
    exists id. exact Hivs.
  - exact (proj1 (proj2 (proj2 (neutral_combos_start_no_timer Channel2
                                  (comboDirectMode Channel2 PfComboDirect.Forward
                                     PfComboDirect.Float initialState)
                                  eq_refl)
                           PfComboPWM.Float PfComboPWM.Float))).
  - exact (proj1 (proj2 (proj2 (proj1 (neutral_combos_start_no_timer Channel2
                                          (advancedSettings (-1) 0 5 initialState)
                                          eq_refl)
                                   PfComboDirect.Forward PfComboDirect.Float))
                    eq_refl)).
Defined.

(** The claim as written fails: braking on both outputs is not
    [(Float, Float)], yet it starts no timer, in either mode. *)
Lemma brake_brake_starts_no_timer :
  intervals (comboDirectMode Channel1 PfComboDirect.BrakeThenFloat
               PfComboDirect.BrakeThenFloat initialState) = []
  ∧ intervalId (comboDirectMode Channel1 PfComboDirect.BrakeThenFloat
                  PfComboDirect.BrakeThenFloat initialState)
      = [None; None; None; None]
  ∧ intervals (comboPWMMode Channel1 PfComboPWM.BrakeThenFloat
                 PfComboPWM.BrakeThenFloat initialState) = []
  ∧ intervalId (comboPWMMode Channel1 PfComboPWM.BrakeThenFloat
                  PfComboPWM.BrakeThenFloat initialState)
      = [None; None; None; None].
Proof. repeat split. Qed.

(** ** Double-precision arithmetic *)

Lemma Qmake_inject (p : Z) (d : positive) :
  ((p # d) * inject_Z (Z.pos d) == inject_Z p)%Q.
Proof. unfold Qeq, Qmult, inject_Z. cbn [Qnum Qden]. rewrite Pos.mul_1_r. ring. Qed.

Lemma two_pow_pos (z : Z) : (0 < 2 ^ z)%Q.
Proof. apply Qpower_0_lt. reflexivity. Qed.

Lemma two_pow_inject (n : Z) : 0 ≤ n → (inject_Z (2 ^ n) == 2 ^ n)%Q.
Proof. intros Hn. apply (Zpower_Qpower 2 n Hn). Qed.

Lemma two_pow_plus (n m : Z) : (2 ^ (n + m) == 2 ^ n * 2 ^ m)%Q.
Proof. apply Qpower_plus. discriminate. Qed.

(** [log2Q x] is the exponent of the binade of [x]. *)
Lemma log2Q_spec (x : Q) :
  (0 < x)%Q → (2 ^ log2Q x <= x)%Q ∧ (x < 2 ^ (log2Q x + 1))%Q.
Proof.
  destruct x as [p d]. intros Hx.
  assert (Hp : 0 < p) by (revert Hx; unfold Qlt; cbn; lia).
  unfold log2Q. cbn [Qnum Qden].
  set (k := Z.log2 (Z.pos d) + 1).
  set (y := p * 2 ^ k / Z.pos d).
  assert (Hk : 0 ≤ k) by (unfold k; pose proof (Z.log2_nonneg (Z.pos d)); lia).
  assert (Hd : Z.pos d < 2 ^ k).
  { unfold k. apply Z.log2_spec. lia. }
  assert (Hy : y * Z.pos d ≤ p * 2 ^ k < (y + 1) * Z.pos d).
  { unfold y. pose proof (Z.mul_div_le (p * 2 ^ k) (Z.pos d) ltac:(lia)).
    pose proof (Z.mul_succ_div_gt (p * 2 ^ k) (Z.pos d) ltac:(lia)). lia. }
  assert (Hy1 : 0 < y).
  { assert (Z.pos d ≤ p * 2 ^ k) by nia.
    unfold y. apply Z.div_str_pos. lia. }
  destruct (Z.log2_spec y Hy1) as [Hlo Hhi].
  set (l := Z.log2 y) in *.
  assert (Hl : 0 ≤ l) by apply Z.log2_nonneg.
  assert (E1 : (2 ^ (l - k) * inject_Z (2 ^ k) == inject_Z (2 ^ l))%Q).
  { rewrite !two_pow_inject by lia. rewrite <- two_pow_plus.
    replace (l - k + k) with l by lia. reflexivity. }
  assert (E2 : (2 ^ (l - k + 1) * inject_Z (2 ^ k) == inject_Z (2 ^ Z.succ l))%Q).
  { rewrite !two_pow_inject by lia. rewrite <- two_pow_plus.
    replace (l - k + 1 + k) with (Z.succ l) by lia. reflexivity. }
  pose proof (Qmake_inject p d) as Ex.
  assert (HK : (0 < inject_Z (2 ^ k))%Q).
  { change (inject_Z 0 < inject_Z (2 ^ k))%Q. rewrite <- Zlt_Qlt. lia. }
  assert (HD : (0 < inject_Z (Z.pos d))%Q) by reflexivity.
  assert (H1 : (inject_Z (2 ^ l) * inject_Z (Z.pos d) <= inject_Z p * inject_Z (2 ^ k))%Q).
  { rewrite <- !inject_Z_mult, <- Zle_Qle. nia. }
  assert (H2 : (inject_Z p * inject_Z (2 ^ k) < inject_Z (2 ^ Z.succ l) * inject_Z (Z.pos d))%Q).
  { rewrite <- !inject_Z_mult, <- Zlt_Qlt. nia. }
  rewrite <- E1, <- Ex in H1. rewrite <- E2, <- Ex in H2.
  set (a := (2 ^ (l - k))%Q) in *. set (b := (2 ^ (l - k + 1))%Q) in *.
  set (K := inject_Z (2 ^ k)) in *. set (D := inject_Z (Z.pos d)) in *.
  set (x := p # d) in *.
  split.
  - apply Qnot_lt_le. intros Hlt.
    assert ((x * D * K < a * K * D)%Q); [| lra].
    assert (E : (a * K * D - x * D * K == (a - x) * (K * D))%Q) by ring.
    assert ((0 < (a - x) * (K * D))%Q); [| lra].
    apply Qmult_lt_0_compat; [lra |]. apply Qmult_lt_0_compat; assumption.
  - apply Qnot_le_lt. intros Hle.
    assert ((b * K * D <= x * D * K)%Q); [| lra].
    assert (E : (x * D * K - b * K * D == (x - b) * (K * D))%Q) by ring.
    assert ((0 <= (x - b) * (K * D))%Q); [| lra].
    apply Qmult_le_0_compat; [lra |]. apply Qlt_le_weak, Qmult_lt_0_compat; assumption.
Qed.

Lemma roundHalfEven_near (s : Q) :
  (s - (1 # 2) <= inject_Z (roundHalfEven s))%Q
  ∧ (inject_Z (roundHalfEven s) <= s + (1 # 2))%Q
  ∧ Qfloor s ≤ roundHalfEven s.
Proof.
  unfold roundHalfEven. cbv zeta.
  pose proof (Qfloor_le s) as Hlo. pose proof (Qlt_floor s) as Hhi.
  rewrite inject_Z_plus in Hhi. change (inject_Z 1) with 1%Q in Hhi.
  set (f := Qfloor s) in *.
  destruct (Qcompare (2 * (s - inject_Z f)) 1) eqn:E.
  - apply Qeq_alt in E.
    destruct (Z.even f); rewrite ?inject_Z_plus; change (inject_Z 1) with 1%Q;
      (split; [lra | split; [lra | lia]]).
  - apply Qlt_alt in E. split; [lra | split; [lra | lia]].
  - apply Qgt_alt in E. rewrite inject_Z_plus. change (inject_Z 1) with 1%Q.
    split; [lra | split; [lra | lia]].
Qed.

Lemma ulp_pos (x : Q) : (0 < ulp x)%Q.
Proof. apply two_pow_pos. Qed.

(** The rounding error is at most half a unit in the last place. *)
Lemma roundDouble_near (x : Q) :
  (0 < x)%Q →
  (x - ulp x * (1 # 2) <= roundDouble x)%Q
  ∧ (roundDouble x <= x + ulp x * (1 # 2))%Q
  ∧ (0 <= roundDouble x)%Q.
Proof.
  intros Hx. unfold roundDouble.
  assert (E : (x ?= 0)%Q = Gt) by (apply Qgt_alt; exact Hx).
  rewrite E. pose proof (ulp_pos x) as Hu.
  set (u := ulp x) in *.
  destruct (roundHalfEven_near (x / u)) as (Hlo & Hhi & Hfl).
  set (r := roundHalfEven (x / u)) in *.
  assert (Es : (x / u * u == x)%Q) by (field; lra).
  assert (H0 : 0 ≤ Qfloor (x / u)).
  { change 0 with (Qfloor 0). apply Qfloor_resp_le.
    apply Qle_shift_div_l; [exact Hu | lra]. }
  assert (Hr : (0 <= inject_Z r)%Q).
  { change (inject_Z 0 <= inject_Z r)%Q. rewrite <- Zle_Qle. lia. }
  split; [| split].
  - assert ((x / u - (1 # 2)) * u <= inject_Z r * u)%Q
      by (apply Qmult_le_compat_r; lra).
    assert (((x / u - (1 # 2)) * u == x / u * u - u * (1 # 2))%Q) by ring.
    lra.
  - assert (inject_Z r * u <= (x / u + (1 # 2)) * u)%Q
      by (apply Qmult_le_compat_r; lra).
    assert (((x / u + (1 # 2)) * u == x / u * u + u * (1 # 2))%Q) by ring.
    lra.
  - apply Qmult_le_0_compat; lra.
Qed.

(** A unit in the last place of a normal number is at most 2^-52 of it;
    below the normal numbers it is 2^-1074. *)
Lemma ulp_bound (x : Q) :
  (0 < x)%Q →
  (ulp x <= x * (1 # 2 ^ 52))%Q
  ∨ ((ulp x == 1 # 2 ^ 1074)%Q ∧ (x < 1 # 2 ^ 1022)%Q).
Proof.
  intros Hx. destruct (log2Q_spec x Hx) as [Hlo Hhi]. unfold ulp.
  set (e := log2Q x) in *.
  destruct (Z.max_spec (e - 52) (-1074)) as [[Hlt ->] | [Hge ->]].
  - right. split; [reflexivity |].
    eapply Qlt_le_trans; [exact Hhi |].
    assert (E : (1 # 2 ^ 1022 == 2 ^ (-1022))%Q) by reflexivity.
    rewrite E. apply Qpower_le_compat_l; [lia | discriminate].
  - left. replace (e - 52) with (e + -52) by lia.
    rewrite two_pow_plus.
    assert (E : (2 ^ (-52) == 1 # 2 ^ 52)%Q) by reflexivity.
    rewrite E. apply Qmult_le_compat_r; [exact Hlo | discriminate].
Qed.

(** The largest double below 1 is 1 - 2^-53. *)
Lemma isRandom_bounds (random : Q) :
  isRandom random = true →
  (0 <= random)%Q ∧ (random <= 1 - (1 # 2 ^ 53))%Q.
Proof.
  unfold isRandom, isDouble. cbv zeta. intros H.
  apply andb_true_iff in H as [H H1]. apply andb_true_iff in H as [Hd H0].
  apply Qle_bool_iff in H0.
  assert (Hlt1 : (random < 1)%Q).
  { apply Qnot_le_lt. intros Hle. apply Qle_bool_iff in Hle.
    rewrite Hle in H1. discriminate. }
  split; [exact H0 |].
  destruct random as [p d]. cbn [Qnum Qden] in Hd.
  assert (Hp : 0 ≤ p) by (revert H0; unfold Qle; cbn; lia).
  assert (Hpd : p < Z.pos d) by (revert Hlt1; unfold Qlt; cbn; lia).
  rewrite Z.abs_eq in Hd by exact Hp.
  apply andb_true_iff in Hd as [Hmod Hsig]. apply Z.eqb_eq in Hmod.
  set (m := p * 2 ^ 1074 / Z.pos d) in *.
  assert (Hm : m * Z.pos d = p * 2 ^ 1074).
  { unfold m. pose proof (Z.div_mod (p * 2 ^ 1074) (Z.pos d) ltac:(lia)). lia. }
  assert (P1074 : 2 ^ 1074 = 2 ^ 1021 * 2 ^ 53) by (rewrite <- Z.pow_add_r by lia; reflexivity).
  assert (P0 : 0 < 2 ^ 1021) by (apply Z.pow_pos_nonneg; lia).
  assert (P53 : 2 ^ 53 = 9007199254740992) by reflexivity.
  assert (Hm0 : 0 ≤ m) by (unfold m; apply Z.div_pos; lia).
  assert (Hm1 : m < 2 ^ 1074) by nia.
  assert (Hmax : m ≤ 2 ^ 1021 * (2 ^ 53 - 1)).
  { apply orb_true_iff in Hsig as [Hsmall | Hbig].
    - apply Z.ltb_lt in Hsmall. nia.
    - apply andb_true_iff in Hbig as [Hdiv _]. apply Z.eqb_eq in Hdiv.
      destruct (Z.lt_ge_cases m (2 ^ 53)) as [Hsmall | Hlarge]; [nia |].
      assert (Hmpos : 0 < m) by lia.
      destruct (Z.log2_spec m Hmpos) as [Hlo Hhi].
      set (e := Z.log2 m) in *.
      assert (He1 : 53 ≤ e).
      { unfold e. apply Z.log2_le_pow2; lia. }
      assert (He2 : e < 1074).
      { unfold e. apply Z.log2_lt_pow2; lia. }
      set (j := e - 52) in *.
      assert (Hj : 0 < 2 ^ j) by (apply Z.pow_pos_nonneg; lia).
      assert (Hq : m = 2 ^ j * (m / 2 ^ j)).
      { pose proof (Z.div_mod m (2 ^ j) ltac:(lia)). lia. }
      assert (He : 2 ^ Z.succ e = 2 ^ j * 2 ^ 53).
      { rewrite <- Z.pow_add_r by lia. f_equal. lia. }
      assert (Hq53 : m / 2 ^ j < 2 ^ 53) by nia.
      assert (Hj2 : 2 ^ j ≤ 2 ^ 1021) by (apply Z.pow_le_mono_r; lia).
      assert (0 ≤ m / 2 ^ j) by (apply Z.div_pos; lia).
      nia. }
  assert (Hfin : p * 2 ^ 53 ≤ (2 ^ 53 - 1) * Z.pos d) by nia.
  unfold Qle. cbn. rewrite P53 in Hfin. lia.
Qed.

Lemma getRandomInt_integers (min max : Z) (random : Q) :
  getRandomInt min max random =
    Qfloor (roundDouble (random * inject_Z (max - min + 1))) + min.
Proof. unfold getRandomInt. cbv zeta. rewrite Qceiling_Z, Qfloor_Z. reflexivity. Qed.

(** The product of a double below 1 and a positive integer rounds to a
    number below that integer. *)
Lemma roundDouble_product (random : Q) (n : Z) :
  isRandom random = true → 0 < n →
  (0 <= roundDouble (random * inject_Z n))%Q
  ∧ (roundDouble (random * inject_Z n) < inject_Z n)%Q.
Proof.
  intros Hr Hn. destruct (isRandom_bounds random Hr) as [H0 H1].
  assert (Hn1 : (1 <= inject_Z n)%Q).
  { change (inject_Z 1 <= inject_Z n)%Q. rewrite <- Zle_Qle. lia. }
  set (x := (random * inject_Z n)%Q).
  assert (Hx0 : (0 <= x)%Q) by (apply Qmult_le_0_compat; lra).
  assert (Hxn : (x <= (1 - (1 # 2 ^ 53)) * inject_Z n)%Q).
  { apply Qmult_le_compat_r; lra. }
  destruct (Qlt_le_dec 0 x) as [Hpos | Hzero].
  - destruct (roundDouble_near x Hpos) as (_ & Hup & Hge).
    split; [exact Hge |].
    destruct (ulp_bound x Hpos) as [Hu | [Hu Hsmall]].
    + change (2 ^ 52)%positive with 4503599627370496%positive in Hu.
      change (2 ^ 53)%positive with 9007199254740992%positive in Hxn.
      lra.
    + rewrite Hu in Hup.
      assert (E1 : ((1 # 2 ^ 1074) * (1 # 2) <= 1 # 2)%Q) by (vm_compute; discriminate).
      assert (E2 : (1 # 2 ^ 1022 <= 1 # 2)%Q) by (vm_compute; discriminate).
      set (a := (1 # 2 ^ 1074)%Q) in *. set (b := (1 # 2 ^ 1022)%Q) in *.
      lra.
  - assert (E : (x ?= 0)%Q = Eq) by (apply Qeq_alt; lra).
    unfold roundDouble. rewrite E. lra.
Qed.


(** ** The background worker *)

(** [getRandomInt(0, n - 1)] is an index of a queue of length [n]: the
    whole part of the rounded product of [Math.random()] and [n], which
    stays below [n]. *)
Lemma getRandomInt_index (n : Z) (random : Q) :
  0 < n → isRandom random = true →
  let i := getRandomInt 0 (n - 1) random in
  0 ≤ i < n
  ∧ (inject_Z i <= roundDouble (random * inject_Z n))%Q
  ∧ (roundDouble (random * inject_Z n) < inject_Z (i + 1))%Q.
Proof.
  intros Hn Hr i. unfold i. rewrite getRandomInt_integers.
  replace (n - 1 - 0 + 1) with n by lia. rewrite Z.add_0_r.
  destruct (roundDouble_product random n Hr Hn) as [H0 H1].
  set (y := roundDouble (random * inject_Z n)) in *.
  split; [split |]; [| | split].
  - change 0 with (Qfloor 0). apply Qfloor_resp_le. exact H0.
  - rewrite Zlt_Qlt. eapply Qle_lt_trans; [apply Qfloor_le | exact H1].
  - apply Qfloor_le.
  - apply Qlt_floor.
Qed.

Lemma worker_index_in_range mixDatagrams random st :
  tasks st ≠ [] → isRandom random = true →
  0 ≤ worker_index mixDatagrams random st < Z.of_nat (length (tasks st)).
Proof.
  intros Hne Hr.
  assert (Hn : 0 < Z.of_nat (length (tasks st))).
  { destruct (tasks st); [congruence | cbn [length]; lia]. }
  unfold worker_index. destruct mixDatagrams; [| lia].
  apply (getRandomInt_index _ random Hn Hr).
Qed.

(** One iteration on a non-empty queue: the task at [worker_index] is
    executed and removed. *)
Lemma worker_iteration_step mixDatagrams random st led :
  tasks st ≠ [] → isRandom random = true → irLed st = Some led →
  let i := Z.to_nat (worker_index mixDatagrams random st) in
  ∃ t, tasks st !! i = Some t
    ∧ worker_iteration mixDatagrams random st =
        Some (WorkerPaused (afterSignalPause (settings st))
                (set_tasks (delete i (tasks st))
                   (set_emitted (emitted st ++ sendCommand led (handler t)) st))).
Proof.
  intros Hne Hr Hled i.
  pose proof (worker_index_in_range mixDatagrams random st Hne Hr) as Hi.
  destruct (lookup_lt_is_Some_2 (tasks st) i ltac:(unfold i; lia)) as [t Ht].
  exists t. split; [exact Ht |].
  unfold worker_iteration, taskAt. fold i.
  destruct (Z.ltb_spec 0 (Z.of_nat (length (tasks st)))); [| lia].
  destruct (Z.ltb_spec (worker_index mixDatagrams random st) 0); [lia |].
  rewrite Ht, Hled. reflexivity.
Qed.

Lemma worker_iteration_empty mixDatagrams random st :
  tasks st = [] →
  worker_iteration mixDatagrams random st =
    Some (WorkerFinished (set_schedulerIsWorking false st)).
Proof. intros E. unfold worker_iteration. rewrite E. reflexivity. Qed.

Lemma worker_iteration_needs_led mixDatagrams random st :
  tasks st ≠ [] → irLed st = None → worker_iteration mixDatagrams random st = None.
Proof.
  intros Hne Hled. unfold worker_iteration.
  destruct (Z.ltb_spec 0 (Z.of_nat (length (tasks st)))) as [_ | Hle].
  - destruct (taskAt _ _); cbn; [rewrite Hled |]; reflexivity.
  - destruct (tasks st); [congruence | cbn [length] in Hle; lia].
Qed.



(** ** Resubmission by the recurring timer *)

(** A packet submitted without mixing: the toggle is flipped and the
    tasks pushed hold the command with the flipped toggle. *)
Lemma submit_fifo d st :
  wellFormed st → 0 ≤ d < 2048 →
  let ch := Z.to_nat (channelOf d) in
  let flipped := 1 - readToggle (toggleByChannel st) ch in
  let st' := stateOf (sendPacket d false st) in
  tasks st' =
    tasks st ++ replicate (Z.to_nat (signalRepeatNumber (settings st)))
                  (mkTask (flipped * 2048 + d) (bin "001100110000" .& d))
  ∧ readToggle (toggleByChannel st') ch = flipped
  ∧ (flipped = 0 ∨ flipped = 1)
  ∧ wellFormed st'.
Proof.
  intros Hwf Hd ch flipped st'.
  pose proof (addToggle_wellFormed d st Hd Hwf) as Hwf'.
  destruct Hwf as (Hlen & Hids & Hall).
  pose proof (addToggle_spec d st Hd Hlen Hall) as Hspec. cbv zeta in Hspec.
  fold ch in Hspec. fold flipped in Hspec.
  destruct (toggle_bits d Hd) as (_ & Hr & _).
  assert (Hlt : (ch < length (toggleByChannel st))%nat) by (unfold ch; lia).
  unfold st'. rewrite sendPacket_fifo. cbn [stateOf].
  rewrite sendPacket_enqueue_tasks.
  destruct (sendPacket_enqueue_frame
              (sendPacket_begin d false st).1 (sendPacket_begin d false st).2)
    as (_ & Htog & Hid & _).
  rewrite sendPacket_begin_pending. cbn [p_command p_taskType].
  unfold sendPacket_begin in *. rewrite Hspec in *. cbn [fst snd] in *.
  split; [reflexivity |]. split; [| split].
  - rewrite Htog. cbn [toggleByChannel set_toggleByChannel].
    unfold readToggle at 1. rewrite list_lookup_insert_eq by exact Hlt. reflexivity.
  - destruct (readToggle_bit _ _ Hall Hlt) as [E | E]; unfold flipped; rewrite E; lia.
  - destruct Hwf' as (H1 & H2 & H3). unfold wellFormed.
    rewrite Htog, Hid. auto.
Qed.

(** Two submissions of the same 11-bit value [d], the second starting
    from a state in which the toggle of the channel is as the first left
    it: the two packets differ in the toggle bit and in nothing else. *)
Lemma resubmission_flips d st st2 :
  wellFormed st → wellFormed st2 → 0 ≤ d < 2048 →
  let ch := Z.to_nat (channelOf d) in
  readToggle (toggleByChannel st2) ch
    = readToggle (toggleByChannel (stateOf (sendPacket d false st))) ch →
  sameCommandOppositeToggle d
    (pushed st (stateOf (sendPacket d false st)))
    (pushed st2 (stateOf (sendPacket d false st2))).
Proof.
  intros Hwf Hwf2 Hd ch Hsame.
  destruct (submit_fifo d st Hwf Hd) as (Ht1 & Hr1 & Hb1 & _).
  destruct (submit_fifo d st2 Hwf2 Hd) as (Ht2 & _ & _ & _).
  fold ch in Hr1, Ht1, Ht2, Hb1. rewrite Hr1 in Hsame. rewrite Hsame in Ht2.
  set (b := 1 - readToggle (toggleByChannel st) ch) in *.
  assert (Hb2 : 1 - b = 0 ∨ 1 - b = 1) by lia.
  destruct (toggle_bits d Hd) as (_ & _ & Hbits).
  destruct (Hbits b Hb1) as (_ & Htog1 & _ & Hmod1 & Hbit1).
  destruct (Hbits (1 - b) Hb2) as (_ & Htog2 & _ & Hmod2 & Hbit2).
  assert (Hc1 : 0 ≤ b * 2048 + d < 4096) by lia.
  assert (Hc2 : 0 ≤ (1 - b) * 2048 + d < 4096) by lia.
  destruct (sendCommand_encodes _ Hc1) as (_ & _ & _ & Hs1).
  destruct (sendCommand_encodes _ Hc2) as (_ & _ & _ & Hs2).
  assert (Hbit15 : ∀ c, Z.shiftr (datagramOf c) 4 = c →
            Z.testbit (datagramOf c) 15 = Z.testbit c 11).
  { intros c Hc. rewrite <- Hc at 2. rewrite Z.shiftr_spec by lia. reflexivity. }
  assert (Hneg : (b =? 1) = negb (1 - b =? 1)).
  { destruct Hb1 as [-> | ->]; reflexivity. }
  exists (b * 2048 + d), ((1 - b) * 2048 + d).
  unfold pushed. rewrite Ht1, Ht2, !drop_app_length, !length_replicate.
  split; [reflexivity |]. split; [reflexivity |].
  split; [exact Hmod1 |]. split; [exact Hmod2 |].
  split; [rewrite Htog1, Htog2; reflexivity |].
  split; [rewrite Hbit1, Hbit2; exact Hneg |].
  split; [rewrite (Hbit15 _ Hs1), (Hbit15 _ Hs2), Hbit1, Hbit2; exact Hneg |].
  intros led Heq.
  assert (Hp : ∀ c, 0 ≤ c < 4096 →
            pulsesOf (sendCommand led c) !! 1%nat =
              Some (bitPulse led (Z.testbit c 11))).
  { intros c Hc. destruct (sendCommand_encodes c Hc) as (Henc & _ & _ & Hs).
    unfold sendCommand. cbv zeta. rewrite Henc, sendDatagram_pulses.
    unfold frame, dataBits. cbn [rev seq app fmap list_fmap lookup list_lookup].
    change (Z.of_nat 15) with 15. rewrite (Hbit15 c Hs). reflexivity. }
  pose proof (Hp _ Hc1) as P1. pose proof (Hp _ Hc2) as P2.
  rewrite Heq, P2, Hbit1, Hbit2, Hneg in P1.
  unfold bitPulse, PF_HIGH_BIT, PF_LOW_BIT in P1.
  destruct (1 - b =? 1); cbn [negb] in P1; injection P1 as P1; lia.
Qed.

Lemma repeatCommand_as_submission channel command datagram excluded st :
  (Z.to_nat channel < length (intervalId st))%nat →
  let st1 := repeatCommand channel command datagram excluded st in
  pushed st st1 = pushed st (stateOf (sendPacket datagram false st))
  ∧ toggleByChannel st1 = toggleByChannel (stateOf (sendPacket datagram false st)).
Proof.
  intros Hlt st1.
  destruct (repeatCommand_spec channel command datagram excluded st Hlt)
    as (Htasks & Htog & _).
  fold st1 in Htasks, Htog. unfold pushed.
  rewrite Htasks, Htog, sendPacket_fifo. cbn [stateOf].
  rewrite sendPacket_enqueue_tasks.
  destruct (sendPacket_enqueue_frame
              (sendPacket_begin datagram false st).1
              (sendPacket_begin datagram false st).2) as (_ & -> & _).
  split; reflexivity.
Qed.

(** A submission without mixing names its packet: as many copies as
    the repeat count of the flipped command, which is kept as the new
    toggle of the channel. *)
Lemma submit_pushed d st :
  wellFormed st → 0 ≤ d < 2048 →
  let ch := Z.to_nat (channelOf d) in
  let b := 1 - readToggle (toggleByChannel st) ch in
  let st' := stateOf (sendPacket d false st) in
  pushed st st' =
    replicate (Z.to_nat (signalRepeatNumber (settings st)))
      (mkTask (b * 2048 + d) (bin "001100110000" .& d))
  ∧ readToggle (toggleByChannel st') ch = b
  ∧ (b = 0 ∨ b = 1).
Proof.
  intros Hwf Hd ch b st'.
  destruct (submit_fifo d st Hwf Hd) as (Ht & Hr & Hb & _).
  fold ch in Ht, Hr, Hb. fold b in Ht, Hr, Hb. fold st' in Ht, Hr.
  unfold pushed. rewrite Ht, drop_app_length. auto.
Qed.

(** C9.  The callback of a channel's recurring timer calls [sendPacket]
    again with the value [repeatCommand] was given, which has no toggle
    yet, and [sendPacket] flips the toggle of the channel on every
    entry.  So, when no other command of the channel comes in between,
    the packet of [repeatCommand] and the packet of the first firing,
    and likewise the packets of two successive firings, are
    [signalRepeatNumber] copies each of the same command with opposite
    toggle bits, the toggle kept for the channel being flipped each
    time: the datagrams transmitted for them differ in the toggle bit
    and are not the same sequence of pulses.  [repeatCommand] starts
    the timer when [repeatCommandAfter] is positive. *)
Theorem auto_repeat_alternates_toggle (st st2 : State) :
  wellFormed st → wellFormed st2 →
  (∀ channel command datagram excluded,
     0 ≤ channel < 4 → 0 ≤ datagram < 2048 →
     existsb (λ x, x =? command) excluded = false →
     0 < repeatCommandAfter (settings st) →
     let st1 := repeatCommand channel command datagram excluded st in
     let ch := Z.to_nat (channelOf datagram) in
     let b := 1 - readToggle (toggleByChannel st) ch in
     let taskType := bin "001100110000" .& datagram in
     readToggle (toggleByChannel st2) ch = readToggle (toggleByChannel st1) ch →
     (∃ id, mkInterval id datagram (repeatCommandAfter (settings st)) ∈ intervals st1)
     ∧ pushed st st1 =
         replicate (Z.to_nat (signalRepeatNumber (settings st)))
           (mkTask (b * 2048 + datagram) taskType)
     ∧ readToggle (toggleByChannel st1) ch = b
     ∧ (b = 0 ∨ b = 1)
     ∧ ∀ iv, iv_datagram iv = datagram →
         let st3 := intervalCallback iv st2 in
         st3 = stateOf (sendPacket datagram false st2)
         ∧ pushed st2 st3 =
             replicate (Z.to_nat (signalRepeatNumber (settings st2)))
               (mkTask ((1 - b) * 2048 + datagram) taskType)
         ∧ readToggle (toggleByChannel st3) ch = 1 - b
         ∧ sameCommandOppositeToggle datagram (pushed st st1) (pushed st2 st3))
  ∧ (∀ iv,
     0 ≤ iv_datagram iv < 2048 →
     let st1 := intervalCallback iv st in
     let st3 := intervalCallback iv st2 in
     let ch := Z.to_nat (channelOf (iv_datagram iv)) in
     let b := 1 - readToggle (toggleByChannel st) ch in
     let taskType := bin "001100110000" .& iv_datagram iv in
     readToggle (toggleByChannel st2) ch = readToggle (toggleByChannel st1) ch →
     st1 = stateOf (sendPacket (iv_datagram iv) false st)
     ∧ pushed st st1 =
         replicate (Z.to_nat (signalRepeatNumber (settings st)))
           (mkTask (b * 2048 + iv_datagram iv) taskType)
     ∧ readToggle (toggleByChannel st1) ch = b
     ∧ (b = 0 ∨ b = 1)
     ∧ pushed st2 st3 =
         replicate (Z.to_nat (signalRepeatNumber (settings st2)))
           (mkTask ((1 - b) * 2048 + iv_datagram iv) taskType)
     ∧ readToggle (toggleByChannel st3) ch = 1 - b
     ∧ sameCommandOppositeToggle (iv_datagram iv) (pushed st st1) (pushed st2 st3)).
Proof.
  intros Hwf Hwf2. split.
  - intros channel command datagram excluded Hch Hd Hexcl Hperiod st1 ch b taskType Hsame.
    assert (Hlt : (Z.to_nat channel < length (intervalId st))%nat).
    { destruct Hwf as (_ & -> & _). lia. }
    destruct (repeatCommand_spec channel command datagram excluded st Hlt)
      as (_ & _ & Hivs).
    rewrite Hexcl in Hivs. destruct Hivs as (Hivs & _).
    destruct (Hivs Hperiod) as (id & Hivs1 & _).
    destruct (repeatCommand_as_submission channel command datagram excluded st Hlt)
      as (Hpushed & Htog).
    fold st1 in Hivs1, Hpushed, Htog.
    destruct (submit_pushed datagram st Hwf Hd) as (Hp1 & Hr1 & Hb).
    fold ch in Hp1, Hr1, Hb. fold b in Hp1, Hr1, Hb.
    rewrite <- Hpushed in Hp1. rewrite <- Htog in Hr1.
    split; [exists id; rewrite Hivs1; apply elem_of_app; right; left |].
    split; [exact Hp1 |]. split; [exact Hr1 |]. split; [exact Hb |].
    intros iv Hiv st3.
    assert (E3 : st3 = stateOf (sendPacket datagram false st2))
      by (unfold st3, intervalCallback; rewrite Hiv; reflexivity).
    destruct (submit_pushed datagram st2 Hwf2 Hd) as (Hp2 & Hr2 & _).
    fold ch in Hp2, Hr2. rewrite Hsame, Hr1 in Hp2, Hr2. rewrite <- E3 in Hp2, Hr2.
    split; [exact E3 |]. split; [exact Hp2 |]. split; [exact Hr2 |].
    rewrite Hpushed, E3. apply resubmission_flips; try assumption.
    fold ch. rewrite <- Htog. exact Hsame.
  - intros iv Hd st1 st3 ch b taskType Hsame.
    destruct (submit_pushed (iv_datagram iv) st Hwf Hd) as (Hp1 & Hr1 & Hb).
    destruct (submit_pushed (iv_datagram iv) st2 Hwf2 Hd) as (Hp2 & Hr2 & _).
    fold ch in Hp1, Hr1, Hb, Hp2, Hr2. fold b in Hp1, Hr1, Hb.
    change (stateOf (sendPacket (iv_datagram iv) false st)) with st1 in Hp1, Hr1.
    change (stateOf (sendPacket (iv_datagram iv) false st2)) with st3 in Hp2, Hr2.
    rewrite Hsame, Hr1 in Hp2, Hr2.
    split; [reflexivity |]. split; [exact Hp1 |]. split; [exact Hr1 |].
    split; [exact Hb |]. split; [exact Hp2 |]. split; [exact Hr2 |].
    unfold st1, st3, intervalCallback. apply resubmission_flips; assumption.
Qed.

Lemma auto_repeat_alternates_toggle_witness :
  let st1 := comboDirectMode Channel1 PfComboDirect.Forward PfComboDirect.Float
               initialState in
  let st3 := intervalCallback (mkInterval 1 (bin "10001") 500) st1 in
  pushed initialState st1 = replicate 5 (mkTask (bin "000000010001") 16)
  ∧ pushed st1 st3 = replicate 5 (mkTask (bin "100000010001") 16)
  ∧ sameCommandOppositeToggle (bin "10001") (pushed initialState st1) (pushed st1 st3).
Proof.
  intros st1 st3.
  assert (Hwf1 : wellFormed st1).
  { unfold wellFormed. split; [reflexivity |]. split; [reflexivity |].
    repeat (apply Forall_cons; split; [(left; reflexivity) || (right; reflexivity) |]).
    apply Forall_nil. exact I. }
  destruct (proj1 (auto_repeat_alternates_toggle initialState st1
                     initialState_wellFormed Hwf1)
              0 1 (bin "10001") [0; 15])
    as (_ & Hp1 & _ & _ & Hfire).
  - lia.
  - change (0 ≤ 17 < 2048). lia.
  - reflexivity.
  - reflexivity.
  - reflexivity.
  - destruct (Hfire (mkInterval 1 (bin "10001") 500) eq_refl) as (_ & Hp2 & _ & Hflip).
    split; [exact Hp1 |]. split; [exact Hp2 | exact Hflip].
Defined.

(** ** Packets of one type under mixing *)

Lemma repeatCommand_tasks channel command datagram excluded st :
  tasks (repeatCommand channel command datagram excluded st) =
    tasks st ++ replicate (Z.to_nat (signalRepeatNumber (settings st)))
                  (mkTask (addToggle datagram st).1 (bin "001100110000" .& datagram)).
Proof. apply repeatCommand_fields. Qed.




(** What one test of the loop condition does. *)
Lemma sendPacket_wait_outcome p st :
  match sendPacket_wait p st with
  | Paused ms p' st' =>
      ms = 20 ∧ p' = p ∧ st' = st ∧ p_mixDatagrams p = true
      ∧ sameTypeQueued (p_taskType p) st = true
  | Returned st' =>
      st' = sendPacket_enqueue p st
      ∧ (p_mixDatagrams p = true → ∀ x, x ∈ tasks st → type x ≠ p_taskType p)
  end.
Proof.
  destruct (sendPacket_wait_cases p st) as [(Hm & Hq & ->) | (Hfree & ->)].
  - auto.
  - split; [reflexivity |]. intros Hm.
    destruct Hfree as [Hf | Hf]; [congruence |].
    apply sameTypeQueued_false. exact Hf.
Qed.

Lemma sameTypeQueued_tasks taskType st st' :
  tasks st' = tasks st → sameTypeQueued taskType st' = sameTypeQueued taskType st.
Proof. unfold sameTypeQueued. intros ->. reflexivity. Qed.



Lemma run_reachable acts : ∀ sys sys',
  Reachable sys → run acts sys = Some sys' → Reachable sys'.
Proof.
  induction acts as [| a acts IH]; intros sys sys' Hr Hrun; cbn [run] in Hrun.
  - injection Hrun as <-. exact Hr.
  - destruct (perform a sys) as [sys1 |] eqn:E; [| discriminate].
    cbn [mbind option_bind] in Hrun.
    exact (IH sys1 sys' (reach_step sys a sys1 Hr E) Hrun).
Qed.

(** ** Reachable configurations *)

Lemma sendPacket_wellFormed d mixDatagrams st :
  wellFormed st → 0 ≤ d < 2048 →
  wellFormed (stateOf (sendPacket d mixDatagrams st))
  ∧ intervals (stateOf (sendPacket d mixDatagrams st)) = intervals st.
Proof.
  intros Hwf Hd. pose proof (addToggle_wellFormed d st Hd Hwf) as Hwf'.
  unfold sendPacket, sendPacket_begin.
  destruct (addToggle d st) as [c st1] eqn:E. cbn [snd] in Hwf'.
  assert (Hiv : intervals st1 = intervals st).
  { change st1 with (c, st1).2. rewrite <- E. reflexivity. }
  match goal with |- context [sendPacket_wait ?p st1] =>
    pose proof (sendPacket_wait_outcome p st1) as Hout;
    destruct (sendPacket_wait p st1) as [st' | ms p' st'];
    [destruct Hout as (-> & _);
     destruct (sendPacket_enqueue_frame p st1) as (_ & Ht & Hi & _ & Hv & _)
    | destruct Hout as (_ & _ & -> & _)]
  end; cbn [stateOf].
  - split; [| congruence]. destruct Hwf' as (H1 & H2 & H3).
    unfold wellFormed. rewrite Ht, Hi. auto.
  - auto.
Qed.

Lemma sendPacket_enqueue_wellFormed p st :
  wellFormed st → wellFormed (sendPacket_enqueue p st).
Proof.
  intros (H1 & H2 & H3).
  destruct (sendPacket_enqueue_frame p st) as (_ & Ht & Hi & _).
  unfold wellFormed. rewrite Ht, Hi. auto.
Qed.

Lemma repeatCommand_wellFormed channel command datagram excluded st :
  wellFormed st → timersInRange st → 0 ≤ channel < 4 → 0 ≤ datagram < 2048 →
  wellFormed (repeatCommand channel command datagram excluded st)
  ∧ timersInRange (repeatCommand channel command datagram excluded st).
Proof.
  intros Hwf Htimers Hch Hd.
  assert (Hlt : (Z.to_nat channel < length (intervalId st))%nat).
  { destruct Hwf as (_ & -> & _). lia. }
  destruct (repeatCommand_spec channel command datagram excluded st Hlt)
    as (_ & Htog & Hivs).
  pose proof (addToggle_wellFormed datagram st Hd Hwf) as (T1 & _ & T3).
  assert (Hcancel : Forall (λ iv, 0 ≤ iv_datagram iv < 2048)
                      (cancelled (Z.to_nat channel) st)).
  { unfold cancelled.
    destruct (truthy (intervalId st !! Z.to_nat channel)); [| exact Htimers].
    unfold timersInRange in Htimers. rewrite Forall_forall in Htimers |- *.
    intros iv Hin. apply list_elem_of_filter in Hin as [_ Hin]. exact (Htimers iv Hin). }
  split.
  - unfold wellFormed. rewrite Htog. split; [exact T1 |]. split; [| exact T3].
    destruct Hwf as (_ & Hids & _).
    destruct (repeatCommand_fields channel command datagram excluded st)
      as (_ & _ & _ & _ & _ & _ & _ & _ & ->).
    destruct (clearedIds_lookup (Z.to_nat channel) st Hlt) as (_ & Hlen).
    destruct (existsb (λ x, x =? command) excluded);
      rewrite ?length_insert, Hlen; exact Hids.
  - unfold timersInRange.
    destruct (repeatCommand_fields channel command datagram excluded st)
      as (_ & _ & _ & _ & _ & _ & _ & -> & _).
    destruct (existsb (λ x, x =? command) excluded); [exact Hcancel |].
    destruct (repeatCommandAfter (settings st) <=? 0); [exact Hcancel |].
    apply Forall_app. split; [exact Hcancel |].
    apply Forall_singleton. exact Hd.
Qed.

Lemma singleOutputMode_raw_range channel output command :
  0 ≤ PfChannel_val channel * 256 + PfSingleOutput.val command
      + PfOutput_val output * 16 < 2048.
Proof. destruct channel, output, command; vm_compute; (split; [discriminate | reflexivity]). Qed.

Lemma worker_iteration_frame mixDatagrams random st out :
  worker_iteration mixDatagrams random st = Some out →
  let st' := match out with WorkerPaused _ st' => st' | WorkerFinished st' => st' end in
  toggleByChannel st' = toggleByChannel st ∧ intervalId st' = intervalId st
  ∧ intervals st' = intervals st ∧ background st' = background st.
Proof.
  unfold worker_iteration.
  destruct (0 <? Z.of_nat (length (tasks st))).
  - destruct (taskAt _ _) as [t |]; [| discriminate].
    destruct (irLed st) as [led |]; [| discriminate].
    cbn [mbind option_bind]. intros H. injection H as <-. repeat split.
  - intros H. injection H as <-. repeat split.
Qed.

(** Every reachable module state is well formed and its timers resubmit
    11-bit values. *)
Lemma reachable_wellFormed sys :
  Reachable sys → wellFormed (globals sys) ∧ timersInRange (globals sys).
Proof.
  induction 1 as [| sys a sys' _ [Hwf Htimers] Hstep].
  - split; [exact initialState_wellFormed | apply Forall_nil; exact I].
  - destruct a as [pn dbg s e | channel output command | channel red blue
                  | channel red blue | ra ap sn | k | k random | k];
      cbn [perform] in Hstep.
    + injection Hstep as <-. cbn [globals]. split; [exact Hwf | exact Htimers].
    + rewrite singleOutputMode_as_sendPacket in Hstep.
      match type of Hstep with context [sendPacket ?raw ?mix (globals sys)] =>
        destruct (sendPacket_wellFormed raw mix (globals sys) Hwf
                    (singleOutputMode_raw_range channel output command))
          as (Hwf' & Hiv');
        destruct (sendPacket raw mix (globals sys)) as [st' | ms p st']
      end; injection Hstep as <-; cbn [globals stateOf] in *;
        (split; [exact Hwf' | unfold timersInRange; rewrite Hiv'; exact Htimers]).
    + injection Hstep as <-. cbn [globals]. unfold comboDirectMode. cbv zeta.
      rewrite comboDirect_datagram.
      apply repeatCommand_wellFormed; try assumption.
      * apply PfChannel_val_range.
      * destruct channel, red, blue; vm_compute; (split; [discriminate | reflexivity]).
    + injection Hstep as <-. cbn [globals]. unfold comboPWMMode. cbv zeta.
      rewrite comboPWM_datagram.
      apply repeatCommand_wellFormed; try assumption.
      * apply PfChannel_val_range.
      * destruct channel, red, blue; vm_compute; (split; [discriminate | reflexivity]).
    + injection Hstep as <-. cbn [globals]. split; [exact Hwf | exact Htimers].
    + destruct (waiting sys !! k) as [[o p] |]; [| discriminate].
      cbn [mbind option_bind] in Hstep.
      pose proof (sendPacket_wait_outcome p (globals sys)) as Hout.
      destruct (sendPacket_wait p (globals sys)) as [st' | ms p' st'].
      * destruct Hout as (-> & _). injection Hstep as <-. cbn [globals].
        split; [apply sendPacket_enqueue_wellFormed; exact Hwf |].
        unfold timersInRange.
        destruct (sendPacket_enqueue_frame p (globals sys)) as (_ & _ & _ & _ & -> & _).
        exact Htimers.
      * destruct Hout as (_ & _ & -> & _). injection Hstep as <-. cbn [globals].
        split; assumption.
    + destruct (background (globals sys) !! k) as [mix |]; [| discriminate].
      cbn [mbind option_bind] in Hstep.
      destruct (isRandom random); [| discriminate].
      destruct (worker_iteration mix random (globals sys)) as [out |] eqn:Eit;
        [| discriminate].
      cbn [mbind option_bind] in Hstep.
      destruct (worker_iteration_frame _ _ _ _ Eit) as (Ht & Hi & Hv & _).
      destruct Hwf as (H1 & H2 & H3).
      destruct out as [ms st' | st']; injection Hstep as <-;
        cbn [globals] in *; unfold wellFormed, timersInRange;
        cbn [toggleByChannel intervalId intervals set_background];
        rewrite Ht, Hi, Hv; auto.
    + destruct (intervals (globals sys) !! k) as [iv |] eqn:Ek; [| discriminate].
      cbn [mbind option_bind] in Hstep. injection Hstep as <-. cbn [globals].
      assert (Hd : 0 ≤ iv_datagram iv < 2048).
      { unfold timersInRange in Htimers. rewrite Forall_forall in Htimers.
        apply Htimers. eapply list_elem_of_lookup_2. exact Ek. }
      destruct (sendPacket_wellFormed (iv_datagram iv) false (globals sys) Hwf Hd)
        as (Hwf' & Hiv').
      split; [exact Hwf' |]. unfold timersInRange, intervalCallback.
      rewrite Hiv'. exact Htimers.
Qed.

Lemma enqueue_keeps_singleWorker p st :
  singleWorker st → singleWorker (sendPacket_enqueue p st).
Proof.
  intros (Hlen & Hflag & Hq).
  destruct (sendPacket_enqueue_worker p st) as (Hw & Hbg).
  unfold singleWorker. rewrite Hw, Hbg.
  destruct (schedulerIsWorking st) eqn:E.
  - split; [exact Hlen |]. split; [| auto].
    split; [intros _; apply Hflag; reflexivity | auto].
  - assert (Hnil : background st = []).
    { destruct (background st) as [| b l]; [reflexivity |].
      assert (false = true) by (apply Hflag; discriminate).
      discriminate. }
    rewrite Hnil. cbn. split; [lia |]. split; [| auto].
    split; [discriminate | auto].
Qed.

Lemma sendPacket_keeps_singleWorker d mixDatagrams st :
  singleWorker st → singleWorker (stateOf (sendPacket d mixDatagrams st)).
Proof.
  intros Hsw. unfold sendPacket.
  destruct (sendPacket_begin d mixDatagrams st) as [p st1] eqn:E.
  assert (Hsw1 : singleWorker st1).
  { change st1 with (p, st1).2. rewrite <- E. exact Hsw. }
  pose proof (sendPacket_wait_outcome p st1) as Hout.
  destruct (sendPacket_wait p st1) as [st' | ms p' st']; cbn [stateOf].
  - destruct Hout as (-> & _). apply enqueue_keeps_singleWorker. exact Hsw1.
  - destruct Hout as (_ & _ & -> & _). exact Hsw1.
Qed.

Lemma repeatCommand_keeps_singleWorker channel command datagram excluded st :
  singleWorker st → singleWorker (repeatCommand channel command datagram excluded st).
Proof.
  intros (Hone & Hflag & Hqueue).
  destruct (repeatCommand_fields channel command datagram excluded st)
    as (_ & _ & _ & _ & _ & Hw & Hbg & _).
  unfold singleWorker. rewrite Hw, Hbg.
  destruct (schedulerIsWorking st) eqn:Eflag.
  - split; [exact Hone |]. split; [| auto].
    split; [intros _; apply Hflag; reflexivity | auto].
  - assert (Hnil : background st = []).
    { destruct (background st) as [| x l] eqn:E; [reflexivity |].
      assert (Hx : false = true) by (apply Hflag; discriminate). discriminate. }
    rewrite Hnil. cbn. split; [lia |]. split; [| auto].
    split; [intros _; discriminate | auto].
Qed.

Lemma worker_iteration_flag mixDatagrams random st out :
  worker_iteration mixDatagrams random st = Some out →
  match out with
  | WorkerPaused _ st' => schedulerIsWorking st' = schedulerIsWorking st
  | WorkerFinished st' => tasks st = [] ∧ st' = set_schedulerIsWorking false st
  end.
Proof.
  unfold worker_iteration.
  destruct (Z.ltb_spec 0 (Z.of_nat (length (tasks st)))) as [Hlt | Hge].
  - destruct (taskAt _ _) as [t |]; [| discriminate].
    destruct (irLed st) as [led |]; [| discriminate].
    cbn [mbind option_bind]. intros H. injection H as <-. reflexivity.
  - intros H. injection H as <-. split; [| reflexivity].
    destruct (tasks st); [reflexivity | cbn [length] in Hge; lia].
Qed.

(** In every reachable configuration at most one worker exists, the
    flag [schedulerIsWorking] is set exactly when it does, and a queue
    that is not empty has its worker. *)
Lemma reachable_singleWorker sys : Reachable sys → singleWorker (globals sys).
Proof.
  induction 1 as [| sys a sys' _ Hsw Hstep].
  - unfold singleWorker. cbn. split; [lia |]. split; [| congruence].
    split; [discriminate | congruence].
  - destruct a as [pn dbg s e | channel output command | channel red blue
                  | channel red blue | ra ap sn | k | k random | k];
      cbn [perform] in Hstep.
    + injection Hstep as <-. exact Hsw.
    + rewrite singleOutputMode_as_sendPacket in Hstep.
      match type of Hstep with context [sendPacket ?raw ?mix (globals sys)] =>
        pose proof (sendPacket_keeps_singleWorker raw mix (globals sys) Hsw) as H;
        destruct (sendPacket raw mix (globals sys)) as [st' | ms p st']
      end; injection Hstep as <-; exact H.
    + injection Hstep as <-. apply repeatCommand_keeps_singleWorker. exact Hsw.
    + injection Hstep as <-. apply repeatCommand_keeps_singleWorker. exact Hsw.
    + injection Hstep as <-. exact Hsw.
    + destruct (waiting sys !! k) as [[o p] |]; [| discriminate].
      cbn [mbind option_bind] in Hstep.
      pose proof (sendPacket_wait_outcome p (globals sys)) as Hout.
      destruct (sendPacket_wait p (globals sys)) as [st' | ms p' st'].
      * destruct Hout as (-> & _). injection Hstep as <-.
        apply enqueue_keeps_singleWorker. exact Hsw.
      * destruct Hout as (_ & _ & -> & _). injection Hstep as <-. exact Hsw.
    + destruct (background (globals sys) !! k) as [mix |] eqn:Ek; [| discriminate].
      cbn [mbind option_bind] in Hstep.
      destruct (isRandom random); [| discriminate].
      destruct (worker_iteration mix random (globals sys)) as [out |] eqn:Eit;
        [| discriminate].
      cbn [mbind option_bind] in Hstep.
      destruct (worker_iteration_frame _ _ _ _ Eit) as (_ & _ & _ & Hbg).
      pose proof (worker_iteration_flag _ _ _ _ Eit) as Hflag.
      destruct Hsw as (Hlen & Hiff & Hq).
      assert (Hne : background (globals sys) ≠ []).
      { intros E. rewrite E in Ek. discriminate. }
      destruct out as [ms st' | st']; injection Hstep as <-; cbn [globals] in *.
      * unfold singleWorker. rewrite Hbg, Hflag.
        split; [exact Hlen |]. split; [exact Hiff |].
        intros _. apply Hiff. exact Hne.
      * destruct Hflag as (Hempty & ->).
        unfold singleWorker.
        cbn [background tasks schedulerIsWorking set_background set_schedulerIsWorking].
        assert (Hdel : delete k (background (globals sys)) = []).
        { destruct (background (globals sys)) as [| b [| b' l]];
            [congruence | | cbn [length] in Hlen; lia].
          destruct k; [reflexivity | discriminate]. }
        rewrite Hdel, Hempty. cbn. split; [lia |]. split; [| congruence].
        split; [discriminate | congruence].
    + destruct (intervals (globals sys) !! k) as [iv |]; [| discriminate].
      cbn [mbind option_bind] in Hstep. injection Hstep as <-.
      apply sendPacket_keeps_singleWorker. exact Hsw.
Qed.

(** ** A paused call can proceed *)

(** With the diode connected, the worker empties the queue: one
    iteration for each queued task, here with [Math.random()] giving 0. *)
Lemma worker_drains_queue (n : nat) : ∀ sys led,
  Reachable sys → irLed (globals sys) = Some led →
  length (tasks (globals sys)) = n →
  ∃ sys1,
    run (replicate n (AWorker 0 0)) sys = Some sys1
    ∧ Reachable sys1
    ∧ tasks (globals sys1) = []
    ∧ waiting sys1 = waiting sys
    ∧ settings (globals sys1) = settings (globals sys).
Proof.
  induction n as [| n IH]; intros sys led Hreach Hled Hlen.
  - exists sys. cbn [replicate run]. repeat split; try assumption.
    destruct (tasks (globals sys)); [reflexivity | discriminate].
  - assert (Hne : tasks (globals sys) ≠ []).
    { intros E. rewrite E in Hlen. discriminate. }
    destruct (reachable_singleWorker sys Hreach) as (Hone & Hflag & Hq).
    assert (Hbg : ∃ mix, background (globals sys) = [mix]).
    { pose proof (proj1 Hflag (Hq Hne)) as Hnb.
      destruct (background (globals sys)) as [| b [| b' l]];
        [congruence | eauto | cbn [length] in Hone; lia]. }
    destruct Hbg as [mix Hbg].
    assert (Hr : isRandom 0 = true) by reflexivity.
    destruct (worker_iteration_step mix 0 (globals sys) led Hne Hr Hled)
      as (t & Ht & Hiter).
    set (i := Z.to_nat (worker_index mix 0 (globals sys))) in *.
    set (st' := set_tasks (delete i (tasks (globals sys)))
                  (set_emitted (emitted (globals sys) ++ sendCommand led (handler t))
                     (globals sys))) in *.
    set (sys' := mkSystem st' (waiting sys) (delete i (history sys)) (calls sys)).
    assert (Hstep : perform (AWorker 0 0) sys = Some sys').
    { cbn [perform]. rewrite Hbg. cbn [lookup list_lookup mbind option_bind].
      rewrite Hr, Hiter. reflexivity. }
    assert (Hlen' : length (tasks (globals sys')) = n).
    { cbn [sys' globals st' tasks set_tasks].
      pose proof (length_delete (tasks (globals sys)) i (mk_is_Some _ _ Ht)) as Hd.
      lia. }
    destruct (IH sys' led (reach_step sys _ sys' Hreach Hstep) Hled Hlen')
      as (sys1 & Hrun & Hreach1 & Hempty & Hwait & Hset).
    exists sys1. cbn [replicate run]. rewrite Hstep. cbn [mbind option_bind].
    repeat split; assumption.
Qed.

(** A paused call is not stuck: once the worker has executed the queued
    tasks, the call leaves its loop and its tasks are the queue. *)
Lemma paused_call_can_proceed sys k o p led :
  Reachable sys → irLed (globals sys) = Some led →
  waiting sys !! k = Some (o, p) →
  ∃ sys1 sys2,
    run (replicate (length (tasks (globals sys))) (AWorker 0 0)) sys = Some sys1
    ∧ perform (AResume k) sys1 = Some sys2
    ∧ waiting sys2 = delete k (waiting sys)
    ∧ tasks (globals sys2) =
        replicate (Z.to_nat (signalRepeatNumber (settings (globals sys))))
          (mkTask (p_command p) (p_taskType p)).
Proof.
  intros Hreach Hled Hk.
  destruct (worker_drains_queue _ sys led Hreach Hled eq_refl)
    as (sys1 & Hrun & _ & Hempty & Hwait & Hset).
  assert (Hfree : sameTypeQueued (p_taskType p) (globals sys1) = false).
  { unfold sameTypeQueued. rewrite Hempty. reflexivity. }
  exists sys1. eexists. split; [exact Hrun |].
  cbn [perform]. rewrite Hwait, Hk. cbn [mbind option_bind].
  unfold sendPacket_wait. rewrite Hfree, andb_false_r.
  split; [reflexivity |]. cbn [waiting globals].
  split; [reflexivity |].
  rewrite sendPacket_enqueue_tasks, Hempty, Hset. reflexivity.
Qed.

(** ** One packet per call *)

(** C6.  One call of [sendPacket] flips the toggle of the command's
    channel exactly once, before its loop; whenever it leaves the loop
    it pushes exactly [signalRepeatNumber] tasks (5 by default) and
    flips nothing more; every one of these tasks holds the same final
    12-bit value, toggle bit included, so every handler transmits the
    same command.  Without mixing, or with no task of its type queued,
    the call does not pause at all; a paused call leaves the loop once
    the worker has executed the queued tasks. *)
Theorem sendPacket_repeats_one_value (command : Z) (mixDatagrams : bool) (st : State) :
  wellFormed st →
  0 ≤ command < 2048 →
  let ch := Z.to_nat (channelOf command) in
  let flipped := 1 - readToggle (toggleByChannel st) ch in
  let final := flipped * 2048 + command in
  let p := (sendPacket_begin command mixDatagrams st).1 in
  let st1 := (sendPacket_begin command mixDatagrams st).2 in
  (* the flip *)
  toggleByChannel st1 = <[ch := flipped]> (toggleByChannel st)
  ∧ (flipped = 0 ∨ flipped = 1)
  ∧ p_command p = final ∧ 0 ≤ final < 4096 ∧ toggleOf final = flipped
  (* the call is [sendPacket_begin] and then the loop *)
  ∧ sendPacket command mixDatagrams st = sendPacket_wait p st1
  (* a pause changes nothing *)
  ∧ (∀ st2 ms p' st3, sendPacket_wait p st2 = Paused ms p' st3 → p' = p ∧ st3 = st2)
  (* leaving the loop, in whatever state [st2] the pauses have led to *)
  ∧ (∀ st2 st3, sendPacket_wait p st2 = Returned st3 →
       let n := signalRepeatNumber (settings st2) in
       let pushed := drop (length (tasks st2)) (tasks st3) in
       toggleByChannel st3 = toggleByChannel st2
       ∧ tasks st3 = tasks st2 ++ pushed
       ∧ pushed = replicate (Z.to_nat n) (mkTask final (p_taskType p))
       ∧ (0 ≤ n → Z.of_nat (length pushed) = n)
       ∧ (∀ t led, t ∈ pushed → sendCommand led (handler t) = sendCommand led final))
  ∧ signalRepeatNumber (settings initialState) = 5
  (* the call is not stuck in its loop *)
  ∧ ((mixDatagrams = false ∨ sameTypeQueued (p_taskType p) st = false) →
       sendPacket command mixDatagrams st = Returned (sendPacket_enqueue p st1))
  ∧ (∀ sys k o q led,
       Reachable sys → irLed (globals sys) = Some led →
       waiting sys !! k = Some (o, q) →
       ∃ sys1 sys2,
         run (replicate (length (tasks (globals sys))) (AWorker 0 0)) sys = Some sys1
         ∧ perform (AResume k) sys1 = Some sys2
         ∧ waiting sys2 = delete k (waiting sys)
         ∧ tasks (globals sys2) =
             replicate (Z.to_nat (signalRepeatNumber (settings (globals sys))))
               (mkTask (p_command q) (p_taskType q))).
Proof.
  intros Hwf Hc ch flipped final p st1.
  destruct Hwf as (Hlen & Hids & Hall).
  assert (Hp : p = mkPending mixDatagrams (bin "001100110000" .& command) final).
  { unfold p. rewrite sendPacket_begin_pending.
    rewrite (addToggle_spec command st Hc Hlen Hall). reflexivity. }
  assert (Hst1 : toggleByChannel st1 = <[ch := flipped]> (toggleByChannel st)).
  { unfold st1, sendPacket_begin.
    rewrite (addToggle_spec command st Hc Hlen Hall). reflexivity. }
  destruct (toggle_bits command Hc) as (_ & Hr & Hbits).
  assert (Hflip : flipped = 0 ∨ flipped = 1).
  { assert (Hlt : (ch < length (toggleByChannel st))%nat) by (unfold ch; lia).
    destruct (readToggle_bit _ _ Hall Hlt) as [E | E]; unfold flipped; rewrite E; lia. }
  destruct (Hbits flipped Hflip) as (_ & Htog & _ & _ & _).
  split; [exact Hst1 |]. split; [exact Hflip |].
  split; [rewrite Hp; reflexivity |].
  split; [unfold final; lia |]. split; [exact Htog |].
  assert (Hcall : sendPacket command mixDatagrams st = sendPacket_wait p st1).
  { unfold sendPacket, p, st1.
    destruct (sendPacket_begin command mixDatagrams st); reflexivity. }
  split; [exact Hcall |].
  split; [| split; [| split; [reflexivity | split]]].
  - intros st2 ms p' st3 H.
    destruct (sendPacket_wait_cases p st2) as [(_ & _ & E) | (_ & E)];
      rewrite E in H; inversion H; auto.
  - intros st2 st3 H n pushed.
    assert (Est3 : st3 = sendPacket_enqueue p st2).
    { destruct (sendPacket_wait_cases p st2) as [(_ & _ & E) | (_ & E)];
        rewrite E in H; inversion H; auto. }
    assert (Hpushed : pushed = replicate (Z.to_nat n) (mkTask final (p_taskType p))).
    { unfold pushed. rewrite Est3, sendPacket_enqueue_tasks, drop_app_length.
      rewrite Hp. reflexivity. }
    split; [rewrite Est3; apply sendPacket_enqueue_frame |].
    split; [rewrite Hpushed, Est3, sendPacket_enqueue_tasks, Hp; reflexivity |].
    split; [exact Hpushed |].
    split; [intros Hn; rewrite Hpushed, length_replicate; lia |].
    intros t led Ht. rewrite Hpushed in Ht.
    apply elem_of_replicate_inv in Ht. rewrite Ht. reflexivity.
  - intros Hfree. rewrite Hcall.
    destruct (sendPacket_wait_cases p st1) as [(Hm & Hq & _) | (_ & E)]; [| exact E].
    exfalso. rewrite Hp in Hm. cbn [p_mixDatagrams] in Hm.
    rewrite (sameTypeQueued_tasks (p_taskType p) st st1 eq_refl) in Hq.
    destruct Hfree; congruence.
  - intros sys k o q led. apply paused_call_can_proceed.
Qed.

Lemma sendPacket_repeats_one_value_witness :
  sendPacket (bin "1000111") true initialState =
    Returned (set_background [true] (set_schedulerIsWorking true
      (set_tasks (replicate 5 (mkTask (bin "1000111") 0))
         (set_toggleByChannel [0; 1; 1; 1] initialState)))).
Proof.
  assert (Hc : 0 ≤ bin "1000111" < 2048) by (change (0 ≤ 71 < 2048); lia).
  pose proof (sendPacket_repeats_one_value (bin "1000111") true initialState
                initialState_wellFormed Hc) as H.
  cbv zeta in H. destruct H as (_ & _ & _ & _ & _ & H & _).
  rewrite H. reflexivity.
Defined.

(** ** Serialization of conflicting packets *)



(** * Further properties

    ** [getRandomInt] *)

Lemma Qfloor_between (x : Q) (k : Z) :
  (inject_Z k <= x)%Q → (x < inject_Z (k + 1))%Q → Qfloor x = k.
Proof.
  intros Hlo Hhi.
  assert (H1 : k ≤ Qfloor x).
  { rewrite <- (Qfloor_Z k). apply Qfloor_resp_le. exact Hlo. }
  assert (H2 : Qfloor x < k + 1).
  { rewrite Zlt_Qlt. eapply Qle_lt_trans; [apply Qfloor_le | exact Hhi]. }
  lia.
Qed.

(** X1.  For integers [min <= max] that doubles hold exactly, and for
    every double [Math.random()] can return, [getRandomInt(min, max)]
    lies between [min] and [max], both included, although the product
    it takes the whole part of is rounded; it is [min] for the random
    number 0 and [max] for the largest double below 1.  The rounding
    shows: for the double nearest to 0.6 and the range 0..4 the result
    is 3, while the exact product is below 3. *)
Theorem getRandomInt_between (min max : Z) :
  - 2 ^ 53 ≤ min → min ≤ max → max ≤ 2 ^ 53 → max - min < 2 ^ 52 →
  (∀ random, isRandom random = true → min ≤ getRandomInt min max random ≤ max)
  ∧ isRandom 0 = true
  ∧ getRandomInt min max 0 = min
  ∧ isRandom (1 - (1 # 2 ^ 53)) = true
  ∧ getRandomInt min max (1 - (1 # 2 ^ 53)) = max
  ∧ ∃ random,
      isRandom random = true
      ∧ getRandomInt 0 4 random = 3
      ∧ Qfloor (random * 5) = 2.
Proof.
  intros Hmin Hmm Hmax Hrange. set (n := max - min + 1).
  assert (Hn : 0 < n) by (unfold n; lia).
  assert (Hin : ∀ random, isRandom random = true →
            min ≤ getRandomInt min max random ≤ max).
  { intros random Hr. rewrite getRandomInt_integers. fold n.
    destruct (roundDouble_product random n Hr Hn) as [H0 H1].
    set (y := roundDouble (random * inject_Z n)) in *.
    assert (Hf0 : 0 ≤ Qfloor y).
    { change 0 with (Qfloor 0). apply Qfloor_resp_le. exact H0. }
    assert (Hfn : Qfloor y < n).
    { rewrite Zlt_Qlt. eapply Qle_lt_trans; [apply Qfloor_le | exact H1]. }
    unfold n in Hfn. lia. }
  assert (Hone : isRandom (1 - (1 # 2 ^ 53)) = true) by (vm_compute; reflexivity).
  split; [exact Hin |]. split; [vm_compute; reflexivity |]. split; [| split; [exact Hone |]].
  - rewrite getRandomInt_integers. fold n.
    assert (E : (0 * inject_Z n ?= 0)%Q = Eq) by (apply Qeq_alt; ring).
    unfold roundDouble. rewrite E. reflexivity.
  - split.
    + pose proof (Hin _ Hone) as [_ Hle].
      assert (Hge : max ≤ getRandomInt min max (1 - (1 # 2 ^ 53))); [| lia].
      rewrite getRandomInt_integers. fold n.
      set (x := ((1 - (1 # 2 ^ 53)) * inject_Z n)%Q).
      assert (Hn1 : (1 <= inject_Z n)%Q).
      { change (inject_Z 1 <= inject_Z n)%Q. rewrite <- Zle_Qle. lia. }
      assert (Hn2 : (inject_Z n <= inject_Z (2 ^ 52))%Q).
      { rewrite <- Zle_Qle. unfold n. lia. }
      change (inject_Z (2 ^ 52)) with (4503599627370496 # 1)%Q in Hn2.
      assert (Ex : (x == inject_Z n - (1 # 9007199254740992) * inject_Z n)%Q).
      { unfold x. change (2 ^ 53)%positive with 9007199254740992%positive. ring. }
      assert (Hx : (0 < x)%Q) by lra.
      destruct (roundDouble_near x Hx) as (Hlow & _ & _).
      assert (Hy : (inject_Z (n - 1) <= roundDouble x)%Q).
      { assert (E3 : (inject_Z (n - 1) == inject_Z n - 1)%Q)
          by (unfold Z.sub; rewrite inject_Z_plus, inject_Z_opp; reflexivity).
        rewrite E3.
        destruct (ulp_bound x Hx) as [Hu | [_ Hsmall]].
        - change (2 ^ 52)%positive with 4503599627370496%positive in Hu. lra.
        - assert (E2 : (1 # 2 ^ 1022 <= 1 # 4)%Q) by (vm_compute; discriminate).
          set (b := (1 # 2 ^ 1022)%Q) in *. lra. }
      assert (n - 1 ≤ Qfloor (roundDouble x)).
      { rewrite <- (Qfloor_Z (n - 1)). apply Qfloor_resp_le. exact Hy. }
      unfold n in *. lia.
    + exists (5404319552844595 # 9007199254740992).
      split; [vm_compute; reflexivity |]. split; vm_compute; reflexivity.
Qed.

Lemma getRandomInt_between_witness :
  getRandomInt 0 4 (1 # 2) = 2
  ∧ getRandomInt 0 4 0 = 0
  ∧ getRandomInt 0 4 (1 - (1 # 2 ^ 53)) = 4.
Proof.
  destruct (getRandomInt_between 0 4) as (Hin & _ & Hlow & _ & Hhigh & _).
  - vm_compute. discriminate.
  - lia.
  - vm_compute. discriminate.
  - vm_compute. reflexivity.
  - split; [| split; [exact Hlow | exact Hhigh]].
    pose proof (Hin (1 # 2) eq_refl) as _. vm_compute. reflexivity.
Defined.

(** ** Reading frames back *)

Lemma decodePulse_bitPulse led b : decodePulse led (bitPulse led b) = Some b.
Proof.
  unfold decodePulse, bitPulse. cbn [fst snd].
  rewrite Z.eqb_refl. cbn [negb].
  destruct b.
  - rewrite Z.eqb_refl. reflexivity.
  - assert (Hne : (PF_LOW_BIT led =? PF_HIGH_BIT led) = false).
    { apply Z.eqb_neq. unfold PF_LOW_BIT, PF_HIGH_BIT. lia. }
    rewrite Hne, Z.eqb_refl. reflexivity.
Qed.

Lemma decodePulse_all led bits :
  mapM (decodePulse led) (bitPulse led <$> bits) = Some bits.
Proof.
  induction bits as [| b bits IH]; [reflexivity |].
  rewrite fmap_cons. cbn [mapM]. rewrite decodePulse_bitPulse, IH. reflexivity.
Qed.

Lemma bitsToZ_testbits d n : ∀ acc,
  foldl (λ acc (b : bool), 2 * acc + (if b then 1 else 0)) acc
    ((λ i, Z.testbit d (Z.of_nat i)) <$> rev (seq 0 n))
  = acc * 2 ^ Z.of_nat n + d mod 2 ^ Z.of_nat n.
Proof.
  induction n as [| n IH]; intros acc.
  - cbn [seq rev fmap list_fmap foldl]. change (2 ^ Z.of_nat 0) with 1.
    rewrite Z.mod_1_r. lia.
  - rewrite seq_S, rev_unit, fmap_cons. cbn [foldl Nat.add]. rewrite IH.
    replace (Z.of_nat (S n)) with (Z.of_nat n + 1) by lia.
    rewrite Z.pow_add_r by lia. change (2 ^ 1) with 2.
    assert (Hp : 0 < 2 ^ Z.of_nat n) by (apply Z.pow_pos_nonneg; lia).
    rewrite (Z.rem_mul_r d (2 ^ Z.of_nat n) 2) by lia.
    rewrite <- (Z.testbit_spec' d (Z.of_nat n)) by lia.
    destruct (Z.testbit d (Z.of_nat n)); cbn [Z.b2z]; lia.
Qed.

Lemma bitsToZ_dataBits d : bitsToZ (dataBits d) = d mod 2 ^ 16.
Proof.
  unfold bitsToZ, dataBits. rewrite (bitsToZ_testbits d 16 0). reflexivity.
Qed.

Lemma decodeFrame_frame led d :
  decodeFrame led
    (frame PF_MARK_BIT (PF_START_BIT led) (PF_LOW_BIT led) (PF_HIGH_BIT led) d)
  = Some (d mod 2 ^ 16).
Proof.
  unfold decodeFrame. rewrite decide_True by (repeat split).
  change (take 16 (drop 1 (frame PF_MARK_BIT (PF_START_BIT led) (PF_LOW_BIT led)
                             (PF_HIGH_BIT led) d)))
    with (bitPulse led <$> dataBits d).
  rewrite decodePulse_all. cbn [fmap option_fmap option_map].
  rewrite bitsToZ_dataBits. reflexivity.
Qed.

(** X2.  The pulses of [sendDatagram] can be read back: a receiver that
    knows the three space widths recovers the low 16 bits of the
    datagram from the 18 pulses, whatever the calibration gave.  So two
    datagrams are sent as the same pulses exactly when they agree on
    their low 16 bits; higher bits are never transmitted. *)
Theorem frame_round_trip (led : InfraredLed) (d1 d2 : Z) :
  decodeFrame led (pulsesOf (sendDatagram led d1)) = Some (d1 mod 2 ^ 16)
  ∧ (pulsesOf (sendDatagram led d1) = pulsesOf (sendDatagram led d2)
     ↔ d1 mod 2 ^ 16 = d2 mod 2 ^ 16).
Proof.
  split.
  - rewrite sendDatagram_pulses. apply decodeFrame_frame.
  - split.
    + intros Heq.
      assert (H : decodeFrame led (pulsesOf (sendDatagram led d1)) =
                  decodeFrame led (pulsesOf (sendDatagram led d2)))
        by (rewrite Heq; reflexivity).
      rewrite !sendDatagram_pulses, !decodeFrame_frame in H. congruence.
    + intros Hmod. rewrite !sendDatagram_pulses.
      assert (Hbits : dataBits d1 = dataBits d2).
      { unfold dataBits. apply list_fmap_ext. intros k i Hi.
        apply list_elem_of_lookup_2, list_elem_of_In, in_rev, in_seq in Hi.
        rewrite <- (Z.mod_pow2_bits_low d1 16) by lia.
        rewrite <- (Z.mod_pow2_bits_low d2 16) by lia.
        rewrite Hmod. reflexivity. }
      unfold frame. rewrite Hbits. reflexivity.
Qed.

(** X3.  What a receiver reads from the pulses of [sendCommand] for a
    12-bit command [v] is a datagram whose upper 12 bits are [v] and
    which passes the checksum test (its four nibbles xor to 15); the
    same datagram with any single one of its 16 bits inverted fails the
    test. *)
Theorem sendCommand_checksum_detects_bit_errors (led : InfraredLed) (v : Z) :
  0 ≤ v < 4096 →
  ∃ d,
    decodeFrame led (pulsesOf (sendCommand led v)) = Some d
    ∧ 0 ≤ d < 2 ^ 16
    ∧ Z.shiftr d 4 = v
    ∧ lrcValid d = true
    ∧ ∀ i, 0 ≤ i < 16 → lrcValid (Z.lxor d (2 ^ i)) = false.
Proof.
  intros Hv.
  destruct (sendCommand_encodes v Hv) as (Henc & Hrange & _ & Hhigh).
  exists (datagramOf v).
  split.
  { unfold sendCommand. cbv zeta. rewrite Henc, sendDatagram_pulses, decodeFrame_frame.
    rewrite Z.mod_small by exact Hrange. reflexivity. }
  split; [exact Hrange |]. split; [exact Hhigh |].
  pose (chk := λ v,
    lrcValid (datagramOf v)
    && forallb (λ i, negb (lrcValid (Z.lxor (datagramOf v) (2 ^ i))))
         (Z.of_nat <$> seq 0 16)).
  assert (H : chk v = true).
  { apply (forallb_below chk 4096); [vm_compute; reflexivity | lia]. }
  unfold chk in H. apply andb_true_iff in H as [H1 H2].
  split; [exact H1 |].
  intros i Hi. apply negb_true_iff.
  apply (forallb_below (λ i, negb (lrcValid (Z.lxor (datagramOf v) (2 ^ i)))) 16 H2).
  lia.
Qed.

Lemma sendCommand_checksum_detects_bit_errors_witness :
  ∃ d,
    decodeFrame (mkInfraredLed 0 75 false)
      (pulsesOf (sendCommand (mkInfraredLed 0 75 false) (bin "100001000111"))) = Some d
    ∧ 0 ≤ d < 2 ^ 16
    ∧ Z.shiftr d 4 = bin "100001000111"
    ∧ lrcValid d = true
    ∧ ∀ i, 0 ≤ i < 16 → lrcValid (Z.lxor d (2 ^ i)) = false.
Proof.
  apply (sendCommand_checksum_detects_bit_errors (mkInfraredLed 0 75 false)).
  change (0 ≤ 2119 < 4096). lia.
Defined.

(** ** Duration of a frame and the trace line *)

Lemma totalWait_app evs1 evs2 : totalWait (evs1 ++ evs2) = totalWait evs1 + totalWait evs2.
Proof.
  unfold totalWait. induction evs1 as [| ev evs1 IH]; cbn [app foldr]; lia.
Qed.

Lemma totalWait_transmitAll p pulses :
  totalWait (transmitAll p pulses) = foldr (λ hl acc, hl.1 + hl.2 + acc) 0 pulses.
Proof.
  unfold transmitAll. induction pulses as [| [h l] pulses IH]; [reflexivity |].
  rewrite bind_cons, totalWait_app, IH. cbn. lia.
Qed.

Lemma totalWait_bits led bits :
  foldr (λ hl acc, hl.1 + hl.2 + acc) 0 (bitPulse led <$> bits)
  = (421 - waitCorrection led) * Z.of_nat (length bits)
    + 290 * Z.of_nat (length (filter (λ b : bool, b = true) bits)).
Proof.
  induction bits as [| b bits IH]; [cbn; lia |].
  rewrite fmap_cons, filter_cons. cbn [foldr length]. rewrite IH.
  unfold bitPulse, PF_HIGH_BIT, PF_LOW_BIT, PF_MARK_BIT. cbn [fst snd].
  destruct b; [rewrite decide_True by reflexivity | rewrite decide_False by discriminate];
    cbn [length]; lia.
Qed.

(** X4.  A frame of [sendDatagram] waits 9104 + 290 * (number of 1
    bits) - 18 * [waitCorrection] microseconds in all, whether [debug]
    is set or not: 1184 less the correction for each of the two start
    pulses, 421 for a 0 bit, 711 for a 1 bit.  The commanded duration
    therefore lies between 9104 and 13744 microseconds, less 18
    corrections. *)
Theorem frame_duration (led : InfraredLed) (datagram : Z) :
  totalWait (sendDatagram led datagram)
    = 9104 + 290 * onesOf datagram - 18 * waitCorrection led
  ∧ 0 ≤ onesOf datagram ≤ 16.
Proof.
  split.
  - destruct (sendDatagram_frame led datagram) as [line ->].
    rewrite totalWait_app, totalWait_transmitAll.
    assert (Hs : totalWait (if debug led then [SerialWriteString line] else []) = 0)
      by (destruct (debug led); reflexivity).
    rewrite Hs. unfold frame.
    change ((λ b : bool, (PF_MARK_BIT, if b then PF_HIGH_BIT led else PF_LOW_BIT led))
              <$> dataBits datagram) with (bitPulse led <$> dataBits datagram).
    rewrite !foldr_app. cbn [foldr fst snd].
    assert (Hgen : ∀ l z, foldr (λ hl acc, hl.1 + hl.2 + acc) z l
                          = foldr (λ hl acc, hl.1 + hl.2 + acc) 0 l + z).
    { induction l as [| x l IH]; intros z; cbn [foldr]; [lia | rewrite IH; lia]. }
    rewrite Hgen, totalWait_bits.
    change (length (dataBits datagram)) with 16%nat.
    unfold onesOf, PF_START_BIT, PF_MARK_BIT. lia.
  - unfold onesOf. split; [lia |].
    pose proof (length_filter (λ b : bool, b = true) (dataBits datagram)) as H.
    change (length (dataBits datagram)) with 16%nat in H. lia.
Qed.

Lemma append_assoc (s1 s2 s3 : string) :
  ((s1 ++ s2) ++ s3 = s1 ++ (s2 ++ s3))%string.
Proof. induction s1 as [| c s1 IH]; cbn; [reflexivity | rewrite IH; reflexivity]. Qed.

(** One iteration of the loop of [sendDatagram] appends to [bits] the
    digit of bit [n] and, before the bits 12, 8 and 4, a dash. *)
Lemma sendDatagram_loop_text_S led d n bits :
  (n ≤ 30)%nat →
  (sendDatagram_loop led d (S n) bits).2 =
    (sendDatagram_loop led d n
       (bits ++ ((if Z.testbit d (Z.of_nat n) then "1" else "0")
                 ++ (if ((0 <? Z.of_nat n) && (Z.of_nat n mod 4 =? 0))%Z then "-" else "")))%string).2.
Proof.
  intros Hn. cbn [sendDatagram_loop]. rewrite bit_test by lia.
  match goal with |- context [sendDatagram_loop led d n ?b] =>
    replace b with
      (bits ++ ((if Z.testbit d (Z.of_nat n) then "1" else "0")
                ++ (if ((0 <? Z.of_nat n) && (Z.of_nat n mod 4 =? 0))%Z then "-" else "")))%string
  end.
  - destruct (sendDatagram_loop led d n _) as [rest text]. reflexivity.
  - destruct (Z.testbit d (Z.of_nat n)),
      ((0 <? Z.of_nat n) && (Z.of_nat n mod 4 =? 0)); reflexivity.
Qed.

Lemma sendDatagram_loop_text_prefix led d n : ∀ bits,
  (n ≤ 31)%nat →
  (sendDatagram_loop led d n bits).2 =
    (bits ++ (sendDatagram_loop led d n EmptyString).2)%string.
Proof.
  induction n as [| n IH]; intros bits Hn.
  - cbn [sendDatagram_loop snd]. induction bits as [| c bits IHb]; cbn; congruence.
  - rewrite !sendDatagram_loop_text_S by lia.
    rewrite (IH (bits ++ _)%string) by lia.
    rewrite (IH (EmptyString ++ _)%string) by lia.
    rewrite append_assoc. reflexivity.
Qed.

Lemma sendDatagram_loop_traceLine led d :
  ((sendDatagram_loop led d 16 EmptyString).2 ++ newline)%string = traceLine d.
Proof.
  do 16 (rewrite sendDatagram_loop_text_S by lia;
         rewrite sendDatagram_loop_text_prefix by lia).
  cbn [sendDatagram_loop snd].
  unfold traceLine, dataBits.
  cbn [seq rev app fmap list_fmap take drop bitChars foldr].
  rewrite !append_assoc. reflexivity.
Qed.

(** X5.  With [debug] set, [sendDatagram] writes, after its last pulse,
    one line to the serial port: the 16 bits of the datagram, most
    significant first, in four groups of four separated by dashes, 19
    characters and a line feed.  Without [debug] it writes nothing.  In
    both cases the other events are exactly the 18 pulses. *)
Theorem debug_trace_line (led : InfraredLed) (datagram : Z) :
  sendDatagram led datagram =
    transmitAll (pin led)
      (frame PF_MARK_BIT (PF_START_BIT led) (PF_LOW_BIT led) (PF_HIGH_BIT led) datagram)
    ++ (if debug led then [SerialWriteString (traceLine datagram)] else [])
  ∧ String.length (traceLine datagram) = 20%nat
  ∧ filter (λ ev, isSerial ev = true) (sendDatagram led datagram) =
      if debug led then [SerialWriteString (traceLine datagram)] else [].
Proof.
  assert (Hsend : sendDatagram led datagram =
    transmitAll (pin led)
      (frame PF_MARK_BIT (PF_START_BIT led) (PF_LOW_BIT led) (PF_HIGH_BIT led) datagram)
    ++ (if debug led then [SerialWriteString (traceLine datagram)] else [])).
  { unfold sendDatagram.
    pose proof (sendDatagram_loop_pulses led datagram 16 EmptyString ltac:(lia)) as H.
    pose proof (sendDatagram_loop_traceLine led datagram) as Hline.
    destruct (sendDatagram_loop led datagram 16 EmptyString) as [data bits].
    cbn [fst snd] in H, Hline. subst data. rewrite Hline.
    unfold frame, transmitAll. rewrite !bind_app, !bind_singleton.
    rewrite <- !app_assoc. reflexivity. }
  split; [exact Hsend |]. split.
  - unfold traceLine.
    assert (Hlen : ∀ bs, String.length (bitChars bs) = length bs).
    { induction bs as [| b bs IH]; [reflexivity |].
      cbn [bitChars foldr]. destruct b; cbn; f_equal; exact IH. }
    assert (Happ : ∀ s1 s2, String.length (s1 ++ s2)%string
                            = (String.length s1 + String.length s2)%nat).
    { induction s1 as [| c s1 IH]; intros s2; cbn; [reflexivity | rewrite IH; reflexivity]. }
    rewrite !Happ, !Hlen. reflexivity.
  - rewrite Hsend, filter_app.
    assert (Hnone : filter (λ ev, isSerial ev = true)
              (transmitAll (pin led)
                 (frame PF_MARK_BIT (PF_START_BIT led) (PF_LOW_BIT led)
                    (PF_HIGH_BIT led) datagram)) = []).
    { generalize (frame PF_MARK_BIT (PF_START_BIT led) (PF_LOW_BIT led)
                    (PF_HIGH_BIT led) datagram).
      intros pulses. unfold transmitAll.
      induction pulses as [| [h l] pulses IH]; [reflexivity |].
      rewrite bind_cons, filter_app, IH. reflexivity. }
    rewrite Hnone. destruct (debug led); reflexivity.
Qed.

(** ** The command values *)

Lemma decodeCommand_commandValue c : decodeCommand (commandValue c) = Some c.
Proof.
  destruct c as [channel output command | channel red blue | channel red blue].
  - destruct channel, output, command; vm_compute; reflexivity.
  - destruct channel, red, blue; vm_compute; reflexivity.
  - destruct channel, red, blue; vm_compute; reflexivity.
Qed.

Lemma commandValue_fields c :
  0 ≤ commandValue c < 2048
  ∧ channelOf (commandValue c) = PfChannel_val (commandChannel c).
Proof.
  destruct c as [channel output command | channel red blue | channel red blue].
  - destruct channel, output, command; vm_compute;
      (split; [split; [discriminate | reflexivity] | reflexivity]).
  - destruct channel, red, blue; vm_compute;
      (split; [split; [discriminate | reflexivity] | reflexivity]).
  - destruct channel, red, blue; vm_compute;
      (split; [split; [discriminate | reflexivity] | reflexivity]).
Qed.

(** X6.  The values the three command functions build can be read back:
    from the value alone a receiver recovers the mode, the channel and
    the fields of the call, so no two different calls build the same
    value.  Every value has bit 11 clear, leaving it to the toggle, and
    carries the channel of the call in bits 9..8.  [singleOutputMode]
    hands this value to [sendPacket], the combo modes hand it to
    [repeatCommand]. *)
Theorem command_values_decode (c : Command) :
  decodeCommand (commandValue c) = Some c
  ∧ 0 ≤ commandValue c < 2048
  ∧ channelOf (commandValue c) = PfChannel_val (commandChannel c)
  ∧ (∀ c', commandValue c' = commandValue c → c' = c)
  ∧ (∀ st,
       match c with
       | SingleOutput channel output command =>
           issue c st =
             sendPacket (commandValue c)
               (singleOutputMode_mixDatagrams (PfSingleOutput.val command)) st
       | ComboDirect channel red blue =>
           issue c st =
             Returned (repeatCommand (PfChannel_val channel)
                         ((PfComboDirect.val blue .<< 2) .| PfComboDirect.val red)
                         (commandValue c) [0; 15] st)
       | ComboPWM channel red blue =>
           issue c st =
             Returned (repeatCommand (PfChannel_val channel)
                         ((PfComboPWM.val blue .<< 4) .| PfComboPWM.val red)
                         (commandValue c) [0; 136] st)
       end).
Proof.
  split; [apply decodeCommand_commandValue |].
  split; [apply commandValue_fields |].
  split; [apply commandValue_fields |].
  split.
  - intros c' Heq.
    pose proof (decodeCommand_commandValue c') as H'.
    rewrite Heq, decodeCommand_commandValue in H'. congruence.
  - intros st.
    destruct c; unfold issue, singleOutputMode, comboDirectMode, comboPWMMode,
      commandValue; cbv zeta; reflexivity.
Qed.

Lemma taskTypeOf_single channel output command :
  taskTypeOf (commandValue (SingleOutput channel output command))
  = PfChannel_val channel * 256 + (if opcodeGroup command then 32 else 0)
    + PfOutput_val output * 16.
Proof. destruct channel, output, command; vm_compute; reflexivity. Qed.

(** X7.  The type tag under which [sendPacket] queues a command, and by
    which a call with mixing decides whether to wait, keeps bits 9..8
    and 5..4 of the command.  For a single-output command these are the
    channel, the group of the opcode (speed step or other) and the
    output: two single-output commands have the same tag exactly when
    they agree on all three.  For a combo direct command the tag is the
    channel with bit 4 set, for a combo PWM command the channel and the
    two low bits of the blue value. *)
Theorem task_types (command : Z) (mixDatagrams : bool) (st : State) :
  p_taskType (sendPacket_begin command mixDatagrams st).1 = taskTypeOf command
  ∧ (∀ channel output opcode,
       taskTypeOf (commandValue (SingleOutput channel output opcode))
       = PfChannel_val channel * 256 + (if opcodeGroup opcode then 32 else 0)
         + PfOutput_val output * 16)
  ∧ (∀ channel red blue,
       taskTypeOf (commandValue (ComboDirect channel red blue))
       = PfChannel_val channel * 256 + 16)
  ∧ (∀ channel red blue,
       taskTypeOf (commandValue (ComboPWM channel red blue))
       = PfChannel_val channel * 256 + (PfComboPWM.val blue mod 4) * 16)
  ∧ (∀ channel output opcode channel' output' opcode',
       taskTypeOf (commandValue (SingleOutput channel output opcode))
       = taskTypeOf (commandValue (SingleOutput channel' output' opcode'))
       ↔ channel = channel' ∧ output = output'
         ∧ opcodeGroup opcode = opcodeGroup opcode').
Proof.
  split; [reflexivity |].
  split; [apply taskTypeOf_single |].
  split; [intros channel red blue; destruct channel, red, blue; vm_compute; reflexivity |].
  split; [intros channel red blue; destruct channel, red, blue; vm_compute; reflexivity |].
  intros channel output opcode channel' output' opcode'.
  rewrite !taskTypeOf_single.
  destruct (opcodeGroup opcode), (opcodeGroup opcode'), channel, channel',
    output, output'; cbn [PfChannel_val PfOutput_val]; split;
    solve [ intros H; exfalso; lia
          | intros (H1 & H2 & H3); discriminate
          | intros _; repeat split; reflexivity
          | intros _; reflexivity ].
Qed.

(** ** Edge cases of the toggle, the settings and the connection *)

(** X8.  [addToggle] changes bit 11 of the command and nothing else of
    it, and the toggle of the command's channel and of no other
    channel.  A second command of the same channel restores the stored
    toggles, and its value differs from the first by bit 11 alone. *)
Theorem addToggle_touches_one_channel (command : Z) (st : State) :
  wellFormed st → 0 ≤ command < 2048 →
  let ch := Z.to_nat (channelOf command) in
  let first := addToggle command st in
  let second := addToggle command first.2 in
  first.1 mod 2048 = command
  ∧ channelOf first.1 = channelOf command
  ∧ toggleOf first.1 = readToggle (toggleByChannel first.2) ch
  ∧ readToggle (toggleByChannel first.2) ch = 1 - readToggle (toggleByChannel st) ch
  ∧ (∀ ch', ch' ≠ ch →
       toggleByChannel first.2 !! ch' = toggleByChannel st !! ch')
  ∧ toggleByChannel second.2 = toggleByChannel st
  ∧ Z.abs (second.1 - first.1) = 2048.
Proof.
  intros Hwf Hc ch first second.
  pose proof (addToggle_wellFormed command st Hc Hwf) as Hwf'.
  destruct Hwf as (Hlen & Hids & Hall). destruct Hwf' as (Hlen' & _ & Hall').
  pose proof (addToggle_spec command st Hc Hlen Hall) as E1. cbv zeta in E1.
  pose proof (addToggle_spec command first.2 Hc Hlen' Hall') as E2. cbv zeta in E2.
  fold ch in E1, E2. fold first in E1. fold second in E2.
  destruct (toggle_bits command Hc) as (_ & Hr & Hbits).
  assert (Hlt : (ch < length (toggleByChannel st))%nat) by (unfold ch; lia).
  set (t := readToggle (toggleByChannel st) ch) in *.
  assert (Ht : t = 0 ∨ t = 1) by (apply readToggle_bit; assumption).
  assert (Ht' : 1 - t = 0 ∨ 1 - t = 1) by lia.
  destruct (Hbits (1 - t) Ht') as (_ & Htog & Hchan & Hmod & _).
  assert (Hread : readToggle (toggleByChannel first.2) ch = 1 - t).
  { rewrite E1. cbn [snd toggleByChannel set_toggleByChannel]. unfold readToggle.
    rewrite list_lookup_insert_eq by exact Hlt. reflexivity. }
  rewrite Hread in E2.
  split; [rewrite E1; exact Hmod |].
  split; [rewrite E1; exact Hchan |].
  split; [rewrite Hread, E1; exact Htog |].
  split; [exact Hread |].
  split.
  { intros ch' Hne. rewrite E1. cbn [snd toggleByChannel set_toggleByChannel].
    apply list_lookup_insert_ne. congruence. }
  split.
  - rewrite E2, E1. cbn [snd toggleByChannel set_toggleByChannel].
    rewrite list_insert_insert_eq.
    apply list_insert_id. unfold t, readToggle.
    destruct (lookup_lt_is_Some_2 _ _ Hlt) as [b Hb]. rewrite Hb.
    cbn [default id]. f_equal. lia.
  - rewrite E2, E1. cbn [fst]. lia.
Qed.

Lemma addToggle_touches_one_channel_witness :
  toggleByChannel (addToggle (bin "100010001") initialState).2 = [1; 0; 1; 1]
  ∧ toggleByChannel
      (addToggle (bin "100010001") (addToggle (bin "100010001") initialState).2).2
    = toggleByChannel initialState.
Proof.
  split; [reflexivity |].
  assert (Hc : 0 ≤ bin "100010001" < 2048) by (change (0 ≤ 273 < 2048); lia).
  pose proof (addToggle_touches_one_channel (bin "100010001") initialState
                initialState_wellFormed Hc) as H.
  cbv zeta in H. destruct H as (_ & _ & _ & _ & _ & H & _). exact H.
Defined.

(** X9.  With [signalRepeatNumber] set to 0 or less, a call of
    [sendPacket] that does not pause queues nothing, so nothing will be
    transmitted for it; yet it flips the toggle of the channel and, when
    no worker is marked as working, still starts one, which finds the
    queue as it was. *)
Theorem no_repetitions_no_tasks (command : Z) (mixDatagrams : bool) (st : State) :
  wellFormed st → 0 ≤ command < 2048 →
  signalRepeatNumber (settings st) ≤ 0 →
  mixDatagrams = false ∨ sameTypeQueued (taskTypeOf command) st = false →
  let ch := Z.to_nat (channelOf command) in
  ∃ st',
    sendPacket command mixDatagrams st = Returned st'
    ∧ tasks st' = tasks st
    ∧ emitted st' = emitted st
    ∧ readToggle (toggleByChannel st') ch = 1 - readToggle (toggleByChannel st) ch
    ∧ schedulerIsWorking st' = true
    ∧ background st' =
        (if schedulerIsWorking st then background st
         else background st ++ [mixDatagrams])
    ∧ (tasks st = [] → ∀ random,
         worker_iteration mixDatagrams random st' =
           Some (WorkerFinished (set_schedulerIsWorking false st'))).
Proof.
  intros Hwf Hc Hn Hfree ch.
  set (p := (sendPacket_begin command mixDatagrams st).1).
  set (st1 := (sendPacket_begin command mixDatagrams st).2).
  assert (Hcall : sendPacket command mixDatagrams st = Returned (sendPacket_enqueue p st1)).
  { unfold sendPacket, sendPacket_wait. fold p st1.
    change (sendPacket_begin command mixDatagrams st) with (p, st1).
    cbn iota. change (p_mixDatagrams p) with mixDatagrams.
    change (p_taskType p) with (taskTypeOf command).
    rewrite (sameTypeQueued_tasks (taskTypeOf command) st st1 eq_refl).
    destruct Hfree as [-> | ->]; [reflexivity | rewrite andb_false_r; reflexivity]. }
  exists (sendPacket_enqueue p st1).
  destruct (sendPacket_enqueue_frame p st1) as (_ & Htog & _ & _ & _ & _ & Hem).
  destruct (sendPacket_enqueue_worker p st1) as (Hw & Hbg).
  assert (Htasks : tasks (sendPacket_enqueue p st1) = tasks st).
  { rewrite sendPacket_enqueue_tasks.
    change (settings st1) with (settings st). change (tasks st1) with (tasks st).
    replace (Z.to_nat (signalRepeatNumber (settings st))) with 0%nat by lia.
    apply app_nil_r. }
  split; [exact Hcall |]. split; [exact Htasks |]. split; [exact Hem |].
  split.
  { rewrite Htog. destruct Hwf as (Hlen & _ & Hall).
    unfold st1, sendPacket_begin.
    rewrite (addToggle_spec command st Hc Hlen Hall).
    cbn [snd toggleByChannel set_toggleByChannel]. fold ch. unfold readToggle at 1.
    destruct (toggle_bits command Hc) as (_ & Hr & _).
    rewrite list_lookup_insert_eq by (unfold ch; lia). reflexivity. }
  split; [exact Hw |]. split; [exact Hbg |].
  intros Hempty random. apply worker_iteration_empty. congruence.
Qed.

Lemma no_repetitions_no_tasks_witness :
  ∃ st',
    sendPacket (bin "1000111") true (advancedSettings 500 0 0 initialState) = Returned st'
    ∧ tasks st' = []
    ∧ toggleByChannel st' = [0; 1; 1; 1]
    ∧ background st' = [true].
Proof.
  assert (Hwf : wellFormed (advancedSettings 500 0 0 initialState))
    by exact initialState_wellFormed.
  assert (Hc : 0 ≤ bin "1000111" < 2048) by (change (0 ≤ 71 < 2048); lia).
  destruct (no_repetitions_no_tasks (bin "1000111") true
              (advancedSettings 500 0 0 initialState) Hwf Hc ltac:(cbn; lia)
              (or_intror eq_refl)) as (st' & Hcall & Ht & _ & _ & _ & Hbg & _).
  exists st'. split; [exact Hcall |]. split; [exact Ht |].
  split; [| exact Hbg].
  change (sendPacket (bin "1000111") true (advancedSettings 500 0 0 initialState))
    with (Returned (sendPacket_enqueue
                      (sendPacket_begin (bin "1000111") true
                         (advancedSettings 500 0 0 initialState)).1
                      (sendPacket_begin (bin "1000111") true
                         (advancedSettings 500 0 0 initialState)).2)) in Hcall.
  injection Hcall as <-. reflexivity.
Defined.

(** ** Connecting the diode *)

Lemma InfraredLed_new_correction p start end_ :
  - 2 ^ 31 ≤ end_ - start - 64 < 2 ^ 31 →
  (InfraredLed_new p start end_).1 = mkInfraredLed p ((end_ - start - 64) ÷ 64) false.
Proof.
  intros Hrange. unfold InfraredLed_new. cbv zeta. cbn [fst]. f_equal.
  unfold JS.idiv. change (32 * 2) with 64.
  rewrite (toInt32_small 64) by lia.
  rewrite (toInt32_small (end_ - start - 64)) by lia.
  apply toInt32_small. Z.to_euclidean_division_equations. lia.
Qed.

(** X10.  The calibration rounds toward zero, so a measurement within
    64 microseconds of the nominal 64 gives no correction at all.  As
    long as the 32 warm-up pulses took less than 16896 microseconds,
    every pulse of every frame has a mark of 158 and a space that is
    positive; from 16896 microseconds on, the space commanded for a 0
    bit is zero or negative. *)
Theorem calibration_bounds (p : Z) (dbg : bool) (start end_ : Z) (st : State) :
  let elapsed := end_ - start in
  - 2 ^ 31 ≤ elapsed - 64 < 2 ^ 31 →
  ∃ led,
    irLed (connectIrSenderLed p dbg start end_ st) = Some led
    ∧ (0 < elapsed < 128 → waitCorrection led = 0)
    ∧ (elapsed < 16896 →
         ∀ datagram,
           Forall (λ hl, hl.1 = 158 ∧ 0 < hl.2) (pulsesOf (sendDatagram led datagram)))
    ∧ (16896 ≤ elapsed → PF_LOW_BIT led ≤ 0).
Proof.
  intros elapsed Hrange. unfold elapsed in *.
  pose proof (InfraredLed_new_correction p start end_ Hrange) as Hled.
  exists (mkInfraredLed p ((end_ - start - 64) ÷ 64) dbg).
  split.
  { unfold connectIrSenderLed.
    destruct (InfraredLed_new p start end_) as [led evs]. cbn [fst] in Hled.
    rewrite Hled. reflexivity. }
  split; [| split].
  - intros H. cbn [waitCorrection]. Z.to_euclidean_division_equations. lia.
  - intros H datagram. rewrite sendDatagram_pulses.
    assert (Hwc : (end_ - start - 64) ÷ 64 ≤ 262)
      by (Z.to_euclidean_division_equations; lia).
    unfold frame, PF_START_BIT, PF_LOW_BIT, PF_HIGH_BIT, PF_MARK_BIT.
    cbn [waitCorrection].
    apply Forall_app. split; [apply Forall_singleton; cbn [fst snd]; lia |].
    apply Forall_app. split; [| apply Forall_singleton; cbn [fst snd]; lia].
    apply Forall_fmap, Forall_true. intros b. unfold compose. cbn [fst snd].
    destruct b; lia.
  - intros H. unfold PF_LOW_BIT, PF_MARK_BIT. cbn [waitCorrection].
    assert (Hwc : 263 ≤ (end_ - start - 64) ÷ 64)
      by (Z.to_euclidean_division_equations; lia).
    lia.
Qed.

Lemma calibration_bounds_witness :
  ∃ led,
    irLed (connectIrSenderLed 0 false 100 5000 initialState) = Some led
    ∧ (0 < 5000 - 100 < 128 → waitCorrection led = 0)
    ∧ (5000 - 100 < 16896 →
         ∀ datagram,
           Forall (λ hl, hl.1 = 158 ∧ 0 < hl.2) (pulsesOf (sendDatagram led datagram)))
    ∧ (16896 ≤ 5000 - 100 → PF_LOW_BIT led ≤ 0).
Proof.
  apply (calibration_bounds 0 false 100 5000 initialState). lia.
Defined.

(** X11.  Commands can be issued before the diode is connected, but the
    worker cannot execute a task then: its iteration fails.
    [connectIrSenderLed] touches nothing but the diode and the emitted
    events, so the queue, the toggles, the timers and the worker
    survive it, also when it is called again; a task queued before is
    transmitted with the diode, pin and [debug] flag connected when the
    worker executes it. *)
Theorem tasks_use_the_connected_diode (p : Z) (dbg : bool) (start end_ : Z)
    (st : State) (mixDatagrams : bool) (random : Q) :
  tasks st ≠ [] → isRandom random = true →
  let st' := connectIrSenderLed p dbg start end_ st in
  let i := Z.to_nat (worker_index mixDatagrams random st) in
  (irLed st = None → worker_iteration mixDatagrams random st = None)
  ∧ tasks st' = tasks st ∧ toggleByChannel st' = toggleByChannel st
  ∧ schedulerIsWorking st' = schedulerIsWorking st ∧ background st' = background st
  ∧ intervals st' = intervals st ∧ intervalId st' = intervalId st
  ∧ settings st' = settings st
  ∧ ∃ t led,
      irLed st' = Some led ∧ pin led = p ∧ debug led = dbg
      ∧ tasks st !! i = Some t
      ∧ worker_iteration mixDatagrams random st' =
          Some (WorkerPaused (afterSignalPause (settings st))
                  (set_tasks (delete i (tasks st))
                     (set_emitted (emitted st' ++ sendCommand led (handler t)) st'))).
Proof.
  intros Hne Hr st' i.
  split; [intros Hled; apply worker_iteration_needs_led; assumption |].
  assert (Hfields : tasks st' = tasks st ∧ settings st' = settings st).
  { unfold st', connectIrSenderLed.
    destruct (InfraredLed_new p start end_) as [led evs]. split; reflexivity. }
  destruct Hfields as [Ht Hs].
  assert (Hled : ∃ wc, irLed st' = Some (mkInfraredLed p wc dbg)).
  { unfold st', connectIrSenderLed, InfraredLed_new. cbv zeta.
    eexists. reflexivity. }
  destruct Hled as [wc Hled].
  repeat (split; [unfold st', connectIrSenderLed;
                  destruct (InfraredLed_new p start end_) as [led evs]; reflexivity |]).
  assert (Hne' : tasks st' ≠ []) by (rewrite Ht; exact Hne).
  destruct (worker_iteration_step mixDatagrams random st' _ Hne' Hr Hled)
    as (t & Hlook & Hiter).
  assert (Hidx : worker_index mixDatagrams random st' = worker_index mixDatagrams random st).
  { unfold worker_index. rewrite Ht. reflexivity. }
  rewrite Hidx in Hlook, Hiter. fold i in Hlook, Hiter. rewrite Ht in Hlook, Hiter.
  rewrite Hs in Hiter.
  exists t, (mkInfraredLed p wc dbg).
  split; [exact Hled |]. split; [reflexivity |]. split; [reflexivity |].
  split; [exact Hlook | exact Hiter].
Qed.

Lemma tasks_use_the_connected_diode_witness :
  worker_iteration false 0
    (comboDirectMode Channel1 PfComboDirect.Forward PfComboDirect.Float initialState)
  = None
  ∧ tasks (connectIrSenderLed 3 true 0 64
             (comboDirectMode Channel1 PfComboDirect.Forward PfComboDirect.Float
                initialState))
    = replicate 5 (mkTask (bin "10001") (bin "10000")).
Proof.
  assert (Hne : tasks (comboDirectMode Channel1 PfComboDirect.Forward
                         PfComboDirect.Float initialState) ≠ [])
    by (vm_compute; discriminate).
  pose proof (tasks_use_the_connected_diode 3 true 0 64
                (comboDirectMode Channel1 PfComboDirect.Forward PfComboDirect.Float
                   initialState) false 0 Hne eq_refl) as H.
  cbv zeta in H. destruct H as (Hfail & Htasks & _).
  split; [apply Hfail; reflexivity |].
  rewrite Htasks. reflexivity.
Defined.

(** ** The worker on its own *)

(** X12.  Left alone with enough iterations, the worker transmits every
    queued task exactly once and ends with an empty queue and
    [schedulerIsWorking] cleared: the events it emits are the
    transmissions of a rearrangement of the queue, and of the queue in
    its own order when the worker has captured [mixDatagrams = false]. *)
Theorem worker_transmits_every_task_once (mixDatagrams : bool) (randoms : list Q) :
  ∀ (st : State) (led : InfraredLed),
  irLed st = Some led →
  Forall (λ random, isRandom random = true) randoms →
  (length (tasks st) < length randoms)%nat →
  ∃ order st',
    workerLoop mixDatagrams randoms st = Some st'
    ∧ order ≡ₚ tasks st
    ∧ (mixDatagrams = false → order = tasks st)
    ∧ emitted st' = emitted st ++ transmissions led order
    ∧ tasks st' = []
    ∧ schedulerIsWorking st' = false
    ∧ toggleByChannel st' = toggleByChannel st
    ∧ intervals st' = intervals st.
Proof.
  induction randoms as [| random randoms IH]; intros st led Hled Hrs Hlen;
    [cbn [length] in Hlen; lia |].
  apply Forall_cons in Hrs as [Hr Hrs]. cbn [workerLoop].
  destruct (decide (tasks st = [])) as [Hempty | Hne].
  - rewrite (worker_iteration_empty _ _ _ Hempty).
    exists [], (set_schedulerIsWorking false st).
    split; [reflexivity |]. rewrite Hempty.
    split; [reflexivity |]. split; [reflexivity |].
    split; [cbn; symmetry; apply app_nil_r |].
    split; [exact Hempty |]. repeat split.
  - destruct (worker_iteration_step mixDatagrams random st led Hne Hr Hled)
      as (t & Ht & Hiter).
    rewrite Hiter.
    set (i := Z.to_nat (worker_index mixDatagrams random st)) in *.
    set (st1 := set_tasks (delete i (tasks st))
                  (set_emitted (emitted st ++ sendCommand led (handler t)) st)).
    assert (Hlen1 : (length (tasks st1) < length randoms)%nat).
    { cbn [st1 tasks set_tasks].
      rewrite (length_delete _ _ (mk_is_Some _ _ Ht)).
      apply lookup_lt_Some in Ht. cbn [length] in Hlen. lia. }
    destruct (IH st1 led Hled Hrs Hlen1)
      as (order & st' & Hrun & Hperm & Hfifo & Hem & Hq & Hw & Htog & Hiv).
    exists (t :: order), st'.
    split; [exact Hrun |].
    split.
    { rewrite Hperm. cbn [st1 tasks set_tasks]. symmetry.
      apply delete_Permutation. exact Ht. }
    split.
    { intros ->. rewrite (Hfifo eq_refl). cbn [st1 tasks set_tasks].
      unfold i, worker_index in *. cbn [Z.to_nat] in *.
      destruct (tasks st) as [| t0 q]; [discriminate |].
      cbn in Ht. injection Ht as ->. reflexivity. }
    split.
    { rewrite Hem. cbn [st1 emitted set_tasks set_emitted].
      unfold transmissions. rewrite bind_cons, <- app_assoc. reflexivity. }
    repeat split; assumption.
Qed.

Lemma worker_transmits_every_task_once_witness :
  ∃ order st',
    workerLoop true [1 # 2; 0 # 1; 3 # 4; 0 # 1; 0 # 1; 0 # 1]
      (stateOf (singleOutputMode Channel1 Red PfSingleOutput.Forward7
                  (connectIrSenderLed 0 false 100 5000 initialState)))
      = Some st'
    ∧ order ≡ₚ replicate 5 (mkTask (bin "1000111") 0)
    ∧ tasks st' = []
    ∧ schedulerIsWorking st' = false.
Proof.
  destruct (worker_transmits_every_task_once true [1 # 2; 0 # 1; 3 # 4; 0 # 1; 0 # 1; 0 # 1]
              (stateOf (singleOutputMode Channel1 Red PfSingleOutput.Forward7
                          (connectIrSenderLed 0 false 100 5000 initialState)))
              (mkInfraredLed 0 75 false) eq_refl)
    as (order & st' & Hrun & Hperm & _ & _ & Hq & Hw & _).
  - repeat (apply Forall_cons; split; [reflexivity |]). apply Forall_nil. exact I.
  - vm_compute. lia.
  - exists order, st'. repeat split; assumption.
Defined.

(** ** From a call to the diode *)

Lemma workerLoop_same_tasks mixDatagrams randoms :
  ∀ (st : State) (led : InfraredLed) (n : nat) (t : task),
  irLed st = Some led →
  Forall (λ random, isRandom random = true) randoms →
  tasks st = replicate n t →
  (n < length randoms)%nat →
  ∃ st',
    workerLoop mixDatagrams randoms st = Some st'
    ∧ emitted st' = emitted st ++ concat (replicate n (sendCommand led (handler t)))
    ∧ tasks st' = []
    ∧ schedulerIsWorking st' = false
    ∧ toggleByChannel st' = toggleByChannel st.
Proof.
  induction randoms as [| random randoms IH]; intros st led n t Hled Hrs Hq Hlen;
    [cbn [length] in Hlen; lia |].
  apply Forall_cons in Hrs as [Hr Hrs]. cbn [workerLoop].
  destruct n as [| n].
  - cbn [replicate] in Hq. rewrite (worker_iteration_empty _ _ _ Hq).
    exists (set_schedulerIsWorking false st).
    split; [reflexivity |].
    split; [cbn; symmetry; apply app_nil_r |].
    split; [exact Hq |]. split; reflexivity.
  - assert (Hne : tasks st ≠ []) by (rewrite Hq; discriminate).
    destruct (worker_iteration_step mixDatagrams random st led Hne Hr Hled)
      as (t' & Ht' & Hiter).
    rewrite Hiter.
    set (i := Z.to_nat (worker_index mixDatagrams random st)) in *.
    assert (Hi : (i < S n)%nat).
    { apply lookup_lt_Some in Ht'. rewrite Hq, length_replicate in Ht'. exact Ht'. }
    rewrite Hq in Ht'. apply lookup_replicate in Ht' as [-> _].
    set (st1 := set_tasks (delete i (tasks st))
                  (set_emitted (emitted st ++ sendCommand led (handler t)) st)).
    assert (Hq1 : tasks st1 = replicate n t).
    { cbn [st1 tasks set_tasks]. rewrite Hq.
      apply list_eq_same_length with n.
      - apply length_replicate.
      - rewrite length_delete by (exists t; apply lookup_replicate_2; exact Hi).
        rewrite length_replicate. lia.
      - intros j x y Hj Hx Hy.
        apply list_elem_of_lookup_2, list_elem_of_delete_inv, elem_of_replicate_inv in Hx.
        apply lookup_replicate in Hy. destruct Hy. congruence. }
    cbn [length] in Hlen.
    destruct (IH st1 led n t Hled Hrs Hq1 ltac:(lia))
      as (st' & Hrun & Hem & Hq' & Hw & Htog).
    exists st'. split; [exact Hrun |].
    split.
    { rewrite Hem. cbn [st1 emitted set_tasks set_emitted replicate concat].
      rewrite <- app_assoc. reflexivity. }
    repeat split; assumption.
Qed.

Lemma sendPacket_unfold command mixDatagrams st :
  sendPacket command mixDatagrams st =
    sendPacket_wait (sendPacket_begin command mixDatagrams st).1
      (sendPacket_begin command mixDatagrams st).2.
Proof. unfold sendPacket. destruct (sendPacket_begin _ _ _). reflexivity. Qed.

Lemma issue_unfold c st :
  match c with
  | SingleOutput channel output command =>
      issue c st =
        sendPacket (commandValue c)
          (singleOutputMode_mixDatagrams (PfSingleOutput.val command)) st
  | ComboDirect channel red blue =>
      issue c st =
        Returned (repeatCommand (PfChannel_val channel)
                    ((PfComboDirect.val blue .<< 2) .| PfComboDirect.val red)
                    (commandValue c) [0; 15] st)
  | ComboPWM channel red blue =>
      issue c st =
        Returned (repeatCommand (PfChannel_val channel)
                    ((PfComboPWM.val blue .<< 4) .| PfComboPWM.val red)
                    (commandValue c) [0; 136] st)
  end.
Proof.
  destruct c; unfold issue, singleOutputMode, comboDirectMode, comboPWMMode,
    commandValue; cbv zeta; reflexivity.
Qed.

(** What [repeatCommand] leaves alone, and the worker it starts. *)
Lemma repeatCommand_frame channel command datagram excluded st :
  let st' := repeatCommand channel command datagram excluded st in
  irLed st' = irLed st
  ∧ settings st' = settings st
  ∧ emitted st' = emitted st
  ∧ schedulerIsWorking st' = true
  ∧ background st' =
      (if schedulerIsWorking st then background st else background st ++ [false]).
Proof.
  cbv zeta.
  destruct (repeatCommand_fields channel command datagram excluded st)
    as (_ & _ & H1 & H2 & H3 & H4 & H5 & _).
  auto.
Qed.

(** A call made while nothing is queued and no worker runs. *)
Lemma issue_when_idle c st :
  wellFormed st → tasks st = [] → schedulerIsWorking st = false →
  let ch := Z.to_nat (PfChannel_val (commandChannel c)) in
  let toggle := 1 - readToggle (toggleByChannel st) ch in
  ∃ st1 mixDatagrams,
    issue c st = Returned st1
    ∧ tasks st1 =
        replicate (Z.to_nat (signalRepeatNumber (settings st)))
          (mkTask (toggle * 2048 + commandValue c) (taskTypeOf (commandValue c)))
    ∧ background st1 = background st ++ [mixDatagrams]
    ∧ irLed st1 = irLed st
    ∧ emitted st1 = emitted st
    ∧ toggleByChannel st1 = <[ch := toggle]> (toggleByChannel st).
Proof.
  intros Hwf Hq Hw ch toggle.
  destruct (commandValue_fields c) as (Hv & Hch).
  pose proof Hwf as (Hlen & Hids & Hall).
  pose proof (addToggle_spec (commandValue c) st Hv Hlen Hall) as Hadd.
  cbv zeta in Hadd. rewrite Hch in Hadd. fold ch in Hadd. fold toggle in Hadd.
  pose proof (issue_unfold c st) as Hissue.
  destruct c as [channel output command | channel red blue | channel red blue].
  - set (mix := singleOutputMode_mixDatagrams (PfSingleOutput.val command)) in *.
    set (v := commandValue (SingleOutput channel output command)) in *.
    rewrite sendPacket_unfold in Hissue.
    destruct (sendPacket_wait_cases (sendPacket_begin v mix st).1
                (sendPacket_begin v mix st).2) as [(_ & Hsame & _) | (_ & Hret)].
    { exfalso. revert Hsame. unfold sendPacket_begin, sameTypeQueued. rewrite Hadd.
      cbn [fst snd tasks set_toggleByChannel]. rewrite Hq. discriminate. }
    rewrite Hret in Hissue.
    exists (sendPacket_enqueue (sendPacket_begin v mix st).1 (sendPacket_begin v mix st).2), mix.
    split; [exact Hissue |].
    rewrite sendPacket_enqueue_tasks.
    destruct (sendPacket_enqueue_worker (sendPacket_begin v mix st).1
                (sendPacket_begin v mix st).2) as (_ & ->).
    destruct (sendPacket_enqueue_frame (sendPacket_begin v mix st).1
                (sendPacket_begin v mix st).2) as (-> & -> & _ & _ & _ & _ & ->).
    unfold sendPacket_begin. rewrite Hadd.
    cbn [fst snd tasks settings schedulerIsWorking background irLed emitted
           toggleByChannel set_toggleByChannel p_command p_taskType p_mixDatagrams].
    rewrite Hq, Hw. unfold taskTypeOf.
    repeat (split; [reflexivity |]). reflexivity.
  - assert (Hlt : (Z.to_nat (PfChannel_val channel) < length (intervalId st))%nat)
      by (rewrite Hids; destruct channel; cbn; lia).
    destruct (repeatCommand_spec (PfChannel_val channel)
                ((PfComboDirect.val blue .<< 2) .| PfComboDirect.val red)
                (commandValue (ComboDirect channel red blue)) [0; 15] st Hlt)
      as (Htasks & Htog & _).
    destruct (repeatCommand_frame (PfChannel_val channel)
                ((PfComboDirect.val blue .<< 2) .| PfComboDirect.val red)
                (commandValue (ComboDirect channel red blue)) [0; 15] st)
      as (Hled & _ & Hem & _ & Hbg).
    eexists _, false. split; [exact Hissue |].
    rewrite Htasks, Htog, Hbg, Hled, Hem, Hadd, Hq, Hw. unfold taskTypeOf.
    repeat (split; [reflexivity |]). reflexivity.
  - assert (Hlt : (Z.to_nat (PfChannel_val channel) < length (intervalId st))%nat)
      by (rewrite Hids; destruct channel; cbn; lia).
    destruct (repeatCommand_spec (PfChannel_val channel)
                ((PfComboPWM.val blue .<< 4) .| PfComboPWM.val red)
                (commandValue (ComboPWM channel red blue)) [0; 136] st Hlt)
      as (Htasks & Htog & _).
    destruct (repeatCommand_frame (PfChannel_val channel)
                ((PfComboPWM.val blue .<< 4) .| PfComboPWM.val red)
                (commandValue (ComboPWM channel red blue)) [0; 136] st)
      as (Hled & _ & Hem & _ & Hbg).
    eexists _, false. split; [exact Hissue |].
    rewrite Htasks, Htog, Hbg, Hled, Hem, Hadd, Hq, Hw. unfold taskTypeOf.
    repeat (split; [reflexivity |]). reflexivity.
Qed.

(** X13.  A command function called on a connected transmitter with an
    empty queue and no worker returns at once and starts the worker;
    left to run, the worker transmits [signalRepeatNumber] times the
    same frame, the datagram of the command value with the flipped
    toggle of its channel in bit 11, and stops with an empty queue and
    [schedulerIsWorking] cleared; the flipped toggle is kept for the
    channel. *)
Theorem issued_command_is_transmitted (c : Command) (st : State)
    (led : InfraredLed) (randoms : list Q) :
  wellFormed st →
  irLed st = Some led →
  tasks st = [] →
  schedulerIsWorking st = false →
  Forall (λ random, isRandom random = true) randoms →
  (Z.to_nat (signalRepeatNumber (settings st)) < length randoms)%nat →
  let n := Z.to_nat (signalRepeatNumber (settings st)) in
  let ch := Z.to_nat (PfChannel_val (commandChannel c)) in
  let toggle := 1 - readToggle (toggleByChannel st) ch in
  let value := toggle * 2048 + commandValue c in
  ∃ st1 mixDatagrams st2,
    issue c st = Returned st1
    ∧ background st1 = background st ++ [mixDatagrams]
    ∧ workerLoop mixDatagrams randoms st1 = Some st2
    ∧ emitted st2 = emitted st ++ concat (replicate n (sendCommand led value))
    ∧ pulsesOf (sendCommand led value) =
        frame PF_MARK_BIT (PF_START_BIT led) (PF_LOW_BIT led) (PF_HIGH_BIT led)
          (datagramOf value)
    ∧ tasks st2 = []
    ∧ schedulerIsWorking st2 = false
    ∧ readToggle (toggleByChannel st2) ch = toggle.
Proof.
  intros Hwf Hled Hq Hw Hrs Hlen n ch toggle value.
  destruct (issue_when_idle c st Hwf Hq Hw)
    as (st1 & mix & Hissue & Htasks & Hbg & Hled1 & Hem1 & Htog1).
  fold ch in Htasks, Htog1. fold toggle in Htasks, Htog1. fold value in Htasks.
  fold n in Htasks.
  rewrite Hled in Hled1.
  destruct (workerLoop_same_tasks mix randoms st1 led n _ Hled1 Hrs Htasks Hlen)
    as (st2 & Hrun & Hem2 & Hq2 & Hw2 & Htog2).
  cbn [handler] in Hem2.
  destruct (commandValue_fields c) as (Hv & Hch).
  destruct Hwf as (Hlen4 & _ & Hall).
  assert (Hlt : (ch < length (toggleByChannel st))%nat).
  { unfold ch. rewrite Hlen4. destruct (commandChannel c); cbn; lia. }
  assert (Ht : toggle = 0 ∨ toggle = 1).
  { destruct (readToggle_bit _ ch Hall Hlt) as [E | E]; unfold toggle; lia. }
  assert (Hvalue : 0 ≤ value < 4096) by (unfold value; lia).
  exists st1, mix, st2.
  split; [exact Hissue |]. split; [exact Hbg |]. split; [exact Hrun |].
  split; [rewrite Hem2, Hem1; reflexivity |].
  split.
  { destruct (sendCommand_encodes value Hvalue) as (Henc & _).
    unfold sendCommand. cbv zeta. rewrite Henc. apply sendDatagram_pulses. }
  split; [exact Hq2 |]. split; [exact Hw2 |].
  rewrite Htog2, Htog1. unfold readToggle.
  rewrite list_lookup_insert_eq by exact Hlt. reflexivity.
Qed.

Lemma issued_command_is_transmitted_witness :
  ∃ st1 mixDatagrams st2,
    issue (ComboPWM Channel2 PfComboPWM.Forward7 PfComboPWM.Float)
      (connectIrSenderLed 0 false 100 5000 initialState) = Returned st1
    ∧ workerLoop mixDatagrams (replicate 6 (0 # 1)) st1 = Some st2
    ∧ emitted st2 =
        emitted (connectIrSenderLed 0 false 100 5000 initialState)
          ++ concat (replicate 5 (sendCommand (mkInfraredLed 0 75 false)
                                    (bin "010100000111")))
    ∧ tasks st2 = [].
Proof.
  destruct (issued_command_is_transmitted
              (ComboPWM Channel2 PfComboPWM.Forward7 PfComboPWM.Float)
              (connectIrSenderLed 0 false 100 5000 initialState)
              (mkInfraredLed 0 75 false) (replicate 6 (0 # 1)))
    as (st1 & mix & st2 & Hissue & _ & Hrun & Hem & _ & Hq & _).
  - split; [reflexivity |]. split; [reflexivity |].
    repeat (apply Forall_cons; split; [auto |]). apply Forall_nil. exact I.
  - reflexivity.
  - reflexivity.
  - reflexivity.
  - repeat (apply Forall_cons; split; [reflexivity |]). apply Forall_nil. exact I.
  - vm_compute. lia.
  - exists st1, mix, st2. repeat split; assumption.
Defined.

(** ** The recurring timers *)

Lemma filter_filter_absorb {A} (P Q : A → Prop) `{∀ x, Decision (P x)}
    `{∀ x, Decision (Q x)} (l : list A) :
  (∀ x, x ∈ l → P x → Q x) → filter P (filter Q l) = filter P l.
Proof.
  induction l as [| x l IH]; intros Himp; [reflexivity |].
  assert (IH' : filter P (filter Q l) = filter P l)
    by (apply IH; intros y Hy; apply Himp; right; exact Hy).
  rewrite (filter_cons Q). destruct (decide (Q x)) as [Hq | Hq].
  - rewrite !filter_cons. destruct (decide (P x)); rewrite IH'; reflexivity.
  - rewrite filter_cons. destruct (decide (P x)) as [Hp | Hp]; [| exact IH'].
    exfalso. apply Hq, Himp; [left | exact Hp].
Qed.

Lemma filter_none {A} (P : A → Prop) `{∀ x, Decision (P x)} (l : list A) :
  (∀ x, x ∈ l → ¬ P x) → filter P l = [].
Proof.
  intros Hnone. destruct (filter P l) as [| x k] eqn:E; [reflexivity |].
  exfalso. assert (Hx : x ∈ filter P l) by (rewrite E; left).
  apply list_elem_of_filter in Hx as [Hp Hx]. exact (Hnone x Hx Hp).
Qed.

(** The timers and the handles [repeatCommand] leaves. *)
Lemma repeatCommand_timers channel command datagram excluded st :
  let ch := Z.to_nat channel in
  let st' := repeatCommand channel command datagram excluded st in
  let period := repeatCommandAfter (settings st) in
  let next := match last (cancelled ch st) with
              | Some iv => iv_id iv + 1
              | None => 1
              end in
  intervals st' =
    (if existsb (λ x, x =? command) excluded then cancelled ch st
     else if period <=? 0 then cancelled ch st
     else cancelled ch st ++ [mkInterval next datagram period])
  ∧ intervalId st' =
      (if existsb (λ x, x =? command) excluded then clearedIds ch st
       else <[ch := Some (if period <? 0 then 0 else next)]> (clearedIds ch st)).
Proof.
  cbv zeta.
  destruct (repeatCommand_fields channel command datagram excluded st)
    as (_ & _ & _ & _ & _ & _ & _ & Hivs & Hids).
  split; assumption.
Qed.

Lemma sorted_filter {A} (R : relation A) (P : A → Prop) `{∀ x, Decision (P x)}
    (l : list A) :
  StronglySorted R l → StronglySorted R (filter P l).
Proof.
  induction 1 as [| x l Hl IH Hx]; [constructor |].
  rewrite filter_cons. destruct (decide (P x)); [| exact IH].
  constructor; [exact IH |].
  rewrite Forall_forall in Hx |- *. intros y Hy.
  apply list_elem_of_filter in Hy as [_ Hy]. auto.
Qed.

(** Handles that grow along the list are pairwise different. *)
Lemma sorted_inj (l : list Interval) x y :
  StronglySorted (λ a b, iv_id a < iv_id b) l →
  x ∈ l → y ∈ l → iv_id x = iv_id y → x = y.
Proof.
  induction 1 as [| z l Hl IH Hz]; intros Hx Hy Heq; [inversion Hx |].
  rewrite Forall_forall in Hz.
  apply elem_of_cons in Hx as [-> | Hx]; apply elem_of_cons in Hy as [-> | Hy].
  - reflexivity.
  - pose proof (Hz y Hy). lia.
  - pose proof (Hz x Hx). lia.
  - auto.
Qed.

Lemma sorted_NoDup (l : list Interval) :
  StronglySorted (λ a b, iv_id a < iv_id b) l → NoDup (iv_id <$> l).
Proof.
  induction 1 as [| z l Hl IH Hz]; [constructor |].
  rewrite fmap_cons. constructor; [| exact IH].
  rewrite Forall_forall in Hz. intros Hin.
  apply list_elem_of_fmap in Hin as (y & Heq & Hy). pose proof (Hz y Hy). lia.
Qed.

(** The handle after that of the last timer is above every handle. *)
Lemma sorted_last (l : list Interval) x :
  StronglySorted (λ a b, iv_id a < iv_id b) l → x ∈ l →
  iv_id x < match last l with Some iv => iv_id iv + 1 | None => 1 end.
Proof.
  induction 1 as [| z l Hl IH Hz]; intros Hx; [inversion Hx |].
  rewrite Forall_forall in Hz. rewrite last_cons.
  destruct (last l) as [y |] eqn:Elast.
  - apply elem_of_cons in Hx as [-> | Hx]; [| auto].
    pose proof (Hz y (last_Some_elem_of _ _ Elast)). lia.
  - apply last_None in Elast. subst l.
    apply elem_of_cons in Hx as [-> | Hx]; [lia | inversion Hx].
Qed.

Lemma truthy_Some (v : option (option Z)) id :
  truthy v = Some id ↔ v = Some (Some id) ∧ id ≠ 0.
Proof.
  unfold truthy. destruct v as [[x |] |]; [| split; [discriminate | intros [? _]; discriminate] ..].
  destruct (Z.eqb_spec x 0) as [-> | Hne]; split.
  - discriminate.
  - intros [E Hid]. congruence.
  - intros E. injection E as <-. auto.
  - intros [E _]. congruence.
Qed.

(** Cancelling the timer a channel holds keeps the timers consistent and
    leaves that channel without timer and without handle.  When the
    handle kept for the channel is that of its own timer, the timers of
    the other channels stay. *)
Lemma cancel_consistent ivs ids ch :
  consistent ivs ids →
  let ivs' := match truthy (ids !! ch) with
              | Some id => filter (λ iv, iv_id iv ≠ id) ivs
              | None => ivs
              end in
  let ids' := match truthy (ids !! ch) with
              | Some _ => <[ch := None]> ids
              | None => ids
              end in
  consistent ivs' ids'
  ∧ (∀ iv, iv ∈ ivs' → timerChannel iv ≠ ch)
  ∧ (∀ iv, iv ∈ ivs' → iv ∈ ivs)
  ∧ truthy (ids' !! ch) = None
  ∧ ((∀ id, ids !! ch = Some (Some id) → id ≠ 0 →
        ∃ iv, iv ∈ ivs ∧ iv_id iv = id ∧ timerChannel iv = ch) →
     ∀ iv, iv ∈ ivs → timerChannel iv ≠ ch → iv ∈ ivs').
Proof.
  intros (Hsorted & Hpos & Hfwd) ivs' ids'.
  rewrite Forall_forall in Hpos.
  destruct (truthy (ids !! ch)) as [id |] eqn:Etruthy; subst ivs' ids'.
  - apply truthy_Some in Etruthy as [Hid Hid0].
    assert (Hother : ∀ iv, iv ∈ ivs → iv_id iv ≠ id → timerChannel iv ≠ ch).
    { intros iv Hiv Hne Hch. apply Hfwd in Hiv. rewrite Hch, Hid in Hiv. congruence. }
    split; [| split; [| split; [| split]]].
    + split; [apply sorted_filter; exact Hsorted |]. split.
      { rewrite Forall_forall. intros iv Hiv.
        apply list_elem_of_filter in Hiv as [_ Hiv]. auto. }
      intros iv Hiv. apply list_elem_of_filter in Hiv as [Hne Hiv].
      rewrite list_lookup_insert_ne by (intros E; exact (Hother iv Hiv Hne (eq_sym E))).
      auto.
    + intros iv Hiv. apply list_elem_of_filter in Hiv as [Hne Hiv]. auto.
    + intros iv Hiv. apply list_elem_of_filter in Hiv as [_ Hiv]. exact Hiv.
    + apply truthy_None_insert.
    + intros Hlive iv Hiv Hch. apply list_elem_of_filter. split; [| exact Hiv].
      intros E. apply Hch.
      destruct (Hlive id Hid Hid0) as (iv0 & Hiv0 & Hid1 & Hch0).
      assert (iv = iv0) by (eapply sorted_inj; eauto; congruence).
      congruence.
  - split; [| split; [| split; [| split]]]; auto.
    + repeat split; try assumption. rewrite Forall_forall. exact Hpos.
    + intros iv Hiv Hch. pose proof (Hfwd iv Hiv) as Hlook. rewrite Hch in Hlook.
      destruct (Hpos iv Hiv) as [Hid _].
      assert (E : truthy (ids !! ch) = Some (iv_id iv))
        by (apply truthy_Some; split; [exact Hlook | lia]).
      congruence.
Qed.

(** Keeping a handle for a channel that has no timer, and starting a
    timer for it. *)
Lemma keep_consistent ivs ids ch v :
  consistent ivs ids →
  (∀ iv, iv ∈ ivs → timerChannel iv ≠ ch) →
  consistent ivs (<[ch := v]> ids).
Proof.
  intros (Hsorted & Hpos & Hfwd) Hfree.
  split; [exact Hsorted |]. split; [exact Hpos |].
  intros iv Hiv.
  rewrite list_lookup_insert_ne by (intros E; exact (Hfree iv Hiv (eq_sym E))).
  auto.
Qed.

Lemma add_consistent ivs ids ch datagram delay :
  consistent ivs ids →
  (∀ iv, iv ∈ ivs → timerChannel iv ≠ ch) →
  (ch < length ids)%nat →
  0 < delay →
  Z.to_nat (channelOf datagram) = ch →
  let next := match last ivs with Some iv => iv_id iv + 1 | None => 1 end in
  0 < next
  ∧ consistent (ivs ++ [mkInterval next datagram delay]) (<[ch := Some next]> ids).
Proof.
  intros (Hsorted & Hpos & Hfwd) Hfree Hlt Hdelay Hch next.
  rewrite Forall_forall in Hpos.
  assert (Hnext : 0 < next).
  { unfold next. destruct (last ivs) as [y |] eqn:Elast; [| lia].
    destruct (Hpos y (last_Some_elem_of _ _ Elast)). lia. }
  split; [exact Hnext |]. split; [| split].
  - apply StronglySorted_app_2; [| exact Hsorted | repeat constructor].
    intros x1 x2 Hx1 Hx2. apply list_elem_of_singleton in Hx2. subst x2.
    cbn [iv_id]. apply sorted_last; assumption.
  - rewrite Forall_forall. intros iv Hiv.
    apply elem_of_app in Hiv as [Hiv | Hiv]; [auto |].
    apply list_elem_of_singleton in Hiv. subst iv. cbn [iv_id iv_delay]. lia.
  - intros iv Hiv. apply elem_of_app in Hiv as [Hiv | Hiv].
    + rewrite list_lookup_insert_ne by (intros E; exact (Hfree iv Hiv (eq_sym E))).
      auto.
    + apply list_elem_of_singleton in Hiv. subst iv.
      unfold timerChannel. cbn [iv_datagram iv_id]. rewrite Hch.
      apply list_lookup_insert_eq. exact Hlt.
Qed.

Lemma clearedIds_length ch st : length (clearedIds ch st) = length (intervalId st).
Proof. unfold clearedIds. destruct (truthy _); [apply length_insert | reflexivity]. Qed.

(** Every call of [repeatCommand] keeps the timers consistent, whatever
    the period is. *)
Lemma repeatCommand_consistent channel command datagram excluded st :
  timersConsistent st →
  (Z.to_nat channel < length (intervalId st))%nat →
  Z.to_nat (channelOf datagram) = Z.to_nat channel →
  timersConsistent (repeatCommand channel command datagram excluded st).
Proof.
  intros Hcons Hlt Hch.
  destruct (repeatCommand_timers channel command datagram excluded st) as (Hivs & Hids).
  destruct (cancel_consistent _ _ (Z.to_nat channel) Hcons)
    as (Hcons' & Hfree & _ & _ & _).
  fold (cancelled (Z.to_nat channel) st) in Hcons', Hfree.
  fold (clearedIds (Z.to_nat channel) st) in Hcons'.
  unfold timersConsistent. rewrite Hivs, Hids.
  destruct (existsb (λ x, x =? command) excluded); [exact Hcons' |].
  destruct (Z.leb_spec (repeatCommandAfter (settings st)) 0) as [Hle | Hpos].
  - apply keep_consistent; assumption.
  - destruct (Z.ltb_spec (repeatCommandAfter (settings st)) 0); [lia |].
    apply add_consistent; try assumption.
    rewrite clearedIds_length. exact Hlt.
Qed.

(** [sendPacket] does not touch the timers. *)
Lemma sendPacket_timers d mixDatagrams st :
  let st' := stateOf (sendPacket d mixDatagrams st) in
  intervals st' = intervals st ∧ intervalId st' = intervalId st
  ∧ nextInterval st' = nextInterval st.
Proof.
  cbv zeta. rewrite sendPacket_unfold.
  set (p := (sendPacket_begin d mixDatagrams st).1).
  set (st1 := (sendPacket_begin d mixDatagrams st).2).
  assert (H1 : intervals st1 = intervals st ∧ intervalId st1 = intervalId st).
  { split; reflexivity. }
  unfold nextInterval. clearbody st1 p. destruct H1 as (<- & <-).
  pose proof (sendPacket_wait_outcome p st1) as Hout.
  destruct (sendPacket_wait p st1) as [st' | ms p' st']; cbn [stateOf].
  - destruct Hout as (-> & _).
    destruct (sendPacket_enqueue_frame p st1) as (_ & _ & -> & _ & -> & _). auto.
  - destruct Hout as (_ & _ & -> & _). auto.
Qed.

(** ** The timers of the reachable states *)

Lemma comboDirectMode_unfold channel red blue st :
  comboDirectMode channel red blue st =
    repeatCommand (PfChannel_val channel)
      ((PfComboDirect.val blue .<< 2) .| PfComboDirect.val red)
      (commandValue (ComboDirect channel red blue)) [0; 15] st.
Proof. unfold comboDirectMode, commandValue. cbv zeta. reflexivity. Qed.

Lemma comboPWMMode_unfold channel red blue st :
  comboPWMMode channel red blue st =
    repeatCommand (PfChannel_val channel)
      ((PfComboPWM.val blue .<< 4) .| PfComboPWM.val red)
      (commandValue (ComboPWM channel red blue)) [0; 136] st.
Proof. unfold comboPWMMode, commandValue. cbv zeta. reflexivity. Qed.

Lemma commandValue_channel c :
  Z.to_nat (channelOf (commandValue c)) = Z.to_nat (PfChannel_val (commandChannel c))
  ∧ (Z.to_nat (PfChannel_val (commandChannel c)) < 4)%nat.
Proof.
  destruct (commandValue_fields c) as (_ & ->). split; [reflexivity |].
  destruct (commandChannel c); cbn; lia.
Qed.

Lemma timers_unchanged st st' :
  intervals st' = intervals st → intervalId st' = intervalId st →
  intervals st' = intervals st ∧ intervalId st' = intervalId st
  ∧ nextInterval st' = nextInterval st.
Proof. intros E1 E2. unfold nextInterval. rewrite E1, E2. auto. Qed.

(** Every action that is not a call of a combo mode leaves the timers,
    the handles and the next handle as they are. *)
Lemma perform_keeps_timers a sys sys' :
  perform a sys = Some sys' → isComboCall a = false →
  intervals (globals sys') = intervals (globals sys)
  ∧ intervalId (globals sys') = intervalId (globals sys)
  ∧ nextInterval (globals sys') = nextInterval (globals sys).
Proof.
  intros Hstep Hcombo.
  destruct a as [pn dbg s e | channel output command | channel red blue
                | channel red blue | ra ap sn | k | k random | k];
    try discriminate Hcombo; cbn [perform] in Hstep.
  - injection Hstep as <-. cbn [globals]. unfold connectIrSenderLed.
    destruct (InfraredLed_new pn s e). apply timers_unchanged; reflexivity.
  - rewrite singleOutputMode_as_sendPacket in Hstep.
    match type of Hstep with context [sendPacket ?raw ?mix (globals sys)] =>
      pose proof (sendPacket_timers raw mix (globals sys)) as Ht;
      destruct (sendPacket raw mix (globals sys)) as [st' | ms p st']
    end; injection Hstep as <-; exact Ht.
  - injection Hstep as <-. apply timers_unchanged; reflexivity.
  - destruct (waiting sys !! k) as [[o p] |]; [| discriminate].
    cbn [mbind option_bind] in Hstep.
    pose proof (sendPacket_wait_outcome p (globals sys)) as Hout.
    destruct (sendPacket_wait p (globals sys)) as [st' | ms p' st'].
    + destruct Hout as (-> & _). injection Hstep as <-. cbn [globals].
      destruct (sendPacket_enqueue_frame p (globals sys))
        as (_ & _ & E2 & _ & E1 & _).
      apply timers_unchanged; assumption.
    + destruct Hout as (_ & _ & -> & _). injection Hstep as <-.
      apply timers_unchanged; reflexivity.
  - destruct (background (globals sys) !! k) as [mix |]; [| discriminate].
    cbn [mbind option_bind] in Hstep.
    destruct (isRandom random); [| discriminate].
    unfold worker_iteration in Hstep.
    destruct (0 <? Z.of_nat (length (tasks (globals sys)))).
    + destruct (taskAt _ _) as [t |]; [| discriminate].
      destruct (irLed (globals sys)) as [led |]; [| discriminate].
      cbn [mbind option_bind] in Hstep. injection Hstep as <-.
      apply timers_unchanged; reflexivity.
    + cbn [mbind option_bind] in Hstep. injection Hstep as <-.
      apply timers_unchanged; reflexivity.
  - destruct (intervals (globals sys) !! k) as [iv |]; [| discriminate].
    cbn [mbind option_bind] in Hstep. injection Hstep as <-. cbn [globals].
    apply (sendPacket_timers (iv_datagram iv) false (globals sys)).
Qed.

Lemma reachable_consistent sys : Reachable sys → timersConsistent (globals sys).
Proof.
  induction 1 as [| sys a sys' Hreach IH Hstep].
  - split; [constructor |]. split; [apply Forall_nil; exact I |].
    intros iv Hiv. inversion Hiv.
  - destruct (reachable_wellFormed sys Hreach) as ((_ & Hids & _) & _).
    destruct (isComboCall a) eqn:Ecombo.
    + destruct a as [pn dbg s e | channel output command | channel red blue
                    | channel red blue | ra ap sn | k | k random | k];
        try discriminate Ecombo; cbn [perform] in Hstep;
        injection Hstep as <-; cbn [globals].
      * rewrite comboDirectMode_unfold.
        destruct (commandValue_channel (ComboDirect channel red blue)) as (Hch & Hlt).
        apply repeatCommand_consistent; [exact IH | rewrite Hids; exact Hlt | exact Hch].
      * rewrite comboPWMMode_unfold.
        destruct (commandValue_channel (ComboPWM channel red blue)) as (Hch & Hlt).
        apply repeatCommand_consistent; [exact IH | rewrite Hids; exact Hlt | exact Hch].
    + destruct (perform_keeps_timers a sys sys' Hstep Ecombo) as (E1 & E2 & _).
      unfold timersConsistent. rewrite E1, E2. exact IH.
Qed.

Lemma consistent_one_per_channel ivs ids ch :
  consistent ivs ids →
  (length (filter (λ iv, timerChannel iv = ch) ivs) ≤ 1)%nat.
Proof.
  intros (Hsorted & _ & Hfwd).
  pose proof (sorted_filter _ (λ iv, timerChannel iv = ch) ivs Hsorted) as Hsorted'.
  assert (Hsame : ∀ iv, iv ∈ filter (λ iv, timerChannel iv = ch) ivs →
                        ids !! ch = Some (Some (iv_id iv))).
  { intros iv Hiv. apply list_elem_of_filter in Hiv as [<- Hiv]. auto. }
  destruct (filter (λ iv, timerChannel iv = ch) ivs) as [| x [| y l]]; cbn; try lia.
  exfalso.
  pose proof (Hsame x ltac:(left)) as Hx.
  pose proof (Hsame y ltac:(right; left)) as Hy.
  apply StronglySorted_inv in Hsorted' as [_ Hlt].
  apply Forall_cons in Hlt as [Hlt _].
  assert (E : iv_id x = iv_id y) by congruence. lia.
Qed.

Lemma consistent_handle ivs ids ch :
  consistent ivs ids →
  truthy (ids !! ch) = None → filter (λ iv, timerChannel iv = ch) ivs = [].
Proof.
  intros (_ & Hpos & Hfwd) Hnone. rewrite Forall_forall in Hpos.
  apply filter_none. intros x Hx Hch.
  pose proof (Hfwd x Hx) as Hlook. rewrite Hch in Hlook.
  destruct (Hpos x Hx) as [Hid _].
  assert (E : truthy (ids !! ch) = Some (iv_id x))
    by (apply truthy_Some; split; [exact Hlook | lia]).
  congruence.
Qed.

Lemma consistent_length ivs ids :
  consistent ivs ids → (length ivs ≤ length ids)%nat.
Proof.
  intros (Hsorted & _ & Hfwd).
  assert (Hchannels : NoDup (timerChannel <$> ivs)).
  { apply NoDup_fmap_2_strong; [| exact (NoDup_fmap_1 _ _ (sorted_NoDup _ Hsorted))].
    intros x y Hx Hy Heq.
    apply (sorted_inj ivs x y Hsorted Hx Hy).
    pose proof (Hfwd x Hx) as Ex. pose proof (Hfwd y Hy) as Ey.
    rewrite Heq in Ex. congruence. }
  assert (Hsub : timerChannel <$> ivs ⊆+ seq 0 (length ids)).
  { apply NoDup_submseteq; [exact Hchannels |].
    intros c Hc. apply list_elem_of_fmap in Hc as (iv & -> & Hiv).
    apply elem_of_seq. pose proof (lookup_lt_Some _ _ _ (Hfwd iv Hiv)). lia. }
  apply submseteq_length in Hsub. rewrite length_fmap, length_seq in Hsub. exact Hsub.
Qed.

(** X14.  In every state the transmitter can reach, whatever the
    settings were, the running timers and the handles kept in
    [intervalId] agree: the timers have positive periods and positive,
    pairwise different handles, and each is registered under the
    channel its command value addresses, whose entry of [intervalId]
    holds its handle.  So no channel has two timers, a channel whose
    entry is [null] or 0 has none, and at most four timers run. *)
Theorem timers_stay_consistent (sys : System) :
  Reachable sys →
  let st := globals sys in
  timersConsistent st
  ∧ NoDup (iv_id <$> intervals st)
  ∧ (∀ ch, (length (timersOf ch st) ≤ 1)%nat)
  ∧ (∀ ch, truthy (intervalId st !! ch) = None → timersOf ch st = [])
  ∧ (length (intervals st) ≤ 4)%nat.
Proof.
  intros Hreach st.
  pose proof (reachable_consistent sys Hreach) as Hcons. fold st in Hcons.
  destruct (reachable_wellFormed sys Hreach) as ((_ & Hids & _) & _). fold st in Hids.
  split; [exact Hcons |].
  split; [apply sorted_NoDup; apply Hcons |].
  split; [intros ch; exact (consistent_one_per_channel _ _ ch Hcons) |].
  split; [intros ch; exact (consistent_handle _ _ ch Hcons) |].
  rewrite <- Hids. exact (consistent_length _ _ Hcons).
Qed.

Lemma timers_stay_consistent_witness :
  (timersConsistent (globals (afterRun comboRun))
   ∧ intervals (globals (afterRun comboRun)) = [mkInterval 2 1287 500]
   ∧ intervalId (globals (afterRun comboRun)) = [None; Some 2; None; None])
  ∧ (timersConsistent (globals (afterRun negativePeriodRun))
     ∧ intervals (globals (afterRun negativePeriodRun)) = []
     ∧ intervalId (globals (afterRun negativePeriodRun)) = [Some 0; None; None; None]).
Proof.
  assert (R1 : Reachable (afterRun comboRun)).
  { apply (run_reachable comboRun initialSystem); [apply reach_init |].
    vm_compute. reflexivity. }
  assert (R2 : Reachable (afterRun negativePeriodRun)).
  { apply (run_reachable negativePeriodRun initialSystem); [apply reach_init |].
    vm_compute. reflexivity. }
  split.
  - split; [exact (proj1 (timers_stay_consistent _ R1)) |].
    split; vm_compute; reflexivity.
  - split; [exact (proj1 (timers_stay_consistent _ R2)) |].
    split; vm_compute; reflexivity.
Defined.

(** X15.  Only the calls of the combo modes change the timers: whatever
    else happens (calls of [singleOutputMode], also for a channel with a
    running timer, paused calls going on, the worker, the timers firing,
    new settings, connecting again), the timers, their handles and the
    next handle stay as they are. *)
Theorem only_combo_calls_change_timers (acts : list Action) :
  ∀ sys sys',
  run acts sys = Some sys' →
  forallb (λ a, negb (isComboCall a)) acts = true →
  intervals (globals sys') = intervals (globals sys)
  ∧ intervalId (globals sys') = intervalId (globals sys)
  ∧ nextInterval (globals sys') = nextInterval (globals sys).
Proof.
  induction acts as [| a acts IH]; intros sys sys' Hrun Hall; cbn [run] in Hrun.
  - injection Hrun as <-. auto.
  - destruct (perform a sys) as [sys1 |] eqn:E; [| discriminate].
    cbn [mbind option_bind] in Hrun.
    cbn [forallb] in Hall. apply andb_true_iff in Hall as [Ha Hall].
    apply negb_true_iff in Ha.
    destruct (perform_keeps_timers a sys sys1 E Ha) as (E1 & E2 & E3).
    destruct (IH sys1 sys' Hrun Hall) as (-> & -> & ->). auto.
Qed.

Lemma only_combo_calls_change_timers_witness :
  ∃ sys',
    run afterHeldRun (afterRun heldRun) = Some sys'
    ∧ intervals (globals sys') = [mkInterval 1 17 500]
    ∧ intervalId (globals sys') = [Some 1; None; None; None].
Proof.
  destruct (run afterHeldRun (afterRun heldRun)) as [sys' |] eqn:E;
    [| vm_compute in E; discriminate].
  exists sys'. split; [reflexivity |].
  destruct (only_combo_calls_change_timers afterHeldRun (afterRun heldRun) sys' E eq_refl)
    as (-> & -> & _).
  split; vm_compute; reflexivity.
Defined.

(** ** What a call does to the timers *)

Lemma clearedIds_other ch ch' st :
  ch' ≠ ch → clearedIds ch st !! ch' = intervalId st !! ch'.
Proof.
  intros Hne. unfold clearedIds.
  destruct (truthy (intervalId st !! ch)); [| reflexivity].
  apply list_lookup_insert_ne. congruence.
Qed.

(** [repeatCommand] replaces the timer of its channel and, when the
    handle it finds there is that of the channel's own timer, leaves
    the timers of the other channels alone. *)
Lemma repeatCommand_timersOf channel command datagram excluded st :
  timersConsistent st → handlesLive st →
  (Z.to_nat channel < length (intervalId st))%nat →
  Z.to_nat (channelOf datagram) = Z.to_nat channel →
  let ch := Z.to_nat channel in
  let st' := repeatCommand channel command datagram excluded st in
  let period := repeatCommandAfter (settings st) in
  let next := match last (cancelled ch st) with
              | Some iv => iv_id iv + 1
              | None => 1
              end in
  (∀ ch', ch' ≠ ch → timersOf ch' st' = timersOf ch' st)
  ∧ timersOf ch st' =
      (if existsb (λ x, x =? command) excluded then []
       else if period <=? 0 then []
       else [mkInterval next datagram period])
  ∧ 0 < next
  ∧ (period ≠ 0 → handlesLive st').
Proof.
  intros Hcons Hlive Hlt Hch ch st' period next.
  destruct (repeatCommand_timers channel command datagram excluded st) as (Hivs & Hids).
  fold ch st' period next in Hivs, Hids.
  destruct (cancel_consistent _ _ ch Hcons) as (Hcons' & Hfree & Hsub & Hnone & Hkeep).
  fold (cancelled ch st) in Hcons', Hfree, Hsub, Hkeep.
  fold (clearedIds ch st) in Hcons', Hnone.
  specialize (Hkeep (Hlive ch)).
  assert (Hothers : ∀ ch', ch' ≠ ch →
            filter (λ iv, timerChannel iv = ch') (cancelled ch st) = timersOf ch' st).
  { intros ch' Hne. unfold timersOf, cancelled in *.
    destruct (truthy (intervalId st !! ch)) as [id |]; [| reflexivity].
    apply filter_filter_absorb. intros iv Hiv Hc.
    assert (Hin : iv ∈ filter (λ iv, iv_id iv ≠ id) (intervals st))
      by (apply Hkeep; [exact Hiv | congruence]).
    apply list_elem_of_filter in Hin as [Hid _]. exact Hid. }
  assert (Hown : filter (λ iv, timerChannel iv = ch) (cancelled ch st) = [])
    by (apply filter_none; exact Hfree).
  assert (Hnext : 0 < next).
  { unfold next. destruct Hcons' as (_ & Hpos & _). rewrite Forall_forall in Hpos.
    destruct (last (cancelled ch st)) as [y |] eqn:Elast; [| lia].
    destruct (Hpos y (last_Some_elem_of _ _ Elast)). lia. }
  assert (Hold : ∀ ch' id, ch' ≠ ch → clearedIds ch st !! ch' = Some (Some id) → id ≠ 0 →
            ∃ iv, iv ∈ cancelled ch st ∧ iv_id iv = id ∧ timerChannel iv = ch').
  { intros ch' id Hne Hlook Hid. rewrite clearedIds_other in Hlook by exact Hne.
    destruct (Hlive ch' id Hlook Hid) as (iv & Hiv & Hivid & Hivch).
    exists iv. split; [apply Hkeep; [exact Hiv | congruence] | auto]. }
  assert (Hcleared : ∀ id, clearedIds ch st !! ch = Some (Some id) → id = 0).
  { intros id Hlook. destruct (Z.eq_dec id 0) as [E | E]; [exact E |].
    assert (truthy (clearedIds ch st !! ch) = Some id)
      by (apply truthy_Some; auto).
    congruence. }
  unfold timersOf at 1 3. unfold handlesLive. rewrite Hivs, Hids.
  destruct (existsb (λ x, x =? command) excluded).
  { split; [exact Hothers |]. split; [exact Hown |]. split; [exact Hnext |].
    intros _ ch' id Hlook Hid. destruct (decide (ch' = ch)) as [-> | Hne].
    - exfalso. apply Hid. apply Hcleared. exact Hlook.
    - eauto. }
  assert (Hlen : (ch < length (clearedIds ch st))%nat)
    by (rewrite clearedIds_length; exact Hlt).
  destruct (Z.leb_spec period 0) as [Hle | Hpos].
  - split; [exact Hothers |]. split; [exact Hown |]. split; [exact Hnext |].
    intros Hne0 ch' id Hlook Hid. destruct (decide (ch' = ch)) as [-> | Hne].
    + rewrite list_lookup_insert_eq in Hlook by exact Hlen.
      destruct (Z.ltb_spec period 0); [| lia]. congruence.
    + rewrite list_lookup_insert_ne in Hlook by congruence. eauto.
  - destruct (Z.ltb_spec period 0); [lia |].
    split; [| split; [| split; [exact Hnext |]]].
    + intros ch' Hne. rewrite filter_app, (Hothers ch' Hne).
      rewrite filter_cons, filter_nil.
      destruct (decide _) as [E | _]; [| apply app_nil_r].
      exfalso. apply Hne. rewrite <- E. exact Hch.
    + rewrite filter_app, Hown, filter_cons, filter_nil.
      destruct (decide _) as [_ | E]; [reflexivity |].
      exfalso. apply E. exact Hch.
    + intros _ ch' id Hlook Hid. destruct (decide (ch' = ch)) as [-> | Hne].
      * rewrite list_lookup_insert_eq in Hlook by exact Hlen.
        injection Hlook as <-.
        exists (mkInterval next datagram period).
        split; [apply elem_of_app; right; left |]. split; [reflexivity | exact Hch].
      * rewrite list_lookup_insert_ne in Hlook by congruence.
        destruct (Hold ch' id Hne Hlook Hid) as (iv & Hiv & Hrest).
        exists iv. split; [apply elem_of_app; left; exact Hiv | exact Hrest].
Qed.

(** X16.  While [repeatCommandAfter] is positive and every handle kept
    in [intervalId] is that of a running timer of its channel, a call of
    a command function touches the timer of its own channel only.
    [singleOutputMode] changes no timer, so it does not end the
    auto-repeat of an earlier combo command on its channel.  A combo
    mode removes the timer of its channel and, unless both outputs
    float or both brake, starts one new timer there, which resubmits
    the command value of the call every [repeatCommandAfter]
    milliseconds and whose handle, not 0, it keeps for the channel; the
    timers of the other channels stay. *)
Theorem call_touches_the_timer_of_its_channel (c : Command) (st : State) :
  length (intervalId st) = 4%nat →
  timersConsistent st →
  handlesLive st →
  0 < repeatCommandAfter (settings st) →
  let st' := stateOf (issue c st) in
  let ch := Z.to_nat (PfChannel_val (commandChannel c)) in
  (∀ ch', ch' ≠ ch → timersOf ch' st' = timersOf ch' st)
  ∧ match c with
    | SingleOutput _ _ _ => timersOf ch st' = timersOf ch st
    | _ =>
        if startsTimer c
        then ∃ id, id ≠ 0
               ∧ timersOf ch st' =
                   [mkInterval id (commandValue c) (repeatCommandAfter (settings st))]
               ∧ intervalId st' !! ch = Some (Some id)
        else timersOf ch st' = [] ∧ truthy (intervalId st' !! ch) = None
    end
  ∧ timersConsistent st'
  ∧ handlesLive st'.
Proof.
  intros Hids Hcons Hlive Hperiod st' ch.
  destruct (commandValue_channel c) as (Hch & Hlt). fold ch in Hch, Hlt.
  pose proof (issue_unfold c st) as Hissue.
  destruct c as [channel output command | channel red blue | channel red blue].
  - assert (Ht : intervals st' = intervals st ∧ intervalId st' = intervalId st
                 ∧ nextInterval st' = nextInterval st).
    { unfold st'. rewrite Hissue. apply sendPacket_timers. }
    destruct Ht as (E1 & E2 & _).
    unfold timersOf, timersConsistent, handlesLive. rewrite E1, E2. auto.
  - assert (Est : st' = repeatCommand (PfChannel_val channel)
                          ((PfComboDirect.val blue .<< 2) .| PfComboDirect.val red)
                          (commandValue (ComboDirect channel red blue)) [0; 15] st)
      by (unfold st'; rewrite Hissue; reflexivity).
    clearbody st'. subst st' ch. cbn [commandChannel] in Hch, Hlt |- *.
    rewrite <- Hids in Hlt.
    destruct (repeatCommand_timersOf (PfChannel_val channel)
                ((PfComboDirect.val blue .<< 2) .| PfComboDirect.val red)
                (commandValue (ComboDirect channel red blue)) [0; 15] st
                Hcons Hlive Hlt Hch)
      as (Hothers & Hown & Hnext & Hlive').
    destruct (repeatCommand_timers (PfChannel_val channel)
                ((PfComboDirect.val blue .<< 2) .| PfComboDirect.val red)
                (commandValue (ComboDirect channel red blue)) [0; 15] st)
      as (_ & Hhandles).
    rewrite comboDirect_excluded in Hown, Hhandles.
    destruct (clearedIds_lookup _ st Hlt) as (Hnone & Hlen).
    split; [exact Hothers |]. split; [| split].
    + cbn [startsTimer]. rewrite Hhandles.
      destruct (comboDirectNeutral red blue); cbn [negb]; [auto |].
      destruct (Z.leb_spec (repeatCommandAfter (settings st)) 0); [lia |].
      destruct (Z.ltb_spec (repeatCommandAfter (settings st)) 0); [lia |].
      eexists. split; [| split; [exact Hown |]]; [lia |].
      apply list_lookup_insert_eq. lia.
    + apply repeatCommand_consistent; assumption.
    + apply Hlive'. lia.
  - assert (Est : st' = repeatCommand (PfChannel_val channel)
                          ((PfComboPWM.val blue .<< 4) .| PfComboPWM.val red)
                          (commandValue (ComboPWM channel red blue)) [0; 136] st)
      by (unfold st'; rewrite Hissue; reflexivity).
    clearbody st'. subst st' ch. cbn [commandChannel] in Hch, Hlt |- *.
    rewrite <- Hids in Hlt.
    destruct (repeatCommand_timersOf (PfChannel_val channel)
                ((PfComboPWM.val blue .<< 4) .| PfComboPWM.val red)
                (commandValue (ComboPWM channel red blue)) [0; 136] st
                Hcons Hlive Hlt Hch)
      as (Hothers & Hown & Hnext & Hlive').
    destruct (repeatCommand_timers (PfChannel_val channel)
                ((PfComboPWM.val blue .<< 4) .| PfComboPWM.val red)
                (commandValue (ComboPWM channel red blue)) [0; 136] st)
      as (_ & Hhandles).
    rewrite comboPWM_excluded in Hown, Hhandles.
    destruct (clearedIds_lookup _ st Hlt) as (Hnone & Hlen).
    split; [exact Hothers |]. split; [| split].
    + cbn [startsTimer]. rewrite Hhandles.
      destruct (comboPWMNeutral red blue); cbn [negb]; [auto |].
      destruct (Z.leb_spec (repeatCommandAfter (settings st)) 0); [lia |].
      destruct (Z.ltb_spec (repeatCommandAfter (settings st)) 0); [lia |].
      eexists. split; [| split; [exact Hown |]]; [lia |].
      apply list_lookup_insert_eq. lia.
    + apply repeatCommand_consistent; assumption.
    + apply Hlive'. lia.
Qed.

Lemma call_touches_the_timer_of_its_channel_witness :
  timersOf 1 (stateOf (issue (ComboPWM Channel2 PfComboPWM.Float PfComboPWM.Float)
                         (globals (afterRun comboRun)))) = []
  ∧ timersOf 1 (stateOf (issue (SingleOutput Channel2 Red PfSingleOutput.Float)
                           (globals (afterRun comboRun)))) = [mkInterval 2 1287 500].
Proof.
  assert (R : Reachable (afterRun comboRun)).
  { apply (run_reachable comboRun initialSystem); [apply reach_init |].
    vm_compute. reflexivity. }
  pose proof (reachable_consistent _ R) as Hcons.
  assert (Hivs : intervals (globals (afterRun comboRun)) = [mkInterval 2 1287 500])
    by (vm_compute; reflexivity).
  assert (Hids : intervalId (globals (afterRun comboRun)) = [None; Some 2; None; None])
    by (vm_compute; reflexivity).
  assert (Hlive : handlesLive (globals (afterRun comboRun))).
  { unfold handlesLive. rewrite Hivs, Hids. intros ch id Hlook Hid.
    destruct ch as [| [| [| [| ch]]]]; try discriminate Hlook.
    injection Hlook as <-. exists (mkInterval 2 1287 500).
    split; [left | split; reflexivity]. }
  assert (Hperiod : 0 < repeatCommandAfter (settings (globals (afterRun comboRun))))
    by (vm_compute; reflexivity).
  split.
  - exact (proj1 (proj1 (proj2 (call_touches_the_timer_of_its_channel
             (ComboPWM Channel2 PfComboPWM.Float PfComboPWM.Float)
             (globals (afterRun comboRun)) eq_refl Hcons Hlive Hperiod)))).
  - etransitivity.
    + exact (proj1 (proj2 (call_touches_the_timer_of_its_channel
               (SingleOutput Channel2 Red PfSingleOutput.Float)
               (globals (afterRun comboRun)) eq_refl Hcons Hlive Hperiod))).
    + vm_compute. reflexivity.
Defined.

(** ** How the queue and the output change *)

(** [sendPacket] transmits nothing and only appends to the queue. *)
Lemma sendPacket_queue d mixDatagrams st :
  let st' := stateOf (sendPacket d mixDatagrams st) in
  emitted st' = emitted st ∧ ∃ t n, tasks st' = tasks st ++ replicate n t.
Proof.
  cbv zeta. rewrite sendPacket_unfold.
  set (p := (sendPacket_begin d mixDatagrams st).1).
  set (st1 := (sendPacket_begin d mixDatagrams st).2).
  assert (H1 : emitted st1 = emitted st ∧ tasks st1 = tasks st) by (split; reflexivity).
  clearbody st1 p. destruct H1 as (<- & <-).
  pose proof (sendPacket_wait_outcome p st1) as Hout.
  destruct (sendPacket_wait p st1) as [st' | ms p' st']; cbn [stateOf].
  - destruct Hout as (-> & _). rewrite sendPacket_enqueue_tasks.
    destruct (sendPacket_enqueue_frame p st1) as (_ & _ & _ & _ & _ & _ & ->).
    split; [reflexivity | eauto].
  - destruct Hout as (_ & _ & -> & _). split; [reflexivity |].
    exists (mkTask 0 0), 0%nat. symmetry. apply app_nil_r.
Qed.

(** X17.  Nothing is transmitted and no task leaves the queue except in
    an iteration of the worker, which removes exactly the task it has
    just transmitted.  Every call of a command function, every paused
    call that goes on and every timer that fires only appends copies of
    one task to the queue (or nothing) and sends nothing itself;
    connecting the diode sends the calibration pulses and leaves the
    queue alone. *)
Theorem tasks_leave_the_queue_only_when_transmitted (a : Action) (sys sys' : System) :
  perform a sys = Some sys' →
  let st := globals sys in
  let st' := globals sys' in
  match a with
  | AWorker k random =>
      (tasks st = [] ∧ tasks st' = [] ∧ emitted st' = emitted st)
      ∨ (∃ i t led,
           tasks st !! i = Some t ∧ irLed st = Some led
           ∧ tasks st' = delete i (tasks st)
           ∧ emitted st' = emitted st ++ sendCommand led (handler t))
  | AConnectIrSenderLed p debug start end_ =>
      tasks st' = tasks st
      ∧ emitted st' = emitted st ++ (InfraredLed_new p start end_).2
  | _ =>
      emitted st' = emitted st
      ∧ ∃ t n, tasks st' = tasks st ++ replicate n t
  end.
Proof.
  intros Hstep st st'. subst st st'.
  destruct a as [pn dbg s e | channel output command | channel red blue
                | channel red blue | ra ap sn | k | k random | k];
    cbn [perform] in Hstep.
  - injection Hstep as <-. cbn [globals]. unfold connectIrSenderLed.
    destruct (InfraredLed_new pn s e) as [led evs]. split; reflexivity.
  - rewrite singleOutputMode_as_sendPacket in Hstep.
    match type of Hstep with context [sendPacket ?raw ?mix (globals sys)] =>
      pose proof (sendPacket_queue raw mix (globals sys)) as Hq;
      destruct (sendPacket raw mix (globals sys)) as [st' | ms p st']
    end; injection Hstep as <-; exact Hq.
  - injection Hstep as <-. cbn [globals]. rewrite comboDirectMode_unfold.
    rewrite repeatCommand_tasks.
    destruct (repeatCommand_frame (PfChannel_val channel)
                ((PfComboDirect.val blue .<< 2) .| PfComboDirect.val red)
                (commandValue (ComboDirect channel red blue)) [0; 15] (globals sys))
      as (_ & _ & -> & _).
    split; [reflexivity | eauto].
  - injection Hstep as <-. cbn [globals]. rewrite comboPWMMode_unfold.
    rewrite repeatCommand_tasks.
    destruct (repeatCommand_frame (PfChannel_val channel)
                ((PfComboPWM.val blue .<< 4) .| PfComboPWM.val red)
                (commandValue (ComboPWM channel red blue)) [0; 136] (globals sys))
      as (_ & _ & -> & _).
    split; [reflexivity | eauto].
  - injection Hstep as <-. split; [reflexivity |].
    exists (mkTask 0 0), 0%nat. symmetry. apply app_nil_r.
  - destruct (waiting sys !! k) as [[o p] |]; [| discriminate].
    cbn [mbind option_bind] in Hstep.
    pose proof (sendPacket_wait_outcome p (globals sys)) as Hout.
    destruct (sendPacket_wait p (globals sys)) as [st' | ms p' st'].
    + destruct Hout as (-> & _). injection Hstep as <-. cbn [globals].
      rewrite sendPacket_enqueue_tasks.
      destruct (sendPacket_enqueue_frame p (globals sys))
        as (_ & _ & _ & _ & _ & _ & ->).
      split; [reflexivity | eauto].
    + destruct Hout as (_ & _ & -> & _). injection Hstep as <-. cbn [globals].
      split; [reflexivity |].
      exists (mkTask 0 0), 0%nat. symmetry. apply app_nil_r.
  - destruct (background (globals sys) !! k) as [mix |]; [| discriminate].
    cbn [mbind option_bind] in Hstep.
    destruct (isRandom random); [| discriminate].
    unfold worker_iteration, taskAt in Hstep.
    destruct (Z.ltb_spec 0 (Z.of_nat (length (tasks (globals sys))))) as [Hlen | Hlen].
    + right.
      destruct (worker_index mix random (globals sys) <? 0); [discriminate |].
      destruct (tasks (globals sys) !! Z.to_nat (worker_index mix random (globals sys)))
        as [t |] eqn:Et; [| discriminate].
      destruct (irLed (globals sys)) as [led |] eqn:Eled; [| discriminate].
      cbn [mbind option_bind] in Hstep. injection Hstep as <-.
      exists (Z.to_nat (worker_index mix random (globals sys))), t, led.
      repeat (split; [assumption || reflexivity |]). reflexivity.
    + left. cbn [mbind option_bind] in Hstep. injection Hstep as <-.
      assert (Hempty : tasks (globals sys) = [])
        by (destruct (tasks (globals sys)); [reflexivity | cbn [length] in Hlen; lia]).
      cbn [globals tasks emitted set_background set_schedulerIsWorking].
      auto.
  - destruct (intervals (globals sys) !! k) as [iv |]; [| discriminate].
    cbn [mbind option_bind] in Hstep. injection Hstep as <-. cbn [globals].
    apply (sendPacket_queue (iv_datagram iv) false (globals sys)).
Qed.

Lemma tasks_leave_the_queue_only_when_transmitted_witness :
  ∃ sys',
    perform (ATimer 0) (afterRun heldRun) = Some sys'
    ∧ emitted (globals sys') = emitted (globals (afterRun heldRun)).
Proof.
  destruct (perform (ATimer 0) (afterRun heldRun)) as [sys' |] eqn:E;
    [| vm_compute in E; discriminate].
  exists sys'. split; [reflexivity |].
  exact (proj1 (tasks_leave_the_queue_only_when_transmitted (ATimer 0) _ _ E)).
Defined.

(** ** The worker of the reachable states *)

(** X18.  In every state the transmitter can reach at most one worker
    fiber exists, [schedulerIsWorking] is set exactly while it exists,
    and a queue that holds tasks has its worker; the toggle and handle
    arrays keep their four entries, every toggle is 0 or 1 and every
    timer resubmits a value without toggle bit.  With the diode
    connected the iterations of that worker empty the queue. *)
Theorem queued_tasks_have_one_worker (sys : System) :
  Reachable sys →
  let st := globals sys in
  wellFormed st
  ∧ timersInRange st
  ∧ (length (background st) ≤ 1)%nat
  ∧ (schedulerIsWorking st = true ↔ background st ≠ [])
  ∧ (tasks st ≠ [] → ∃ mixDatagrams, background st = [mixDatagrams])
  ∧ (∀ led, irLed st = Some led →
       ∃ sys1,
         run (replicate (length (tasks st)) (AWorker 0 0)) sys = Some sys1
         ∧ tasks (globals sys1) = []
         ∧ waiting sys1 = waiting sys).
Proof.
  intros Hreach st.
  destruct (reachable_wellFormed sys Hreach) as (Hwf & Htimers).
  destruct (reachable_singleWorker sys Hreach) as (Hone & Hflag & Hqueue).
  fold st in Hwf, Htimers, Hone, Hflag, Hqueue.
  split; [exact Hwf |]. split; [exact Htimers |]. split; [exact Hone |].
  split; [exact Hflag |]. split.
  - intros Hne. apply Hqueue, Hflag in Hne.
    destruct (background st) as [| mix [| mix' l]]; [congruence | eauto |].
    cbn [length] in Hone. lia.
  - intros led Hled.
    destruct (worker_drains_queue _ sys led Hreach Hled eq_refl)
      as (sys1 & Hrun & _ & Hempty & Hwait & _).
    eauto.
Qed.

Lemma queued_tasks_have_one_worker_witness :
  background (globals (afterRun fifoWorkerRun)) = [false]
  ∧ schedulerIsWorking (globals (afterRun fifoWorkerRun)) = true.
Proof.
  assert (R : Reachable (afterRun fifoWorkerRun)).
  { apply (run_reachable fifoWorkerRun initialSystem); [apply reach_init |].
    vm_compute. reflexivity. }
  destruct (queued_tasks_have_one_worker _ R) as (_ & _ & _ & Hflag & Hqueue & _).
  destruct Hqueue as [mix Hmix]; [vm_compute; discriminate |].
  split; [reflexivity |]. apply Hflag. rewrite Hmix. discriminate.
Defined.
